(** * Empire OS: the offline-first journal core, embedded and verified

    The development follows the modules of the program:

    - [JS]      the primitive values, string and byte operations the code
                relies on;
    - [Journal] journal.js: entry validation and the Markdown codec;
    - [Storage] storage.js: the localStorage cache, pending queue and date index;
    - [Index]   index.js: the in-memory date index, search and pagination;
    - [GitHub]  github.js: the retry wrapper and the remote write;
    - [App]     app.js: save, sync of one entry, drain of the pending queue;
    - [ExportMod] export.js: the JSON export and import, the ZIP archive;
    - [UI]      ui.js: the relative time label.

    Modelling conventions.

    - A JavaScript string is a [string]: a sequence of code units below 256.
    - A JavaScript number is a [number]: NaN, the two infinities, or an
      integer [Fin z].  This is the integer fragment of the doubles; it is
      exact for safe integers (|z| < 2^53), which is where the theorems that
      depend on printing or on arithmetic put their hypotheses.  Numeric
      literals with a fraction, an exponent or a radix prefix denote doubles
      outside the fragment and are read as NaN by [StringToNumber].
    - A JavaScript object used as a dictionary is a [gmap] with string keys.
    - localStorage is assumed writable (setItem does not throw). *)

From Stdlib Require Import ZArith Ascii String List Lia Bool.
From Stdlib Require Import DecimalString DecimalZ DecimalFacts.
From stdpp Require Import base option list gmap strings sorting.

Local Open Scope string_scope.
Local Open Scope Z_scope.

#[local] Arguments String.append : simpl nomatch.

(* ===================================================================== *)
(** * JavaScript primitives *)
(* ===================================================================== *)

Module JS.

(** Sequencing of partial steps, used to write regular expressions as a
    chain of matchers, each consuming a prefix of what is left. *)
Definition and_then {A B} (m : option A) (f : A → option B) : option B :=
  match m with
  | Some a => f a
  | None => None
  end.

Notation "m |> f" := (and_then m f) (at level 50, left associativity).

Definition LF : ascii := "010"%char.
Definition CR : ascii := "013"%char.

(** The class [\s] of regular expressions and the white space removed by
    [String.prototype.trim], on code units below 256: TAB, LF, VT, FF, CR,
    SPACE and NBSP. *)
Definition is_space (c : ascii) : bool :=
  let n := N_of_ascii c in
  (((9 <=? n) && (n <=? 13)) || (n =? 32) || (n =? 160))%N.

(** The class [\d]. *)
Definition is_digit (c : ascii) : bool :=
  let n := N_of_ascii c in ((48 <=? n) && (n <=? 57))%N.

Definition to_lower (c : ascii) : ascii :=
  let n := N_of_ascii c in
  if (((65 <=? n) && (n <=? 90))
      || ((192 <=? n) && (n <=? 222) && negb (n =? 215)))%N
  then ascii_of_N (n + 32) else c.

Fixpoint toLowerCase (s : string) : string :=
  match s with
  | EmptyString => EmptyString
  | String c r => String (to_lower c) (toLowerCase r)
  end.

Fixpoint trimStart (s : string) : string :=
  match s with
  | EmptyString => EmptyString
  | String c r => if is_space c then trimStart r else s
  end.

Fixpoint trimEnd (s : string) : string :=
  match s with
  | EmptyString => EmptyString
  | String c r =>
      match trimEnd r with
      | EmptyString => if is_space c then EmptyString else String c EmptyString
      | r' => String c r'
      end
  end.

Definition trim (s : string) : string := trimEnd (trimStart s).

(** [s.split(/\r?\n/)] *)
Fixpoint split_lines (s : string) : list string :=
  match s with
  | EmptyString => [EmptyString]
  | String c r =>
      if Ascii.eqb c LF then EmptyString :: split_lines r
      else
        let keep :=
          match split_lines r with
          | l :: ls => String c l :: ls
          | [] => [String c EmptyString]
          end in
        if Ascii.eqb c CR then
          match r with
          | String c' r' =>
              if Ascii.eqb c' LF then EmptyString :: split_lines r' else keep
          | EmptyString => keep
          end
        else keep
  end.

(** [lines.join(sep)] *)
Fixpoint join (sep : string) (l : list string) : string :=
  match l with
  | [] => EmptyString
  | [x] => x
  | x :: rest => x ++ sep ++ join sep rest
  end.

(** [s.indexOf(c)], [None] standing for -1. *)
Fixpoint indexOf (c : ascii) (s : string) : option nat :=
  match s with
  | EmptyString => None
  | String a r => if Ascii.eqb a c then Some 0%nat else S <$> indexOf c r
  end.

(** [s.slice(0, n)] and [s.slice(n)] for [0 <= n]. *)
Fixpoint slice_to (n : nat) (s : string) : string :=
  match n, s with
  | S k, String c r => String c (slice_to k r)
  | _, _ => EmptyString
  end.

Fixpoint slice_from (n : nat) (s : string) : string :=
  match n, s with
  | S k, String _ r => slice_from k r
  | _, _ => s
  end.

Fixpoint startsWith (p s : string) : bool :=
  match p, s with
  | EmptyString, _ => true
  | String a p', String b s' => Ascii.eqb a b && startsWith p' s'
  | String _ _, EmptyString => false
  end.

(** [s.includes(q)] *)
Fixpoint includes (q s : string) : bool :=
  startsWith q s ||
  match s with
  | EmptyString => false
  | String _ r => includes q r
  end.

(** Numbers: the integer fragment of the doubles. *)
Inductive number :=
| NaN
| NegInf
| PosInf
| Fin (z : Z).

Inductive value :=
| VUndef
| VNum (n : number)
| VStr (s : string).

Global Instance number_eq_dec : EqDecision number.
Proof. solve_decision. Defined.

Global Instance value_eq_dec : EqDecision value.
Proof. solve_decision. Defined.

Definition isNaN (n : number) : bool :=
  match n with NaN => true | _ => false end.

(** [a < b] on numbers; false as soon as one side is NaN. *)
Definition lt (a b : number) : bool :=
  match a, b with
  | NaN, _ | _, NaN => false
  | NegInf, NegInf => false
  | NegInf, _ => true
  | _, NegInf => false
  | PosInf, _ => false
  | _, PosInf => true
  | Fin x, Fin y => x <? y
  end.

(** [n + 1] *)
Definition succ (n : number) : number :=
  match n with
  | Fin z => Fin (z + 1)
  | other => other
  end.

(** Number to string, as a template literal does it. *)
Definition NumberToString (n : number) : string :=
  match n with
  | NaN => "NaN"
  | NegInf => "-Infinity"
  | PosInf => "Infinity"
  | Fin z => NilZero.string_of_int (Z.to_int z)
  end.

Definition ToString (v : value) : string :=
  match v with
  | VUndef => "undefined"
  | VNum n => NumberToString n
  | VStr s => s
  end.

(** An unsigned decimal literal: [Infinity] or a non-empty run of digits. *)
Definition unsigned_literal (s : string) : number :=
  if String.eqb s "Infinity" then PosInf
  else match NilZero.uint_of_string s with
       | Some d => Fin (Z.of_uint d)
       | None => NaN
       end.

Definition negate (n : number) : number :=
  match n with
  | NaN => NaN
  | NegInf => PosInf
  | PosInf => NegInf
  | Fin z => Fin (- z)
  end.

(** [Number(s)] on a string: white space is trimmed, the empty string is 0,
    a sign may precede the unsigned literal. *)
Definition StringToNumber (s : string) : number :=
  match trim s with
  | EmptyString => Fin 0
  | String c r =>
      if Ascii.eqb c "+" then unsigned_literal r
      else if Ascii.eqb c "-" then negate (unsigned_literal r)
      else unsigned_literal (String c r)
  end.

(** [Number(v)] *)
Definition ToNumber (v : value) : number :=
  match v with
  | VUndef => NaN
  | VNum n => n
  | VStr s => StringToNumber s
  end.

(** Truthiness, as used by [!v] and [v || d]. *)
Definition truthy (v : value) : bool :=
  match v with
  | VUndef => false
  | VNum NaN => false
  | VNum (Fin z) => negb (z =? 0)
  | VNum _ => true
  | VStr s => negb (String.eqb s "")
  end.

(** [v || d] *)
Definition or_else (v d : value) : value := if truthy v then v else d.

(** [v ?? d] *)
Definition nullish (v d : value) : value :=
  match v with VUndef => d | _ => v end.

(** [s || null] on a string that may be absent, and the test [if (s)]:
    the string when it is neither absent nor empty. *)
Definition or_null (s : option string) : option string :=
  match s with
  | Some t => if String.eqb t "" then None else Some t
  | None => None
  end.

(** [parseInt(s, 10)] on a non-empty run of decimal digits. *)
Definition parseInt_digits (s : string) : Z :=
  match NilEmpty.uint_of_string s with
  | Some d => Z.of_uint d
  | None => 0
  end.

(** The literal [/^\d{4}-\d{2}-\d{2}$/], used by journal.js, github.js and
    export.js alike. *)
Fixpoint eat_digits (n : nat) (s : string) : option string :=
  match n with
  | O => Some s
  | S k =>
      match s with
      | String c r => if is_digit c then eat_digits k r else None
      | EmptyString => None
      end
  end.

Definition eat_char (c : ascii) (s : string) : option string :=
  match s with
  | String a r => if Ascii.eqb a c then Some r else None
  | EmptyString => None
  end.

Definition date_pattern (s : string) : bool :=
  match eat_digits 4 s |> eat_char "-" |> eat_digits 2
        |> eat_char "-" |> eat_digits 2 with
  | Some EmptyString => true
  | _ => false
  end.

(** *** Vocabulary for strings and numbers *)

Fixpoint all_chars (P : ascii → bool) (s : string) : bool :=
  match s with
  | EmptyString => true
  | String c r => P c && all_chars P r
  end.

(** No line feed and no carriage return: the string is one line. *)
Definition one_line (s : string) : bool :=
  all_chars (λ c, negb (Ascii.eqb c LF) && negb (Ascii.eqb c CR)) s.



(** The first character, if any, is not [c]. *)
Definition not_headed (c : ascii) (s : string) : bool :=
  match s with
  | String a _ => negb (Ascii.eqb a c)
  | EmptyString => true
  end.

(** A safe integer: one that a double holds exactly. *)
Definition safe (z : Z) : bool := (- 2 ^ 53 <? z) && (z <? 2 ^ 53).

(** ** Arrays and string comparison *)

(** How [array.slice] reads one of its integer arguments: a negative index
    counts from the end, and the result is clamped to the array. *)
Definition relative_index (len k : Z) : Z :=
  if k <? 0 then Z.max (len + k) 0 else Z.min k len.

(** [array.slice(start, end)] *)
Definition array_slice {A} (start stop : Z) (l : list A) : list A :=
  let len := Z.of_nat (length l) in
  let from := relative_index len start in
  let final := relative_index len stop in
  take (Z.to_nat (final - from)) (drop (Z.to_nat from) l).

(** [array.slice(start)] *)
Definition array_slice_from {A} (start : Z) (l : list A) : list A :=
  array_slice start (Z.of_nat (length l)) l.

(** [a <= b] on two strings: the order of the code units. *)
Definition string_le (a b : string) : bool := String.leb a b.

(** [s.padStart(2, '0')] *)
Definition padStart2 (s : string) : string :=
  match s with
  | EmptyString => "00"
  | String c EmptyString => String "0" (String c EmptyString)
  | _ => s
  end.

(** The number that the digits of a string spell, read from the left and
    skipping every other character: 20251225 for "2025-12-25". *)
Fixpoint digits_value (acc : Z) (s : string) : Z :=
  match s with
  | EmptyString => acc
  | String c r =>
      if is_digit c
      then digits_value (acc * 10 + (Z.of_N (N_of_ascii c) - 48)) r
      else digits_value acc r
  end.

Definition date_number (d : string) : Z := digits_value 0 d.

(** [s.endsWith(suffix)] *)
Fixpoint endsWith (suffix s : string) : bool :=
  String.eqb suffix s ||
  match s with
  | EmptyString => false
  | String _ r => endsWith suffix r
  end.

(** [s.replace(pat, '')] with a string pattern: the first occurrence of
    [pat] is taken out. *)
Fixpoint remove_first (pat s : string) : string :=
  if startsWith pat s then slice_from (String.length pat) s
  else match s with
       | EmptyString => EmptyString
       | String c r => String c (remove_first pat r)
       end.

(** No character of the string is a full stop. *)
Definition no_dot (s : string) : bool :=
  all_chars (λ c, negb (Ascii.eqb "." c)) s.

(** ** Bytes: TextEncoder, Uint8Array and DataView *)

(** A byte array is a list of integers from 0 to 255. *)

(** [TextEncoder.encode]: UTF-8.  A code unit below 128 is one byte; one
    from 128 to 255 is two bytes. *)
Definition encode_unit (c : ascii) : list Z :=
  let n := Z.of_N (N_of_ascii c) in
  if n <? 128 then [n]
  else [Z.lor 192 (Z.shiftr n 6); Z.lor 128 (Z.land n 63)].

Fixpoint TextEncoder_encode (s : string) : list Z :=
  match s with
  | EmptyString => []
  | String c r => (encode_unit c ++ TextEncoder_encode r)%list
  end.

(** [new Uint8Array(n)]: [n] bytes, all zero. *)
Definition Uint8Array (n : nat) : list Z := replicate n 0.

(** The bytes of a 16-bit and of a 32-bit unsigned integer, low byte
    first; the value is taken modulo 2^16 and 2^32. *)
Definition u16le (v : Z) : list Z :=
  [Z.land v 255; Z.land (Z.shiftr v 8) 255].
Definition u32le (v : Z) : list Z :=
  [Z.land v 255; Z.land (Z.shiftr v 8) 255;
   Z.land (Z.shiftr v 16) 255; Z.land (Z.shiftr v 24) 255].

(** The bytes written over the array from a position on. *)
Fixpoint write_bytes (buffer : list Z) (pos : nat) (bytes : list Z) : list Z :=
  match bytes with
  | [] => buffer
  | b :: rest => write_bytes (<[pos := b]> buffer) (S pos) rest
  end.

(** A write that would end past the array throws a RangeError: [None]. *)
Definition write_within (buffer : list Z) (pos : nat) (bytes : list Z)
  : option (list Z) :=
  if (pos + length bytes <=? length buffer)%nat
  then Some (write_bytes buffer pos bytes) else None.

(** [view.setUint16(pos, v, true)] and [view.setUint32(pos, v, true)] on
    the view of an array. *)
Definition setUint16 (buffer : list Z) (pos : nat) (v : Z) : option (list Z) :=
  write_within buffer pos (u16le v).
Definition setUint32 (buffer : list Z) (pos : nat) (v : Z) : option (list Z) :=
  write_within buffer pos (u32le v).

(** [array.set(bytes, pos)] *)
Definition Uint8Array_set (buffer : list Z) (bytes : list Z) (pos : nat)
  : option (list Z) :=
  write_within buffer pos bytes.

End JS.

Export JS.

(* ===================================================================== *)
(** * journal.js *)
(* ===================================================================== *)

Module Journal.

Definition CURRENT_SCHEMA : Z := 1.

(** An entry object: the metadata fields hold arbitrary values, the text
    fields live under their keys ([section_1], [section_4a], ...). *)
Record Entry := {
  schema : value;
  date : value;
  score : value;
  discipline : value;
  focus : value;
  energy : value;
  mood : value;
  net_worth_delta : value;
  sections : gmap string string
}.

Definition set_schema (e : Entry) (v : value) : Entry :=
  {| schema := v; date := date e; score := score e;
     discipline := discipline e; focus := focus e; energy := energy e;
     mood := mood e; net_worth_delta := net_worth_delta e;
     sections := sections e |}.

(** [entry[field]] for a metadata field. *)
Definition get (e : Entry) (field : string) : value :=
  if String.eqb field "schema" then schema e
  else if String.eqb field "date" then date e
  else if String.eqb field "score" then score e
  else if String.eqb field "discipline" then discipline e
  else if String.eqb field "focus" then focus e
  else if String.eqb field "energy" then energy e
  else if String.eqb field "mood" then mood e
  else if String.eqb field "net_worth_delta" then net_worth_delta e
  else VUndef.

(** [entry.section_k || ''] *)
Definition text (e : Entry) (key : string) : string :=
  default "" (sections e !! key).

Definition section_keys : list string :=
  ["section_1"; "section_2"; "section_3";
   "section_4a"; "section_4b"; "section_4c"; "section_4d"; "section_4e";
   "section_5"; "section_6"; "section_7"; "section_8"; "section_9";
   "section_10"; "section_11"].

Definition createEntry (d : string) : Entry :=
  {| schema := VNum (Fin CURRENT_SCHEMA);
     date := VStr d;
     score := VNum (Fin 5);
     discipline := VNum (Fin 5);
     focus := VNum (Fin 5);
     energy := VNum (Fin 5);
     mood := VNum (Fin 5);
     net_worth_delta := VNum (Fin 0);
     sections := list_to_map ((λ k, (k, "")) <$> section_keys) |}.

(** ** validateEntry *)

Definition scoreFields : list string :=
  ["score"; "discipline"; "focus"; "energy"; "mood"].

Definition date_error : string := "Invalid date format. Expected YYYY-MM-DD".
Definition score_error (field : string) : string :=
  field ++ " must be a number between 0 and 10".
Definition net_worth_error : string := "net_worth_delta must be a number".

Definition is_undefined (v : value) : bool :=
  match v with VUndef => true | _ => false end.

(** One turn of the loop over [scoreFields]. *)
Definition check_score (e : Entry) (errors : list string) (field : string)
  : list string :=
  if negb (is_undefined (get e field)) then
    let val := ToNumber (get e field) in
    if isNaN val || lt val (Fin 0) || lt (Fin 10) val
    then (errors ++ [score_error field])%list
    else errors
  else errors.

Definition validateEntry (entry : option Entry) : bool * list string :=
  match entry with
  | None => (false, ["Entry is null or undefined"])
  | Some e =>
      let errors : list string := [] in
      let errors :=
        if negb (truthy (date e)) || negb (date_pattern (ToString (date e)))
        then (errors ++ [date_error])%list else errors in
      let errors := fold_left (check_score e) scoreFields errors in
      let errors :=
        if negb (is_undefined (net_worth_delta e))
           && isNaN (ToNumber (net_worth_delta e))
        then (errors ++ [net_worth_error])%list else errors in
      ((length errors =? 0)%nat, errors)
  end.

(** *** Vocabulary for what the schema asks of an entry *)

Definition bad_date (e : Entry) : bool :=
  negb (truthy (date e)) || negb (date_pattern (ToString (date e))).

(** A score that is there and whose conversion to a number is NaN or lies
    outside [0, 10]. *)
Definition bad_score (v : value) : bool :=
  negb (is_undefined v)
  && (isNaN (ToNumber v) || lt (ToNumber v) (Fin 0) || lt (Fin 10) (ToNumber v)).

(** A net worth delta that is there and whose conversion to a number is
    NaN. *)
Definition bad_net_worth (v : value) : bool :=
  negb (is_undefined v) && isNaN (ToNumber v).

(** Every violation, in the order of the checks. *)
Definition violations (e : Entry) : list string :=
  ((if bad_date e then [date_error] else [])
   ++ (score_error <$> List.filter (λ f, bad_score (get e f)) scoreFields)
   ++ (if bad_net_worth (net_worth_delta e) then [net_worth_error] else []))%list.

(** ** toMarkdown *)

Definition toMarkdown (entry : Entry) : string :=
  join (String LF "")
    [ "---";
      "schema: " ++ ToString (or_else (schema entry) (VNum (Fin CURRENT_SCHEMA)));
      "date: " ++ ToString (date entry);
      "score: " ++ ToString (score entry);
      "discipline: " ++ ToString (discipline entry);
      "focus: " ++ ToString (focus entry);
      "energy: " ++ ToString (energy entry);
      "mood: " ++ ToString (mood entry);
      "net_worth_delta: " ++ ToString (net_worth_delta entry);
      "---";
      "";
      "# 1. Identity & North Star"; text entry "section_1"; "";
      "# 2. Top 1-3 Priorities"; text entry "section_2"; "";
      "# 3. Time & Focus Plan"; text entry "section_3"; "";
      "# 4. Execution Checklist"; "";
      "## Health"; text entry "section_4a"; "";
      "## Skill"; text entry "section_4b"; "";
      "## Money"; text entry "section_4c"; "";
      "## Leverage"; text entry "section_4d"; "";
      "## Mind"; text entry "section_4e"; "";
      "# 5. Personal Balance Sheet"; text entry "section_5"; "";
      "# 6. Decisions & Thinking Log"; text entry "section_6"; "";
      "# 7. Failure & Weakness Audit"; text entry "section_7"; "";
      "# 8. Fix & Upgrade Plan"; text entry "section_8"; "";
      "# 9. Wins & Progress"; text entry "section_9"; "";
      "# 10. Self-Score (0-10)"; text entry "section_10"; "";
      "# 11. Night Close Reflection"; text entry "section_11" ].

(** *** Vocabulary for the shape of the document *)



(** ** parseFrontmatter *)

(** [\r?\n] at the head of [s]; the rest. *)
Definition eol (s : string) : option string :=
  match s with
  | String c r =>
      if Ascii.eqb c LF then Some r
      else if Ascii.eqb c CR then
        match r with
        | String c' r' => if Ascii.eqb c' LF then Some r' else None
        | EmptyString => None
        end
      else None
  | EmptyString => None
  end.

Definition dashes (s : string) : option string :=
  eat_char "-" s |> eat_char "-" |> eat_char "-".

(** [\r?\n---\r?\n] at the head of [s]; the rest. *)
Definition closing (s : string) : option string :=
  eol s |> dashes |> eol.

(** The lazy group, the closing fence and the greedy group that runs to
    the end of the input: the shortest block that is followed by a closing
    fence, and everything after the fence. *)
Fixpoint lazy_block (s : string) : option (string * string) :=
  match closing s with
  | Some rest => Some (EmptyString, rest)
  | None =>
      match s with
      | String c r =>
          match lazy_block r with
          | Some (block, rest) => Some (String c block, rest)
          | None => None
          end
      | EmptyString => None
      end
  end.

(** The whole literal of [parseFrontmatter]: the opening fence at the very
    start of the document, then the block, the closing fence and the
    rest. *)
Definition frontmatter_regex (markdown : string) : option (string * string) :=
  dashes markdown |> eol |> lazy_block.

(** One turn of the loop over the lines of the metadata block. *)
Definition frontmatter_line (frontmatter : gmap string value) (line : string)
  : gmap string value :=
  match indexOf ":" line with
  | Some (S k) =>
      let key := trim (slice_to (S k) line) in
      let val := trim (slice_from (S k + 1) line) in
      let val :=
        if negb (isNaN (StringToNumber val))
        then VNum (StringToNumber val) else VStr val in
      <[key := val]> frontmatter
  | _ => frontmatter
  end.

Definition parseFrontmatter (markdown : string)
  : gmap string value * string :=
  match frontmatter_regex markdown with
  | Some (yamlBlock, content) =>
      (fold_left frontmatter_line (split_lines yamlBlock) ∅, content)
  | None => (∅, markdown)
  end.

(** ** parseSections *)

Fixpoint skip_spaces (s : string) : string :=
  match s with
  | String c r => if is_space c then skip_spaces r else s
  | EmptyString => EmptyString
  end.

(** [\s+] at the head of [s]; the rest. *)
Definition spaces1 (s : string) : option string :=
  match s with
  | String c r => if is_space c then Some (skip_spaces r) else None
  | EmptyString => None
  end.

(** The longest run of digits at the head of [s], and the rest. *)
Fixpoint span_digits (s : string) : string * string :=
  match s with
  | String c r =>
      if is_digit c
      then let '(ds, rest) := span_digits r in (String c ds, rest)
      else (EmptyString, s)
  | EmptyString => (EmptyString, EmptyString)
  end.

(** [line.match(/^#\s+(\d+)\./)]: the captured digits. *)
Definition main_heading (line : string) : option string :=
  eat_char "#" line |> spaces1 |> λ r,
    let '(ds, rest) := span_digits r in
    match ds, eat_char "." rest with
    | String _ _, Some _ => Some ds
    | _, _ => None
    end.

Definition subsection_names : list string :=
  ["health"; "skill"; "money"; "leverage"; "mind"].

(** [line.match(/^##\s+(Health|Skill|Money|Leverage|Mind)/i)]: the capture,
    lower-cased. *)
Definition sub_heading (line : string) : option string :=
  eat_char "#" line |> eat_char "#" |> spaces1 |> λ r,
    find (λ name, startsWith name (toLowerCase r)) subsection_names.

Definition subMap (name : string) : option string :=
  if String.eqb name "health" then Some "a"
  else if String.eqb name "skill" then Some "b"
  else if String.eqb name "money" then Some "c"
  else if String.eqb name "leverage" then Some "d"
  else if String.eqb name "mind" then Some "e"
  else None.

Record parser := {
  parsed : gmap string string;
  currentSection : option Z;
  currentSubsection : option string;
  buffer : list string
}.

Definition section_key (n : Z) (sub : option string) : string :=
  match sub with
  | Some a => "section_" ++ NumberToString (Fin n) ++ a
  | None => "section_" ++ NumberToString (Fin n)
  end.

Definition flushBuffer (p : parser) : parser :=
  {| parsed :=
       match currentSection p with
       | Some n =>
           <[section_key n (currentSubsection p)
             := trim (join (String LF "") (buffer p))]> (parsed p)
       | None => parsed p
       end;
     currentSection := currentSection p;
     currentSubsection := currentSubsection p;
     buffer := [] |}.

Definition push_line (p : parser) (line : string) : parser :=
  {| parsed := parsed p;
     currentSection := currentSection p;
     currentSubsection := currentSubsection p;
     buffer := (buffer p ++ [line])%list |}.

(** One turn of the loop over the lines of the body. *)
Definition parse_line (p : parser) (line : string) : parser :=
  match main_heading line with
  | Some ds =>
      let p := flushBuffer p in
      {| parsed := parsed p;
         currentSection := Some (parseInt_digits ds);
         currentSubsection := None;
         buffer := buffer p |}
  | None =>
      match sub_heading line with
      | Some name =>
          if bool_decide (currentSection p = Some 4) then
            let p := flushBuffer p in
            {| parsed := parsed p;
               currentSection := currentSection p;
               currentSubsection := subMap name;
               buffer := buffer p |}
          else push_line p line
      | None => push_line p line
      end
  end.

Definition parseSections (content : string) : gmap string string :=
  parsed
    (flushBuffer
       (fold_left parse_line (split_lines content)
          {| parsed := ∅; currentSection := None;
             currentSubsection := None; buffer := [] |})).

(** ** migrateEntry and fromMarkdown *)

(** The registry of migrations: empty. *)
Definition migrations : gmap string (Entry → Entry) := ∅.

(** [version + 1] inside the template literal of the key. *)
Definition plus_one (v : value) : string :=
  match v with
  | VStr s => s ++ "1"
  | _ => NumberToString (succ (ToNumber v))
  end.

(** The [while (version < CURRENT_SCHEMA)] loop.  [fuel] bounds the number
    of turns; [None] means the bound was reached with the condition still
    true. *)
Fixpoint migrate_loop (fuel : nat) (entry : Entry) (version : value)
  : option Entry :=
  if lt (ToNumber version) (Fin CURRENT_SCHEMA) then
    match fuel with
    | O => None
    | S k =>
        let key := ToString version ++ "→" ++ plus_one version in
        let entry :=
          match migrations !! key with
          | Some f => f entry
          | None => entry
          end in
        migrate_loop k entry (VNum (succ (ToNumber version)))
    end
  else Some entry.

Definition migrateEntry (fuel : nat) (entry : Entry) : option Entry :=
  let version := or_else (schema entry) (VNum (Fin 1)) in
  e ← migrate_loop fuel entry version;
  Some (set_schema e (VNum (Fin CURRENT_SCHEMA))).

(** [frontmatter.k], undefined when the key is absent. *)
Definition prop (frontmatter : gmap string value) (k : string) : value :=
  default VUndef (frontmatter !! k).

Definition fromMarkdown (fuel : nat) (markdown : string) : option Entry :=
  let '(frontmatter, content) := parseFrontmatter markdown in
  let sections := parseSections content in
  migrateEntry fuel
    {| schema := or_else (prop frontmatter "schema") (VNum (Fin 1));
       date := or_else (prop frontmatter "date") (VStr "");
       score := nullish (prop frontmatter "score") (VNum (Fin 5));
       discipline := nullish (prop frontmatter "discipline") (VNum (Fin 5));
       focus := nullish (prop frontmatter "focus") (VNum (Fin 5));
       energy := nullish (prop frontmatter "energy") (VNum (Fin 5));
       mood := nullish (prop frontmatter "mood") (VNum (Fin 5));
       net_worth_delta :=
         nullish (prop frontmatter "net_worth_delta") (VNum (Fin 0));
       sections := sections |}.

(** *** Vocabulary for the round trip *)

(** A metadata value that is a safe integer. *)
Definition integer (v : value) : bool :=
  match v with
  | VNum (Fin z) => safe z
  | _ => false
  end.















(** *** Vocabulary for what the decoder can produce *)



(** The entry that [fromMarkdown] builds when the document has no metadata
    block: the defaults, with the sections given. *)
Definition blank (sections : gmap string string) : Entry :=
  {| schema := VNum (Fin CURRENT_SCHEMA);
     date := VStr "";
     score := VNum (Fin 5);
     discipline := VNum (Fin 5);
     focus := VNum (Fin 5);
     energy := VNum (Fin 5);
     mood := VNum (Fin 5);
     net_worth_delta := VNum (Fin 0);
     sections := sections |}.



End Journal.

(* ===================================================================== *)
(** * storage.js *)
(* ===================================================================== *)

Module Storage.

(** A cache record, [{ markdown, sha, synced, updatedAt, syncedAt }].
    Absent properties are [None]. *)
Record CacheRecord := {
  markdown : option string;
  sha : option string;
  synced : bool;
  updatedAt : Z;
  syncedAt : option Z
}.

(** What a caller hands to [saveEntry]: [{ markdown, sha, synced }]. *)
Record EntryData := {
  data_markdown : option string;
  data_sha : option string;
  data_synced : bool
}.

(** The three localStorage items the core uses: [empire_entries],
    [empire_pending] and [empire_index].  An item that was never written
    reads as its default, the empty object or the empty array. *)
Record Store := {
  entries : gmap string CacheRecord;
  pending : list string;
  index : list string
}.

Definition empty : Store := {| entries := ∅; pending := []; index := [] |}.

Definition set_entries (s : Store) (m : gmap string CacheRecord) : Store :=
  {| entries := m; pending := pending s; index := index s |}.
Definition set_pending (s : Store) (l : list string) : Store :=
  {| entries := entries s; pending := l; index := index s |}.
Definition set_index (s : Store) (l : list string) : Store :=
  {| entries := entries s; pending := pending s; index := l |}.

(** [array.includes(x)] *)
Definition includes_date (x : string) (l : list string) : bool :=
  bool_decide (x ∈ l).

(** [array.filter(d => d !== x)] *)
Definition without (x : string) (l : list string) : list string :=
  filter (λ d, d ≠ x) l.

(** [array.sort().reverse()]: the default sort compares strings by code
    units. *)
Definition sort_descending (l : list string) : list string :=
  reverse (merge_sort String.le l).

Definition getEntries (s : Store) : gmap string CacheRecord := entries s.

Definition getEntry (s : Store) (date : string) : option CacheRecord :=
  getEntries s !! date.

Definition getIndex (s : Store) : list string := index s.

Definition updateIndex (s : Store) (date : string) : Store :=
  let index := getIndex s in
  if negb (includes_date date index)
  then set_index s (sort_descending (index ++ [date]))
  else s.

Definition setIndex (s : Store) (dates : list string) : Store :=
  set_index s (sort_descending dates).

(** [now] is what [Date.now()] returns at the call. *)
Definition saveEntry (s : Store) (date : string) (entryData : EntryData)
    (now : Z) : Store :=
  let entries := getEntries s in
  let entries :=
    <[date := {| markdown := data_markdown entryData;
                 sha := data_sha entryData;
                 synced := data_synced entryData;
                 updatedAt := now;
                 syncedAt := None |}]> entries in
  updateIndex (set_entries s entries) date.

Definition deleteEntry (s : Store) (date : string) : Store :=
  let entries := delete date (getEntries s) in
  let s := set_entries s entries in
  let index := getIndex s in
  let newIndex := without date index in
  set_index s newIndex.

Definition getPending (s : Store) : list string := pending s.

Definition addPending (s : Store) (date : string) : Store :=
  let pending := getPending s in
  if negb (includes_date date pending)
  then set_pending s (pending ++ [date])
  else s.

Definition removePending (s : Store) (date : string) : Store :=
  let pending := getPending s in
  let newPending := without date pending in
  set_pending s newPending.

Definition clearPending (s : Store) : Store := set_pending s [].

Definition markSynced (s : Store) (date : string) (sha' : string) (now : Z)
  : Store :=
  let entries := getEntries s in
  let s :=
    match entries !! date with
    | Some r =>
        set_entries s
          (<[date := {| markdown := markdown r;
                        sha := Some sha';
                        synced := true;
                        updatedAt := updatedAt r;
                        syncedAt := Some now |}]> entries)
    | None => s
    end in
  removePending s date.

Definition markPending (s : Store) (date : string) : Store :=
  let entries := getEntries s in
  let s :=
    match entries !! date with
    | Some r =>
        set_entries s
          (<[date := {| markdown := markdown r;
                        sha := sha r;
                        synced := false;
                        updatedAt := updatedAt r;
                        syncedAt := syncedAt r |}]> entries)
    | None => s
    end in
  addPending s date.

(** *** Vocabulary for the state of the cache *)

(** The record as [markPending] leaves it. *)
Definition unsync (r : CacheRecord) : CacheRecord :=
  {| markdown := markdown r; sha := sha r; synced := false;
     updatedAt := updatedAt r; syncedAt := syncedAt r |}.

(** The cache holds a record for the date and the record is pending. *)
Definition pending_record (s : Store) (date : string) : Prop :=
  ∃ r, getEntry s date = Some r ∧ synced r = false.

(** Queue and sync state agree on the date. *)
Definition queue_ok (s : Store) (date : string) : Prop :=
  date ∈ getPending s ↔ pending_record s date.

(** The record holds a document that is not empty. *)
Definition usable (r : CacheRecord) : Prop :=
  ∃ md, markdown r = Some md ∧ md ≠ "".

Definition unsynced_usable (s : Store) : Prop :=
  ∀ date r, getEntry s date = Some r → synced r = false → usable r.

(** Queue and sync state agree everywhere, except perhaps on one date. *)
Definition consistent_but (s : Store) (date : string) : Prop :=
  (∀ d, d ≠ date → queue_ok s d) ∧ unsynced_usable s.

(** Queue and sync state agree everywhere. *)
Definition consistent (s : Store) : Prop :=
  (∀ d, queue_ok s d) ∧ unsynced_usable s.

(** ** pruneCache *)

(** One turn of the loop over [toRemove]; [None] is the TypeError of
    reading [synced] off a record that is not there. *)
Definition prune_one (entries : option (gmap string CacheRecord))
    (date : string) : option (gmap string CacheRecord) :=
  match entries with
  | Some m =>
      match m !! date with
      | Some r => Some (if synced r then delete date m else m)
      | None => None
      end
  | None => None
  end.

(** [Object.keys(entries).sort().reverse()]: the sort makes the order in
    which the keys are enumerated immaterial. *)
Definition sorted_keys (m : gmap string CacheRecord) : list string :=
  sort_descending (fst <$> map_to_list m).

Definition pruneCache (s : Store) (keep : Z) : option Store :=
  let entries := getEntries s in
  let dates := sorted_keys entries in
  if Z.of_nat (length dates) <=? keep then Some s
  else
    let toRemove := array_slice_from keep dates in
    match fold_left prune_one toRemove (Some entries) with
    | Some entries => Some (set_entries s entries)
    | None => None
    end.

(** ** Sequences of calls

    The calls through which the rest of the program writes the cache, the
    queue and the index. *)
Inductive Call :=
| CallSaveEntry (date : string) (entryData : EntryData) (now : Z)
| CallDeleteEntry (date : string)
| CallMarkSynced (date sha : string) (now : Z)
| CallMarkPending (date : string)
| CallAddPending (date : string)
| CallRemovePending (date : string)
| CallClearPending
| CallUpdateIndex (date : string)
| CallSetIndex (dates : list string)
| CallPruneCache (keep : Z).

Definition call (s : Store) (c : Call) : Store :=
  match c with
  | CallSaveEntry date entryData now => saveEntry s date entryData now
  | CallDeleteEntry date => deleteEntry s date
  | CallMarkSynced date sha' now => markSynced s date sha' now
  | CallMarkPending date => markPending s date
  | CallAddPending date => addPending s date
  | CallRemovePending date => removePending s date
  | CallClearPending => clearPending s
  | CallUpdateIndex date => updateIndex s date
  | CallSetIndex dates => setIndex s dates
  | CallPruneCache keep => default s (pruneCache s keep)
  end.

Definition calls (s : Store) (cs : list Call) : Store := fold_left call cs s.

(** Newest first: each date is at least the one after it. *)
Definition newest_first (l : list string) : Prop :=
  Sorted (λ a b, String.le b a) l.

End Storage.

(* ===================================================================== *)
(** * index.js *)
(* ===================================================================== *)

Module Index.

Definition PAGE_SIZE : Z := 50.

(** The module-level variables [_index], [_currentPage], [_searchQuery]. *)
Record State := {
  _index : list string;
  _currentPage : Z;
  _searchQuery : string
}.

Definition set_index (i : State) (l : list string) : State :=
  {| _index := l; _currentPage := _currentPage i;
     _searchQuery := _searchQuery i |}.
Definition set_page (i : State) (p : Z) : State :=
  {| _index := _index i; _currentPage := p;
     _searchQuery := _searchQuery i |}.

Definition init (s : Storage.Store) : State :=
  {| _index := Storage.getIndex s; _currentPage := 1; _searchQuery := "" |}.

Definition setDates (i : State) (s : Storage.Store) (dates : list string)
  : State * Storage.Store :=
  let i := set_index i (Storage.sort_descending dates) in
  (i, Storage.setIndex s (_index i)).

Definition addDate (i : State) (s : Storage.Store) (date : string)
  : State * Storage.Store :=
  if negb (Storage.includes_date date (_index i)) then
    let i := set_index i (Storage.sort_descending (_index i ++ [date])) in
    (i, Storage.setIndex s (_index i))
  else (i, s).

Definition removeDate (i : State) (s : Storage.Store) (date : string)
  : State * Storage.Store :=
  let i := set_index i (Storage.without date (_index i)) in
  (i, Storage.setIndex s (_index i)).

Definition setSearchQuery (i : State) (query : string) : State :=
  {| _index := _index i; _currentPage := 1;
     _searchQuery := trim (toLowerCase query) |}.

Definition getFilteredDates (i : State) (s : Storage.Store) : list string :=
  if String.eqb (_searchQuery i) "" then _index i
  else
    filter
      (λ date,
         Is_true
           (includes (_searchQuery i) date ||
            match Storage.getEntry s date with
            | Some entry =>
                match Storage.markdown entry with
                | Some md =>
                    negb (String.eqb md "")
                    && includes (_searchQuery i) (toLowerCase md)
                | None => false
                end
            | None => false
            end))
      (_index i).

Record Page := {
  dates : list string;
  page : Z;
  totalPages : Z;
  hasNext : bool;
  hasPrev : bool;
  totalCount : Z
}.

(** [Math.ceil(n / d)] for integers [0 <= n], [0 < d]. *)
Definition ceil_div (n d : Z) : Z := (n + d - 1) / d.

(** [array.slice(start, end)] for [0 <= start <= end]. *)
Definition slice (start stop : Z) (l : list string) : list string :=
  take (Z.to_nat (stop - start)) (drop (Z.to_nat start) l).

Definition getPage (i : State) (s : Storage.Store) : Page * State :=
  let filtered := getFilteredDates i s in
  let totalPages := Z.max 1 (ceil_div (Z.of_nat (length filtered)) PAGE_SIZE) in
  let i := set_page i (Z.min (_currentPage i) totalPages) in
  let i := set_page i (Z.max 1 (_currentPage i)) in
  let start := (_currentPage i - 1) * PAGE_SIZE in
  let stop := start + PAGE_SIZE in
  let dates := slice start stop filtered in
  ({| dates := dates;
      page := _currentPage i;
      totalPages := totalPages;
      hasNext := _currentPage i <? totalPages;
      hasPrev := 1 <? _currentPage i;
      totalCount := Z.of_nat (length filtered) |}, i).

Definition nextPage (i : State) (s : Storage.Store) : bool * State :=
  let '(p, i) := getPage i s in
  if hasNext p then (true, set_page i (_currentPage i + 1)) else (false, i).

Definition prevPage (i : State) : bool * State :=
  if 1 <? _currentPage i then (true, set_page i (_currentPage i - 1))
  else (false, i).

Definition goToPage (i : State) (p : Z) : State := set_page i (Z.max 1 p).

(** ** The other readers of the index *)

Definition getAllDates (i : State) : list string := _index i.

Definition getTotalCount (i : State) : Z := Z.of_nat (length (_index i)).

Definition getRecent (i : State) (count : Z) : list string :=
  array_slice 0 count (_index i).

Definition hasDate (i : State) (date : string) : bool :=
  Storage.includes_date date (_index i).

(** The prefix [year-MM] of the two month functions. *)
Definition month_prefix (year month : Z) : string :=
  NumberToString (Fin year) ++ "-" ++ padStart2 (NumberToString (Fin month)).

Definition getMonthDates (i : State) (year month : Z) : list string :=
  List.filter (startsWith (month_prefix year month)) (_index i).

Definition getMonthCount (i : State) (year month : Z) : Z :=
  Z.of_nat (length (List.filter (startsWith (month_prefix year month)) (_index i))).

Definition getDateRange (i : State) (startDate endDate : string)
  : list string :=
  List.filter (λ d, string_le startDate d && string_le d endDate) (_index i).

(** The in-memory index and the stored index hold the same dates in the
    same order, newest first. *)
Definition in_step (i : State) (s : Storage.Store) : Prop :=
  _index i = Storage.getIndex s ∧ Storage.newest_first (_index i).

End Index.

(* ===================================================================== *)
(** * github.js *)
(* ===================================================================== *)

Module GitHub.

(** An [Error] object; [status] is absent on errors that were not built
    from a response (a failed [fetch]). *)
Record Error := { status : option Z; message : string }.

(** How one call of an asynchronous function ends. *)
Inductive attempt (A : Type) :=
| Resolved (a : A)
| Rejected (e : Error).
Arguments Resolved {A} a.
Arguments Rejected {A} e.

(** How [withRetry] ends; [Throw None] is [throw undefined]. *)
Inductive outcome (A : Type) :=
| Return (a : A)
| Throw (e : option Error).
Arguments Return {A} a.
Arguments Throw {A} e.

(** A run of [withRetry]: its outcome, the world it leaves, and what it
    did on the way: how many times [fn] was called and the delays it
    waited, in order, in milliseconds. *)
Record Run (W A : Type) := {
  result : outcome A;
  world : W;
  attempts : nat;
  delays : list Z
}.
Arguments result {W A} r.
Arguments world {W A} r.
Arguments attempts {W A} r.
Arguments delays {W A} r.

Definition fail_fast (e : Error) : bool :=
  bool_decide (status e = Some 401)
  || bool_decide (status e = Some 403)
  || bool_decide (status e = Some 404).

Section WithRetry.
Context {W A : Type}.

(** The function under retry; each call may change the world. *)
Variable fn : W → attempt A * W.

(** The [for (let i = 0; i < maxRetries; i++)] loop, with [remaining]
    turns to go. *)
Fixpoint retry_loop (remaining : nat) (i : Z) (lastError : option Error)
    (w : W) (calls : nat) (waited : list Z) : Run W A :=
  match remaining with
  | O => {| result := Throw lastError; world := w;
            attempts := calls; delays := waited |}
  | S k =>
      match fn w with
      | (Resolved a, w') =>
          {| result := Return a; world := w';
             attempts := S calls; delays := waited |}
      | (Rejected error, w') =>
          if fail_fast error then
            {| result := Throw (Some error); world := w';
               attempts := S calls; delays := waited |}
          else
            let delay := 2 ^ i * 1000 in
            retry_loop k (i + 1) (Some error) w' (S calls)
              (waited ++ [delay])
      end
  end.

Definition withRetry (maxRetries : nat) (w : W) : Run W A :=
  retry_loop maxRetries 0 None w 0%nat [].

(** *** Vocabulary for what a run did *)

(** The world after the first [k] calls of [fn], and how call number [k]
    (from 0) ends. *)
Fixpoint world_after (w : W) (k : nat) : W :=
  match k with
  | O => w
  | S k' => world_after (fn w).2 k'
  end.

Definition nth_attempt (w : W) (k : nat) : attempt A :=
  (fn (world_after w k)).1.

(** A rejection that the wrapper does not rethrow at once. *)
Definition retryable (a : attempt A) : bool :=
  match a with
  | Rejected e => negb (fail_fast e)
  | Resolved _ => false
  end.

(** The delays that follow [k] failed attempts in a row, counted from
    attempt number [i]: 1000 times 2 to the [i], then twice that, and so
    on. *)
Fixpoint backoff_from (i : Z) (k : nat) : list Z :=
  match k with
  | O => []
  | S k' => 2 ^ i * 1000 :: backoff_from (i + 1) k'
  end.

Definition backoff (k : nat) : list Z := backoff_from 0 k.

(** The error the loop holds after [k] retryable rejections. *)
Definition last_error (w : W) (k : nat) (last : option Error)
  : option Error :=
  match k with
  | O => last
  | S k' =>
      match nth_attempt w k' with
      | Rejected e => Some e
      | Resolved _ => last
      end
  end.

End WithRetry.

(** The default value of the parameter [maxRetries]. *)
Definition DEFAULT_MAX_RETRIES : nat := 3.

(** What [putFile] sends and what it reads of the answer. *)
Record Request := {
  path : string;
  body_message : string;
  body_content : string;
  body_sha : option string
}.

Record Response := {
  resp_status : Z;
  resp_sha : string
}.

(** [response.ok] *)
Definition ok (r : Response) : bool :=
  (200 <=? resp_status r) && (resp_status r <=? 299).

(** What [getFile] reads of the answer to its GET request. *)
Record FileResponse := {
  file_status : Z;
  file_content : string;
  file_sha : string
}.

Section Client.
Context {W : Type}.

(** The requests through [fetch]: each either rejects (no answer) or
    resolves to a response.  The base64 transport encoding of the
    content is left out. *)
Variable put : Request → W → attempt Response * W.
Variable get : string → W → attempt FileResponse * W.

Definition getFile (path' : string) (w : W)
  : attempt (option (string * string)) * W :=
  match get path' w with
  | (Rejected e, w') => (Rejected e, w')
  | (Resolved response, w') =>
      if file_status response =? 404 then (Resolved None, w')
      else if negb ((200 <=? file_status response)
                    && (file_status response <=? 299)) then
        (Rejected {| status := Some (file_status response);
                     message := "Failed to get file" |}, w')
      else (Resolved (Some (file_content response, file_sha response)), w')
  end.

Definition getEntry (date : string) (w : W)
  : Run W (option (string * string)) :=
  withRetry (getFile ("entries/" ++ date ++ ".md")) DEFAULT_MAX_RETRIES w.

Definition putFile (path' content message' : string) (sha : option string)
    (w : W) : attempt string * W :=
  let body :=
    {| path := path'; body_message := message';
       body_content := content; body_sha := or_null sha |} in
  match put body w with
  | (Rejected e, w') => (Rejected e, w')
  | (Resolved response, w') =>
      if negb (ok response) then
        let error :=
          {| status := Some (resp_status response);
             message :=
               if resp_status response =? 409
               then "Conflict: file was modified externally"
               else "Failed to save file" |} in
        (Rejected error, w')
      else (Resolved (resp_sha response), w')
  end.

Definition saveEntry (date markdown : string) (sha : option string)
    (w : W) : Run W string :=
  let message' :=
    match or_null sha with
    | Some _ => "Update entry: " ++ date
    | None => "Add entry: " ++ date
    end in
  withRetry (putFile ("entries/" ++ date ++ ".md") markdown message' sha)
    DEFAULT_MAX_RETRIES w.

End Client.

(** The error [putFile] throws on a 409 answer. *)
Definition conflict : Error :=
  {| status := Some 409;
     message := "Conflict: file was modified externally" |}.

(** The request that [saveEntry] has [putFile] send. *)
Definition save_request (date markdown : string) (sha : option string)
  : Request :=
  {| path := "entries/" ++ date ++ ".md";
     body_message :=
       match or_null sha with
       | Some _ => "Update entry: " ++ date
       | None => "Add entry: " ++ date
       end;
     body_content := markdown;
     body_sha := or_null sha |}.

(** The store answers the request with 409, a version token that is stale,
    at call number [k] from the world [w]. *)
Definition answers_conflict {W : Type}
    (put : Request → W → attempt Response * W) (req : Request) (w : W)
    (k : nat) : Prop :=
  ∃ response, nth_attempt (put req) w k = Resolved response
              ∧ resp_status response = 409.

(** ** deleteFile, listFiles and the functions built on them *)

(** What [deleteFile] sends. *)
Record DeleteRequest := {
  del_path : string;
  del_message : string;
  del_sha : option string
}.

(** One item of a directory listing, as [listFiles] keeps it. *)
Record Item := {
  item_name : string;
  item_path : string;
  item_sha : string;
  item_type : string
}.

(** What [listFiles] reads of the answer: the status and, when the body is
    an array, its items. *)
Record ListResponse := {
  list_status : Z;
  list_data : option (list Item)
}.

Section Directory.
Context {W : Type}.

Variable del : DeleteRequest → W → attempt Response * W.
Variable dir : string → W → attempt ListResponse * W.

(** The parsed body that [deleteFile] returns is not modelled. *)
Definition deleteFile (path' : string) (sha : option string)
    (message' : string) (w : W) : attempt unit * W :=
  match del {| del_path := path'; del_message := message'; del_sha := sha |} w
  with
  | (Rejected e, w') => (Rejected e, w')
  | (Resolved response, w') =>
      if negb (ok response) then
        (Rejected {| status := Some (resp_status response);
                     message := "Failed to delete file" |}, w')
      else (Resolved tt, w')
  end.

Definition deleteEntry (date : string) (sha : option string) (w : W)
  : Run W unit :=
  withRetry
    (deleteFile ("entries/" ++ date ++ ".md") sha ("Delete entry: " ++ date))
    DEFAULT_MAX_RETRIES w.

Definition listFiles (path' : string) (w : W) : attempt (list Item) * W :=
  match dir path' w with
  | (Rejected e, w') => (Rejected e, w')
  | (Resolved response, w') =>
      if list_status response =? 404 then (Resolved [], w')
      else if negb ((200 <=? list_status response)
                    && (list_status response <=? 299)) then
        (Rejected {| status := Some (list_status response);
                     message := "Failed to list files" |}, w')
      else
        match list_data response with
        | None => (Resolved [], w')
        | Some data => (Resolved data, w')
        end
  end.

(** The chain of [filter], [map], [filter], [sort] and [reverse] of
    [listEntries]. *)
Definition entry_dates (files : list Item) : list string :=
  Storage.sort_descending
    (List.filter date_pattern
       (List.map (λ f, remove_first ".md" (item_name f))
          (List.filter
             (λ f, String.eqb (item_type f) "file"
                   && endsWith ".md" (item_name f)
                   && negb (String.eqb (item_name f) ".gitkeep"))
             files))).

Definition listEntries (w : W) : Run W (list string) :=
  let run := withRetry (listFiles "entries") DEFAULT_MAX_RETRIES w in
  {| result :=
       match result run with
       | Return files => Return (entry_dates files)
       | Throw e => Throw e
       end;
     world := world run;
     attempts := attempts run;
     delays := delays run |}.

End Directory.

End GitHub.

(* ===================================================================== *)
(** * app.js *)
(* ===================================================================== *)

Module App.

Import Storage.

Section App.
Context {W : Type}.

(** The environment: the two requests of the remote client,
    [navigator.onLine] and [Date.now()]. *)
Variable put : GitHub.Request → W → GitHub.attempt GitHub.Response * W.
Variable get : string → W → GitHub.attempt GitHub.FileResponse * W.
Variable isOnline : W → bool.
Variable now : W → Z.

(** The module-level variables of app.js that the core uses, the two
    stores they work on, and the world.  Calls into the UI module are
    left out. *)
Record State := {
  store : Store;
  idx : Index.State;
  currentDate : string;
  isDirty : bool;
  syncInProgress : bool;
  env : W
}.

Definition with_store (st : State) (s : Store) : State :=
  {| store := s; idx := idx st; currentDate := currentDate st;
     isDirty := isDirty st; syncInProgress := syncInProgress st;
     env := env st |}.
Definition with_env (st : State) (w : W) : State :=
  {| store := store st; idx := idx st; currentDate := currentDate st;
     isDirty := isDirty st; syncInProgress := syncInProgress st;
     env := w |}.
Definition with_flag (st : State) (b : bool) : State :=
  {| store := store st; idx := idx st; currentDate := currentDate st;
     isDirty := isDirty st; syncInProgress := b; env := env st |}.
Definition with_date (st : State) (date : string) : State :=
  {| store := store st; idx := idx st; currentDate := date;
     isDirty := isDirty st; syncInProgress := syncInProgress st;
     env := env st |}.
Definition with_dirty (st : State) (b : bool) : State :=
  {| store := store st; idx := idx st; currentDate := currentDate st;
     isDirty := b; syncInProgress := syncInProgress st; env := env st |}.

(** [loadEntry], as far as the stores and the world go: a date without a
    usable cached document is fetched when online and cached as
    synced.  Decoding the document and filling the form are left
    out. *)
Definition loadEntry (st : State) (date : string) : State :=
  let cached := getEntry (store st) date in
  let usable :=
    match cached ≫= markdown with
    | Some md => negb (String.eqb md "")
    | None => false
    end in
  let st :=
    if usable then st
    else if isOnline (env st) then
      let run := GitHub.getEntry get date (env st) in
      let st := with_env st (GitHub.world run) in
      match GitHub.result run with
      | GitHub.Return (Some (content, sha')) =>
          with_store st
            (saveEntry (store st) date
               {| data_markdown := Some content;
                  data_sha := Some sha';
                  data_synced := true |}
               (now (env st)))
      | _ => st
      end
    else st in
  with_dirty st false.

(** [getFormData]: the contents of the form, stamped with the current
    schema and the current date. *)
Definition getFormData (st : State) (form : Journal.Entry) : Journal.Entry :=
  {| Journal.schema := VNum (Fin Journal.CURRENT_SCHEMA);
     Journal.date := VStr (currentDate st);
     Journal.score := Journal.score form;
     Journal.discipline := Journal.discipline form;
     Journal.focus := Journal.focus form;
     Journal.energy := Journal.energy form;
     Journal.mood := Journal.mood form;
     Journal.net_worth_delta := Journal.net_worth_delta form;
     Journal.sections := Journal.sections form |}.

(** [syncEntry] up to its [await]: what it is about to send, or nothing
    when it returns at once. *)
Definition syncEntry_request (s : Store) (date : string)
  : option (string * option string) :=
  match getEntry s date with
  | Some entry =>
      match markdown entry with
      | Some md => if String.eqb md "" then None else Some (md, sha entry)
      | None => None
      end
  | None => None
  end.

(** [syncEntry] after its [await]: the [try] branch or the [catch]. *)
Definition syncEntry_settle (s : Store) (date : string)
    (res : GitHub.outcome string) (t : Z) : Store :=
  match res with
  | GitHub.Return sha' => markSynced s date sha' t
  | GitHub.Throw _ => markPending s date
  end.

Definition syncEntry (st : State) (date : string) : State :=
  match syncEntry_request (store st) date with
  | None => st
  | Some (md, sha') =>
      let run := GitHub.saveEntry put date md sha' (env st) in
      let st := with_env st (GitHub.world run) in
      with_store st
        (syncEntry_settle (store st) date (GitHub.result run) (now (env st)))
  end.

Definition saveCurrentEntry (st : State) (form : Journal.Entry) : State :=
  let entry := getFormData st form in
  let validation := Journal.validateEntry (Some entry) in
  if negb (fst validation) then st
  else
    let md := Journal.toMarkdown entry in
    let cached := getEntry (store st) (currentDate st) in
    let s :=
      saveEntry (store st) (currentDate st)
        {| data_markdown := Some md;
           data_sha := or_null (cached ≫= sha);
           data_synced := false |}
        (now (env st)) in
    let '(i, s) := Index.addDate (idx st) s (currentDate st) in
    let st :=
      {| store := s; idx := i; currentDate := currentDate st;
         isDirty := false; syncInProgress := syncInProgress st;
         env := env st |} in
    if isOnline (env st) then syncEntry st (currentDate st)
    else with_store st (markPending (store st) (currentDate st)).

(** [syncPendingEntries], run from its call to its end. *)
Definition syncPendingEntries (st : State) : State :=
  if syncInProgress st || negb (isOnline (env st)) then st
  else
    let pending := getPending (store st) in
    if (length pending =? 0)%nat then st
    else
      let st := with_flag st true in
      let st := fold_left syncEntry pending st in
      with_flag st false.

Definition checkPendingSync (st : State) : State :=
  if isOnline (env st) then syncPendingEntries st else st.

(** ** Completed operations

    The handlers that change the cache, each run from its call to its
    end, and the moves of the world around them (connectivity, time,
    the remote store). *)
Inductive Op :=
| Load (date : string)
| Save (form : Journal.Entry)
| SyncPending
| CheckPending
| World (w : W).

Definition apply (st : State) (op : Op) : State :=
  match op with
  | Load date => loadEntry (with_date st date) date
  | Save form => saveCurrentEntry st form
  | SyncPending => syncPendingEntries st
  | CheckPending => checkPendingSync st
  | World w => with_env st w
  end.

Definition run_ops (st : State) (ops : list Op) : State :=
  fold_left apply ops st.

(** ** The drain as a task of the event loop

    [syncPendingEntries] suspends at each [await syncEntry(date)], and
    other handlers run while it is suspended.  A suspended drain is the
    date whose [syncEntry] it awaits, the request that [syncEntry]
    issued (nothing when it returned at once), and the dates still to
    visit. *)
Record Drain := {
  current : string;
  request : option (string * option string);
  rest : list string
}.

(** The body of the [for] loop up to the next [await], or the code after
    the loop. *)
Definition drain_next (st : State) (dates : list string)
  : State * option Drain :=
  match dates with
  | date :: dates' =>
      (st, Some {| current := date;
                   request := syncEntry_request (store st) date;
                   rest := dates' |})
  | [] => (with_flag st false, None)
  end.

(** A call of [syncPendingEntries], up to its first [await]. *)
Definition syncPendingEntries_call (st : State) : State * option Drain :=
  if syncInProgress st || negb (isOnline (env st)) then (st, None)
  else
    let pending := getPending (store st) in
    if (length pending =? 0)%nat then (st, None)
    else drain_next (with_flag st true) pending.

(** A suspended drain resumes: the awaited [syncEntry] settles, and the
    loop goes on to its next [await] or to its end. *)
Definition drain_resume (st : State) (d : Drain) : State * option Drain :=
  let st :=
    match request d with
    | None => st
    | Some (md, sha') =>
        let run := GitHub.saveEntry put (current d) md sha' (env st) in
        let st := with_env st (GitHub.world run) in
        with_store st
          (syncEntry_settle (store st) (current d) (GitHub.result run)
             (now (env st)))
    end in
  drain_next st (rest d).

(** What can happen between two suspensions: a trigger (the periodic
    timer through [checkPendingSync], the [online] event, the call at
    start-up) calls [syncPendingEntries]; the [k]-th suspended drain
    resumes; or any other handler runs, which may change everything
    except [syncInProgress], a variable that only [syncPendingEntries]
    writes. *)
Inductive Event :=
| Trigger
| Resume (k : nat)
| Other (s : Store) (i : Index.State) (date : string) (dirty : bool) (w : W).

Record Machine := {
  app : State;
  drains : list Drain
}.

Definition step (m : Machine) (ev : Event) : Machine :=
  match ev with
  | Trigger =>
      match syncPendingEntries_call (app m) with
      | (st, Some d) => {| app := st; drains := (drains m ++ [d])%list |}
      | (st, None) => {| app := st; drains := drains m |}
      end
  | Resume k =>
      match drains m !! k with
      | Some d =>
          match drain_resume (app m) d with
          | (st, Some d') => {| app := st; drains := <[k := d']> (drains m) |}
          | (st, None) => {| app := st; drains := delete k (drains m) |}
          end
      | None => m
      end
  | Other s i date dirty w =>
      {| app := {| store := s; idx := i; currentDate := date;
                   isDirty := dirty;
                   syncInProgress := syncInProgress (app m);
                   env := w |};
         drains := drains m |}
  end.

Definition run (m : Machine) (evs : list Event) : Machine :=
  fold_left step evs m.

(** Either no drain is suspended and the flag is down, or exactly one
    is and the flag is up. *)
Definition single_flight (m : Machine) : Prop :=
  (drains m = [] ∧ syncInProgress (app m) = false)
  ∨ (∃ d, drains m = [d] ∧ syncInProgress (app m) = true).

End App.

Section Refresh.
Context {W : Type}.

Variable dir : string → W → GitHub.attempt GitHub.ListResponse * W.

(** [refreshIndex]: the index is replaced by the listing of the remote
    store; a listing that fails is swallowed. *)
Definition refreshIndex (st : @State W) : State :=
  let run := GitHub.listEntries dir (env st) in
  let st := with_env st (GitHub.world run) in
  match GitHub.result run with
  | GitHub.Return dates =>
      let '(i, s) := Index.setDates (idx st) (store st) dates in
      {| store := s; idx := i; currentDate := currentDate st;
         isDirty := isDirty st; syncInProgress := syncInProgress st;
         env := env st |}
  | GitHub.Throw _ => st
  end.

End Refresh.

End App.

(* ===================================================================== *)
(** * export.js *)
(* ===================================================================== *)

Module ExportMod.

(** One value of [data.entries]: an object of which [markdown] and [sha]
    are read. *)
Record Imported := {
  markdown : option string;
  sha : option string
}.

Record Counts := { imported : nat; skipped : nat }.

(** One turn of the loop over [Object.entries(data.entries)]; [t] is what
    [Date.now()] returns in this turn. *)
Definition import_one
    (acc : Counts * Index.State * Storage.Store)
    (item : string * Imported) (t : Z)
  : Counts * Index.State * Storage.Store :=
  let '(c, i, s) := acc in
  let '(date, entry) := item in
  if negb (date_pattern date) then
    ({| imported := imported c; skipped := S (skipped c) |}, i, s)
  else
    match Storage.getEntry s date with
    | Some existing =>
        if Storage.synced existing then
          ({| imported := imported c; skipped := S (skipped c) |}, i, s)
        else
          let s :=
            Storage.saveEntry s date
              {| Storage.data_markdown := markdown entry;
                 Storage.data_sha := or_null (sha entry);
                 Storage.data_synced := false |} t in
          let '(i, s) := Index.addDate i s date in
          ({| imported := S (imported c); skipped := skipped c |}, i, s)
    | None =>
        let s :=
          Storage.saveEntry s date
            {| Storage.data_markdown := markdown entry;
               Storage.data_sha := or_null (sha entry);
               Storage.data_synced := false |} t in
        let '(i, s) := Index.addDate i s date in
        ({| imported := S (imported c); skipped := skipped c |}, i, s)
    end.

(** The loop; [clock k] is the reading of [Date.now()] in turn [k]. *)
Fixpoint import_loop (items : list (string * Imported)) (clock : nat → Z)
    (k : nat) (acc : Counts * Index.State * Storage.Store)
  : Counts * Index.State * Storage.Store :=
  match items with
  | [] => acc
  | item :: rest => import_loop rest clock (S k) (import_one acc item (clock k))
  end.

(** [importFromJSON] on a parsed file whose [entries] property is the
    object with the given key-value pairs, in enumeration order. *)
Definition importFromJSON (items : list (string * Imported))
    (clock : nat → Z) (i : Index.State) (s : Storage.Store)
  : Counts * Index.State * Storage.Store :=
  import_loop items clock 0%nat ({| imported := 0; skipped := 0 |}, i, s).

(** *** Vocabulary for what an import did *)

(** The record of a date is marked synced. *)
Definition synced_in (s : Storage.Store) (date : string) : bool :=
  match Storage.getEntry s date with
  | Some r => Storage.synced r
  | None => false
  end.

(** The keys the loop passes over: those that do not have the shape of a
    date and those whose record is marked synced. *)
Definition passed_over (s : Storage.Store) (item : string * Imported) : bool :=
  negb (date_pattern item.1) || synced_in s item.1.

Definition store_of (acc : Counts * Index.State * Storage.Store) : Storage.Store := acc.2.
Definition counts_of (acc : Counts * Index.State * Storage.Store) : Counts := acc.1.1.

(** ** exportAsJSON *)

(** One value of the property [entries] of the object that [exportAsJSON]
    builds. *)
Record Exported := {
  ex_markdown : string;
  ex_synced : bool;
  ex_sha : option string;
  ex_updatedAt : Z
}.

(** The object handed to [JSON.stringify]. *)
Record ExportData := {
  version : string;
  exportedAt : string;
  totalEntries : Z;
  ex_entries : gmap string Exported
}.

(** One turn of the loop over the index. *)
Definition export_one (cache : gmap string Storage.CacheRecord)
    (acc : gmap string Exported) (date : string) : gmap string Exported :=
  match cache !! date with
  | Some entry =>
      match Storage.markdown entry with
      | Some md =>
          if String.eqb md "" then acc
          else <[date := {| ex_markdown := md;
                            ex_synced := Storage.synced entry;
                            ex_sha := Storage.sha entry;
                            ex_updatedAt := Storage.updatedAt entry |}]> acc
      | None => acc
      end
  | None => acc
  end.

(** [exportAsJSON] up to the object it serializes; [stamp] is what
    [new Date().toISOString()] returns.  The file name and the download
    are left out. *)
Definition exportAsJSON (i : Index.State) (s : Storage.Store)
    (stamp : string) : ExportData :=
  let cache := Storage.getEntries s in
  let index := Index.getAllDates i in
  {| version := "1.0";
     exportedAt := stamp;
     totalEntries := Z.of_nat (length index);
     ex_entries := fold_left (export_one cache) index ∅ |}.

(** What [importFromJSON] reads of an exported entry once the file has
    been written by [JSON.stringify] and read by [JSON.parse]: the
    document and the token. *)
Definition reimported (e : Exported) : Imported :=
  {| markdown := Some (ex_markdown e); sha := ex_sha e |}.

(** The cache holds a document for the date. *)
Definition has_document (s : Storage.Store) (date : string) : Prop :=
  ∃ r md, Storage.getEntry s date = Some r
          ∧ Storage.markdown r = Some md ∧ md ≠ "".

(** What the export writes for a date: the document of its record with the
    flag, the token and the time of the last save, when the record holds a
    document. *)
Definition exported (cache : gmap string Storage.CacheRecord) (date : string)
  : option Exported :=
  match cache !! date with
  | Some entry =>
      match Storage.markdown entry with
      | Some md =>
          if String.eqb md "" then None
          else Some {| ex_markdown := md;
                       ex_synced := Storage.synced entry;
                       ex_sha := Storage.sha entry;
                       ex_updatedAt := Storage.updatedAt entry |}
      | None => None
      end
  | None => None
  end.

(** ** createZipBlob *)

Record File := { name : string; content : string }.

(** One turn of the first loop, over the index. *)
Definition zip_file (cache : gmap string Storage.CacheRecord)
    (files : list File) (date : string) : list File :=
  match cache !! date with
  | Some entry =>
      match Storage.markdown entry with
      | Some md =>
          if String.eqb md "" then files
          else (files ++ [{| name := "entries/" ++ date ++ ".md";
                             content := md |}])%list
      | None => files
      end
  | None => files
  end.

(** The files of the archive. *)
Definition zip_files (i : Index.State) (s : Storage.Store) : list File :=
  fold_left (zip_file (Storage.getEntries s)) (Index.getAllDates i) [].

(** The local header of a file: the array and the writes through its
    view. *)
Definition localHeader (nameBytes contentBytes : list Z) : option (list Z) :=
  let header := Uint8Array (30 + length nameBytes) in
  view ← setUint32 header 0 0x04034b50;
  view ← setUint16 view 4 20;
  view ← setUint16 view 6 0;
  view ← setUint16 view 8 0;
  view ← setUint16 view 10 0;
  view ← setUint16 view 12 0;
  view ← setUint32 view 14 0;
  view ← setUint32 view 18 (Z.of_nat (length contentBytes));
  view ← setUint32 view 22 (Z.of_nat (length contentBytes));
  view ← setUint16 view 26 (Z.of_nat (length nameBytes));
  view ← setUint16 view 28 0;
  Uint8Array_set view nameBytes 30.

(** The central directory header of a file whose local header starts at
    [offset]. *)
Definition cdHeader (nameBytes contentBytes : list Z) (offset : Z)
  : option (list Z) :=
  let header := Uint8Array (46 + length nameBytes) in
  cdView ← setUint32 header 0 0x02014b50;
  cdView ← setUint16 cdView 4 20;
  cdView ← setUint16 cdView 6 20;
  cdView ← setUint16 cdView 8 0;
  cdView ← setUint16 cdView 10 0;
  cdView ← setUint16 cdView 12 0;
  cdView ← setUint16 cdView 14 0;
  cdView ← setUint32 cdView 16 0;
  cdView ← setUint32 cdView 20 (Z.of_nat (length contentBytes));
  cdView ← setUint32 cdView 24 (Z.of_nat (length contentBytes));
  cdView ← setUint16 cdView 28 (Z.of_nat (length nameBytes));
  cdView ← setUint16 cdView 30 0;
  cdView ← setUint16 cdView 32 0;
  cdView ← setUint16 cdView 34 0;
  cdView ← setUint16 cdView 36 0;
  cdView ← setUint32 cdView 38 0;
  cdView ← setUint32 cdView 42 offset;
  Uint8Array_set cdView nameBytes 46.

(** The state of the second loop: the parts of the archive so far, the
    central directory headers so far, and the running offset. *)
Record ZipState := {
  zip : list (list Z);
  centralDirectory : list (list Z);
  offset : Z
}.

(** One turn of the second loop, over the files. *)
Definition zip_one (st : ZipState) (file : File) : option ZipState :=
  let nameBytes := TextEncoder_encode (name file) in
  let contentBytes := TextEncoder_encode (content file) in
  header ← localHeader nameBytes contentBytes;
  cd ← cdHeader nameBytes contentBytes (offset st);
  Some {| zip := (zip st ++ [header; contentBytes])%list;
          centralDirectory := (centralDirectory st ++ [cd])%list;
          offset := offset st
                    + (Z.of_nat (length header)
                       + Z.of_nat (length contentBytes)) |}.

Fixpoint zip_loop (files : list File) (st : ZipState) : option ZipState :=
  match files with
  | [] => Some st
  | file :: rest => st ← zip_one st file; zip_loop rest st
  end.

(** The end of central directory record. *)
Definition endRecord (count : nat) (cdSize offset : Z) : option (list Z) :=
  let record := Uint8Array 22 in
  endView ← setUint32 record 0 0x06054b50;
  endView ← setUint16 endView 4 0;
  endView ← setUint16 endView 6 0;
  endView ← setUint16 endView 8 (Z.of_nat count);
  endView ← setUint16 endView 10 (Z.of_nat count);
  endView ← setUint32 endView 12 cdSize;
  endView ← setUint32 endView 16 offset;
  setUint16 endView 20 0.

(** [createZipBlob]: the bytes of the Blob made of the parts in order, or
    [None] when a write throws. *)
Definition createZipBlob (i : Index.State) (s : Storage.Store)
  : option (list Z) :=
  let files := zip_files i s in
  st ← zip_loop files {| zip := []; centralDirectory := []; offset := 0 |};
  let cdSize :=
    fold_left (λ acc cd, acc + Z.of_nat (length cd)) (centralDirectory st) 0 in
  let parts := (zip st ++ centralDirectory st)%list in
  record ← endRecord (length files) cdSize (offset st);
  Some (concat (parts ++ [record])).

(** *** Vocabulary for the layout of an archive *)

(** The bytes of an archive from a position on. *)
Definition bytes_at (blob : list Z) (pos len : nat) : list Z :=
  take len (drop pos blob).

(** The number that bytes spell, low byte first. *)
Definition read_le (bytes : list Z) : Z :=
  foldr (λ b acc, b + 256 * acc) 0 bytes.

(** The bytes a file takes with its local header, and where the local
    header of the file of rank [k] starts when the files are laid out one
    after the other. *)
Definition local_size (file : File) : nat :=
  30 + length (TextEncoder_encode (name file))
  + length (TextEncoder_encode (content file)).
Definition local_pos (files : list File) (k : nat) : nat :=
  sum_list (local_size <$> take k files).

(** The same for the central directory, which follows the files. *)
Definition cd_size (file : File) : nat :=
  46 + length (TextEncoder_encode (name file)).
Definition cd_pos (files : list File) (k : nat) : nat :=
  local_pos files (length files) + sum_list (cd_size <$> take k files).

End ExportMod.

(* ===================================================================== *)
(** * ui.js *)
(* ===================================================================== *)

Module UI.

(** What [formatRelativeTime] returns: one of its own labels, or the date
    of the timestamp as the locale of the browser writes it, which is left
    to the environment. *)
Inductive RelativeTime :=
| Label (text : string)
| LocaleDate (timestamp : Z).

(** [now] is what [Date.now()] returns at the call; both times are whole
    numbers of milliseconds, and [Math.floor] of a quotient of integers is
    the quotient of [Z]. *)
Definition formatRelativeTime (now timestamp : Z) : RelativeTime :=
  let diff := now - timestamp in
  let seconds := diff / 1000 in
  let minutes := seconds / 60 in
  let hours := minutes / 60 in
  let days := hours / 24 in
  if seconds <? 60 then Label "Just now"
  else if minutes <? 60 then
    Label (NumberToString (Fin minutes) ++ " min ago")
  else if hours <? 24 then
    Label (NumberToString (Fin hours) ++ " hr ago")
  else if days <? 7 then
    Label (NumberToString (Fin days) ++ " day"
           ++ (if 1 <? days then "s" else "") ++ " ago")
  else LocaleDate timestamp.

End UI.

(* ===================================================================== *)
(** * Concrete inputs used by the instances and the counterexamples *)
(* ===================================================================== *)

Module Examples.

(** A remote store for the instances.  The service is outside the
    repository; this one keeps to its write contract: a null token asserts
    that the path does not exist yet, a supplied token asserts that the
    remote content is still at that token, and a mismatch is answered with
    409 and changes nothing.  [token] is the version token the store gives
    to a content.  The store keeps the list of the requests it received. *)
Record Remote := {
  files : gmap string (string * string);
  received : list GitHub.Request
}.

Definition remote_put (token : string → string) (req : GitHub.Request)
    (r : Remote) : GitHub.attempt GitHub.Response * Remote :=
  let current : option string := snd <$> (files r !! GitHub.path req) in
  let log := (received r ++ [req])%list in
  if bool_decide (GitHub.body_sha req = current) then
    (GitHub.Resolved
       {| GitHub.resp_status := match current with Some _ => 200 | None => 201 end;
          GitHub.resp_sha := token (GitHub.body_content req) |},
     {| files := <[GitHub.path req
                   := (GitHub.body_content req, token (GitHub.body_content req))]>
                   (files r);
        received := log |})
  else
    (GitHub.Resolved {| GitHub.resp_status := 409; GitHub.resp_sha := "" |},
     {| files := files r; received := log |}).

(** A function that is rejected twice with status 500, then resolves; the
    world counts the calls. *)
Definition flaky (calls : nat) : GitHub.attempt string * nat :=
  if (calls <? 2)%nat
  then (GitHub.Rejected {| GitHub.status := Some 500;
                           GitHub.message := "Failed to save file" |}, S calls)
  else (GitHub.Resolved "sha-3", S calls).

(** What a save writes before anything is queued. *)
Definition unsynced_text : Storage.EntryData :=
  {| Storage.data_markdown := Some "text"; Storage.data_sha := None;
     Storage.data_synced := false |}.

(** A client that is offline, in front of a remote store that has no
    file; the clock stands at 0. *)
Definition no_file (path : string) (r : Remote)
  : GitHub.attempt GitHub.FileResponse * Remote :=
  (GitHub.Resolved {| GitHub.file_status := 404; GitHub.file_content := "";
                      GitHub.file_sha := "" |}, r).

Definition offline (r : Remote) : bool := false.
Definition online (r : Remote) : bool := true.
Definition midnight (r : Remote) : Z := 0.

Definition fresh_app : App.State :=
  {| App.store := Storage.empty;
     App.idx := Index.init Storage.empty;
     App.currentDate := "2025-01-01";
     App.isDirty := false;
     App.syncInProgress := false;
     App.env := {| files := ∅; received := [] |} |}.





(** A document whose metadata declares the schema minus infinity. *)
Definition endless_document : string :=
  join (String LF "") ["---"; "schema: -Infinity"; "---"; ""].

(** A remote store that holds the entry of 2025-01-01 at token "v2", with
    nothing received yet, and the token it gives to a content. *)
Definition token (content : string) : string := "blob:" ++ content.

Definition remote0 : Remote :=
  {| files := {["entries/2025-01-01.md" := ("remote text", "v2")]};
     received := [] |}.

(** A store that has nothing to delete. *)
Definition gone (req : GitHub.DeleteRequest) (r : Remote)
  : GitHub.attempt GitHub.Response * Remote :=
  (GitHub.Resolved {| GitHub.resp_status := 404; GitHub.resp_sha := "" |}, r).

(** A directory with an entry, a file that is no entry, and a folder. *)
Definition folder : list GitHub.Item :=
  [ {| GitHub.item_name := "2025-01-01.md";
       GitHub.item_path := "entries/2025-01-01.md";
       GitHub.item_sha := "a"; GitHub.item_type := "file" |};
    {| GitHub.item_name := "notes.md";
       GitHub.item_path := "entries/notes.md";
       GitHub.item_sha := "b"; GitHub.item_type := "file" |};
    {| GitHub.item_name := "2025-01-02.md";
       GitHub.item_path := "entries/2025-01-02.md";
       GitHub.item_sha := "c"; GitHub.item_type := "dir" |} ].

Definition listing (path : string) (r : Remote)
  : GitHub.attempt GitHub.ListResponse * Remote :=
  (GitHub.Resolved {| GitHub.list_status := 200;
                      GitHub.list_data := Some folder |}, r).

(** A store that accepts every write and answers with the token "new". *)
Definition accepting (req : GitHub.Request) (r : Remote)
  : GitHub.attempt GitHub.Response * Remote :=
  (GitHub.Resolved {| GitHub.resp_status := 200; GitHub.resp_sha := "new" |}, r).

(** An application with one date saved and queued. *)
Definition one_pending : @App.State Remote :=
  {| App.store :=
       Storage.markPending
         (Storage.saveEntry Storage.empty "2025-01-01" unsynced_text 0)
         "2025-01-01";
     App.idx := Index.init Storage.empty;
     App.currentDate := "2025-01-01";
     App.isDirty := false;
     App.syncInProgress := false;
     App.env := remote0 |}.

End Examples.

(* ===================================================================== *)
(** * Properties of the cache (storage.js) *)
(* ===================================================================== *)

Section StorageFacts.
Import Storage.

Lemma elem_of_without (x d : string) (l : list string) :
  d ∈ without x l ↔ d ∈ l ∧ d ≠ x.
Proof. unfold without. rewrite list_elem_of_filter. tauto. Qed.

Lemma includes_date_true (x : string) (l : list string) :
  includes_date x l = true ↔ x ∈ l.
Proof. unfold includes_date. apply bool_decide_eq_true. Qed.

Lemma sort_descending_elem (x : string) (l : list string) :
  x ∈ sort_descending l ↔ x ∈ l.
Proof.
  unfold sort_descending. rewrite elem_of_reverse.
  by rewrite merge_sort_Permutation.
Qed.

Lemma updateIndex_entries s date : entries (updateIndex s date) = entries s.
Proof. unfold updateIndex. by destruct (negb _). Qed.

Lemma updateIndex_pending s date : pending (updateIndex s date) = pending s.
Proof. unfold updateIndex. by destruct (negb _). Qed.

Lemma saveEntry_pending s date data t :
  pending (saveEntry s date data t) = pending s.
Proof. unfold saveEntry. by rewrite updateIndex_pending. Qed.

Lemma saveEntry_entries s date data t :
  entries (saveEntry s date data t)
  = <[date := {| markdown := data_markdown data; sha := data_sha data;
                 synced := data_synced data; updatedAt := t;
                 syncedAt := None |}]> (entries s).
Proof. unfold saveEntry. by rewrite updateIndex_entries. Qed.

Lemma setIndex_entries s l : entries (setIndex s l) = entries s.
Proof. done. Qed.

Lemma setIndex_pending s l : pending (setIndex s l) = pending s.
Proof. done. Qed.

Lemma addDate_entries i s date :
  entries (Index.addDate i s date).2 = entries s.
Proof. unfold Index.addDate. by destruct (negb _). Qed.

Lemma addDate_pending i s date :
  pending (Index.addDate i s date).2 = pending s.
Proof. unfold Index.addDate. by destruct (negb _). Qed.

End StorageFacts.

(** C9.  For every store and every date, [deleteEntry] removes the record of
    the date from the entries map and the date from the date index, and it
    leaves the pending queue as it was: a date that was queued before the
    deletion is still queued after it. *)
Theorem deleteEntry_leaves_pending (s : Storage.Store) (date : string) :
  Storage.getEntry (Storage.deleteEntry s date) date = None
  ∧ (date ∉ Storage.getIndex (Storage.deleteEntry s date))
  ∧ Storage.getPending (Storage.deleteEntry s date) = Storage.getPending s
  ∧ (date ∈ Storage.getPending (Storage.deleteEntry s date)
     ↔ date ∈ Storage.getPending s).
Proof.
  unfold Storage.deleteEntry, Storage.getEntry, Storage.getIndex,
    Storage.getPending, Storage.getEntries; simpl.
  split; [apply lookup_delete_eq|].
  split; [|done].
  rewrite elem_of_without. tauto.
Qed.

(* ===================================================================== *)
(** * Properties of the index (index.js) *)
(* ===================================================================== *)

Lemma ceil_div_nonneg (n : Z) : 0 ≤ n → 0 ≤ Index.ceil_div n Index.PAGE_SIZE.
Proof.
  intros Hn. unfold Index.ceil_div, Index.PAGE_SIZE.
  apply Z.div_pos; lia.
Qed.

(** The rounded-up quotient is the least number of pages that holds [n]
    dates. *)
Lemma ceil_div_spec (n : Z) :
  0 ≤ n →
  n ≤ Index.ceil_div n Index.PAGE_SIZE * Index.PAGE_SIZE
  ∧ Index.ceil_div n Index.PAGE_SIZE * Index.PAGE_SIZE < n + Index.PAGE_SIZE.
Proof.
  intros Hn. unfold Index.ceil_div, Index.PAGE_SIZE.
  pose proof (Z.div_mod (n + 50 - 1) 50 ltac:(lia)) as Hdm.
  pose proof (Z.mod_pos_bound (n + 50 - 1) 50 ltac:(lia)) as Hb.
  lia.
Qed.

(** C6.  For every state of the index module and of the cache (hence after
    any sequence of mutations, whatever remains of the date set and whatever
    the search query), [getPage] returns a page number between 1 and the
    total number of pages, a total that is at least 1 and is the rounded-up
    quotient of the number of filtered dates by the page size, [hasPrev] and
    [hasNext] compare the page with 1 and with the total, and the current
    page of the module is left at the page returned. *)
Theorem getPage_within_bounds (i : Index.State) (s : Storage.Store) :
  let p := (Index.getPage i s).1 in
  let i' := (Index.getPage i s).2 in
  1 ≤ Index.page p ≤ Index.totalPages p
  ∧ 1 ≤ Index.totalPages p
  ∧ Index.totalPages p
    = Z.max 1 (Index.ceil_div
                 (Z.of_nat (length (Index.getFilteredDates i s)))
                 Index.PAGE_SIZE)
  ∧ Z.of_nat (length (Index.getFilteredDates i s))
    ≤ Index.totalPages p * Index.PAGE_SIZE
  ∧ Index.hasPrev p = (1 <? Index.page p)
  ∧ Index.hasNext p = (Index.page p <? Index.totalPages p)
  ∧ Index._currentPage i' = Index.page p
  ∧ Index.page p = Z.max 1 (Z.min (Index._currentPage i) (Index.totalPages p)).
Proof.
  cbn zeta. unfold Index.getPage; cbn.
  set (n := Z.of_nat (length (Index.getFilteredDates i s))).
  assert (0 ≤ n) as Hn by (subst n; lia).
  pose proof (ceil_div_spec n Hn) as [Hlo _].
  unfold Index.PAGE_SIZE in *.
  repeat split; lia.
Qed.

(* ===================================================================== *)
(** * Properties of the import (export.js) *)
(* ===================================================================== *)

Module ImportFacts.
Import Storage ExportMod.

Lemma import_one_cases acc item t :
  (passed_over (store_of acc) item = true
   ∧ store_of (import_one acc item t) = store_of acc
   ∧ skipped (counts_of (import_one acc item t)) = S (skipped (counts_of acc))
   ∧ imported (counts_of (import_one acc item t)) = imported (counts_of acc))
  ∨ (passed_over (store_of acc) item = false
     ∧ entries (store_of (import_one acc item t))
       = <[item.1 := {| Storage.markdown := markdown item.2;
                        Storage.sha := or_null (sha item.2);
                        synced := false; updatedAt := t;
                        syncedAt := None |}]> (entries (store_of acc))
     ∧ skipped (counts_of (import_one acc item t)) = skipped (counts_of acc)
     ∧ imported (counts_of (import_one acc item t))
       = S (imported (counts_of acc))).
Proof.
  destruct acc as [[c i] s], item as [date entry].
  unfold passed_over, synced_in, store_of, counts_of, import_one; simpl.
  destruct (date_pattern date); simpl; [|left; done].
  destruct (getEntry s date) as [r|] eqn:Hr; [destruct (synced r) eqn:Hs|].
  - left. done.
  - right. split; [done|].
    destruct (Index.addDate i _ date) as [i' s'] eqn:Hadd. simpl.
    pose proof (addDate_entries i
      (saveEntry s date
         {| data_markdown := markdown entry;
            data_sha := or_null (sha entry); data_synced := false |} t)
      date) as He.
    rewrite Hadd in He. simpl in He. rewrite He, saveEntry_entries. done.
  - right. split; [done|].
    destruct (Index.addDate i _ date) as [i' s'] eqn:Hadd. simpl.
    pose proof (addDate_entries i
      (saveEntry s date
         {| data_markdown := markdown entry;
            data_sha := or_null (sha entry); data_synced := false |} t)
      date) as He.
    rewrite Hadd in He. simpl in He. rewrite He, saveEntry_entries. done.
Qed.

(** One turn leaves every synced record, and every record under a key
    that does not have the shape of a date, as it found them; and it
    neither creates nor removes a synced mark. *)
Lemma import_one_frame acc item t date :
  (synced_in (store_of acc) date = true ∨ date_pattern date = false) →
  getEntry (store_of (import_one acc item t)) date
  = getEntry (store_of acc) date.
Proof.
  intros Hd.
  destruct (import_one_cases acc item t) as [(_ & -> & _)|(Hp & He & _)];
    [done|].
  unfold getEntry, getEntries. rewrite He.
  apply lookup_insert_ne. intros <-.
  unfold passed_over in Hp. apply orb_false_elim in Hp as [Hp1 Hp2].
  apply negb_false_iff in Hp1.
  destruct Hd as [Hd|Hd]; congruence.
Qed.

Lemma import_one_synced_in acc item t date :
  synced_in (store_of (import_one acc item t)) date
  = synced_in (store_of acc) date.
Proof.
  destruct (import_one_cases acc item t) as [(_ & -> & _)|(Hp & He & _)];
    [done|].
  unfold synced_in, getEntry, getEntries. rewrite He.
  destruct (decide (item.1 = date)) as [<-|Hne].
  - rewrite lookup_insert_eq. simpl.
    unfold passed_over in Hp. apply orb_false_elim in Hp as [_ Hp2].
    symmetry. exact Hp2.
  - by rewrite lookup_insert_ne.
Qed.

Lemma import_loop_frame items clock k acc date :
  (synced_in (store_of acc) date = true ∨ date_pattern date = false) →
  getEntry (store_of (import_loop items clock k acc)) date
  = getEntry (store_of acc) date.
Proof.
  revert k acc. induction items as [|item items IH]; intros k acc Hd; [done|].
  simpl. rewrite IH.
  - by apply import_one_frame.
  - destruct Hd as [Hd|Hd]; [left|by right].
    by rewrite import_one_synced_in.
Qed.

Lemma import_loop_counts items clock k acc :
  skipped (counts_of (import_loop items clock k acc))
  = (skipped (counts_of acc)
     + length (List.filter (passed_over (store_of acc)) items))%nat
  ∧ imported (counts_of (import_loop items clock k acc))
    = (imported (counts_of acc)
       + length (List.filter (λ x, negb (passed_over (store_of acc) x)) items))%nat.
Proof.
  revert k acc. induction items as [|item items IH]; intros k acc.
  { simpl. lia. }
  simpl. destruct (IH (S k) (import_one acc item (clock k))) as [IHs IHi].
  rewrite IHs, IHi.
  assert (∀ x, passed_over (store_of (import_one acc item (clock k))) x
               = passed_over (store_of acc) x) as Hsame.
  { intros x. unfold passed_over. by rewrite import_one_synced_in. }
  rewrite (List.filter_ext _ _ Hsame).
  rewrite (List.filter_ext
             (λ x, negb (passed_over (store_of (import_one acc item (clock k))) x))
             (λ x, negb (passed_over (store_of acc) x))) by
    (intros x; by rewrite Hsame).
  destruct (import_one_cases acc item (clock k))
    as [(Hp & _ & Hs & Hi)|(Hp & _ & Hs & Hi)];
    rewrite Hp, Hs, Hi; simpl; lia.
Qed.

End ImportFacts.

(** C7, counterexample.  The key "2025-13-40" has the shape the import
    tests for (four digits, two digits, two digits), so an import of that
    one key into an empty cache skips nothing: it counts the key as
    imported and writes a cache record for it. *)
Lemma import_takes_2025_13_40 :
  let '(c, _, s) :=
    ExportMod.importFromJSON
      [("2025-13-40",
        {| ExportMod.markdown := Some "text"; ExportMod.sha := None |})]
      (λ _, 0)
      {| Index._index := []; Index._currentPage := 1; Index._searchQuery := "" |}
      Storage.empty in
  date_pattern "2025-13-40" = true
  ∧ ExportMod.skipped c = 0%nat
  ∧ ExportMod.imported c = 1%nat
  ∧ Storage.getEntry Storage.empty "2025-13-40" = None
  ∧ Storage.getEntry s "2025-13-40"
    = Some {| Storage.markdown := Some "text"; Storage.sha := None;
              Storage.synced := false; Storage.updatedAt := 0;
              Storage.syncedAt := None |}.
Proof. vm_compute. repeat split; reflexivity. Qed.

(** C7, as amended.  For every import: a record that the cache marks synced
    is left exactly as it was; a key that does not have the shape
    four digits, dash, two digits, dash, two digits leaves the cache without
    a change under that key; the keys counted as skipped are exactly those
    that do not have that shape or whose record is marked synced, and all
    the others are counted as imported.  The shape is all that is tested:
    "2025-13-40" has it. *)
Theorem import_skips_synced_and_misshapen
    (items : list (string * ExportMod.Imported)) (clock : nat → Z)
    (i : Index.State) (s : Storage.Store) :
  let s' := (ExportMod.importFromJSON items clock i s).2 in
  let c := (ExportMod.importFromJSON items clock i s).1.1 in
  (∀ date r, Storage.getEntry s date = Some r → Storage.synced r = true →
             Storage.getEntry s' date = Some r)
  ∧ (∀ date, date_pattern date = false →
             Storage.getEntry s' date = Storage.getEntry s date)
  ∧ ExportMod.skipped c
    = length (List.filter (ExportMod.passed_over s) items)
  ∧ ExportMod.imported c
    = length (List.filter (λ x, negb (ExportMod.passed_over s x)) items)
  ∧ date_pattern "2025-13-40" = true.
Proof.
  cbn zeta. unfold ExportMod.importFromJSON.
  split; [|split; [|split; [|split]]].
  - intros date r Hr Hs.
    rewrite <- Hr.
    apply (ImportFacts.import_loop_frame items clock 0
             ({| ExportMod.imported := 0; ExportMod.skipped := 0 |}, i, s)).
    left. unfold ExportMod.synced_in, ExportMod.store_of. simpl.
    by rewrite Hr.
  - intros date Hd.
    apply (ImportFacts.import_loop_frame items clock 0
             ({| ExportMod.imported := 0; ExportMod.skipped := 0 |}, i, s)).
    by right.
  - apply (ImportFacts.import_loop_counts items clock 0
             ({| ExportMod.imported := 0; ExportMod.skipped := 0 |}, i, s)).
  - apply (ImportFacts.import_loop_counts items clock 0
             ({| ExportMod.imported := 0; ExportMod.skipped := 0 |}, i, s)).
  - reflexivity.
Qed.

(** C7, an instance: a synced record survives an import that carries its
    date, and a key without the shape of a date is passed over. *)
Lemma import_skips_synced_and_misshapen_witness :
  let r0 :=
    {| Storage.markdown := Some "kept"; Storage.sha := Some "abc";
       Storage.synced := true; Storage.updatedAt := 1;
       Storage.syncedAt := Some 2 |} in
  let s0 :=
    {| Storage.entries := {["2025-01-01" := r0]};
       Storage.pending := []; Storage.index := ["2025-01-01"] |} in
  let items :=
    [("2025-01-01", {| ExportMod.markdown := Some "new"; ExportMod.sha := None |});
     ("tomorrow", {| ExportMod.markdown := Some "x"; ExportMod.sha := None |});
     ("2025-01-02", {| ExportMod.markdown := Some "y"; ExportMod.sha := None |})] in
  let res := ExportMod.importFromJSON items (λ _, 5) (Index.init s0) s0 in
  Storage.getEntry res.2 "2025-01-01" = Some r0
  ∧ Storage.getEntry res.2 "tomorrow" = None
  ∧ ExportMod.skipped res.1.1 = 2%nat
  ∧ ExportMod.imported res.1.1 = 1%nat.
Proof.
  intros r0 s0 items res.
  destruct (import_skips_synced_and_misshapen items (λ _, 5) (Index.init s0) s0)
    as (Hkeep & Hshape & Hskip & Himp & _).
  subst res.
  split; [apply Hkeep; reflexivity|].
  split; [rewrite (Hshape "tomorrow"); reflexivity|].
  split; [rewrite Hskip; reflexivity|rewrite Himp; reflexivity].
Defined.

(* ===================================================================== *)
(** * Properties of the remote client (github.js) *)
(* ===================================================================== *)

Module RetryFacts.
Import GitHub.

Section Retry.
Context {W A : Type}.
Variable fn : W → attempt A * W.

Local Abbreviation world_after := (GitHub.world_after fn).
Local Abbreviation nth_attempt := (GitHub.nth_attempt fn).
Local Abbreviation last_error := (GitHub.last_error fn).

Lemma nth_attempt_S w k :
  nth_attempt w (S k) = nth_attempt (fn w).2 k.
Proof. done. Qed.

(** After [k] retryable rejections the loop stands where it would have
    started with [k] fewer turns, [k] more calls made and the [k] delays
    waited. *)
Lemma retry_loop_skip k : ∀ remaining i last w calls waited,
  (∀ j, (j < k)%nat → retryable (nth_attempt w j) = true) →
  retry_loop fn (k + remaining) i last w calls waited
  = retry_loop fn remaining (i + Z.of_nat k) (last_error w k last)
      (world_after w k) (calls + k) (waited ++ backoff_from i k).
Proof.
  induction k as [|k IH]; intros remaining i last w calls waited Hprev.
  { simpl. by rewrite Z.add_0_r, Nat.add_0_r, app_nil_r. }
  pose proof (Hprev 0%nat ltac:(lia)) as H0.
  unfold GitHub.nth_attempt in H0. simpl in H0.
  change (S k + remaining)%nat with (S (k + remaining)).
  cbn [retry_loop].
  destruct (fn w) as [[a|e0] w1] eqn:Hfn; simpl in H0; [done|].
  apply negb_true_iff in H0. rewrite H0.
  rewrite IH.
  2:{ intros j Hj. specialize (Hprev (S j) ltac:(lia)).
      rewrite nth_attempt_S, Hfn in Hprev. exact Hprev. }
  cbn [GitHub.world_after backoff_from]. rewrite Hfn. cbn [snd].
  rewrite <- app_assoc. cbn [app].
  f_equal; try lia.
  destruct k as [|k']; unfold GitHub.last_error.
  - unfold GitHub.nth_attempt. cbn [GitHub.world_after]. by rewrite Hfn.
  - rewrite nth_attempt_S, Hfn. cbn [snd].
    specialize (Hprev (S k') ltac:(lia)).
    rewrite nth_attempt_S, Hfn in Hprev. cbn [snd] in Hprev.
    by destruct (nth_attempt w1 k').
Qed.

Lemma world_after_S w k :
  world_after w (S k) = (fn (world_after w k)).2.
Proof.
  revert w. induction k as [|k IH]; intros w; [done|].
  change (world_after w (S (S k))) with (world_after (fn w).2 (S k)).
  by rewrite IH.
Qed.

Lemma retry_loop_attempts remaining : ∀ i last w calls waited,
  (attempts (retry_loop fn remaining i last w calls waited)
   ≤ calls + remaining)%nat.
Proof.
  induction remaining as [|n IH]; intros i last w calls waited; simpl.
  { lia. }
  destruct (fn w) as [[a|e] w1]; simpl; [lia|].
  destruct (fail_fast e); simpl; [lia|].
  specialize (IH (i + 1) (Some e) w1 (S calls) (waited ++ [2 ^ i * 1000])%list).
  lia.
Qed.

(** The wrapper after [k] retryable rejections, when call number [k]
    settles the matter. *)
Lemma withRetry_settles (n k : nat) (w : W) :
  (k < n)%nat →
  (∀ j, (j < k)%nat → retryable (nth_attempt w j) = true) →
  retryable (nth_attempt w k) = false →
  withRetry fn n w
  = {| result :=
         match nth_attempt w k with
         | Resolved a => Return a
         | Rejected e => Throw (Some e)
         end;
       world := world_after w (S k);
       attempts := S k;
       delays := backoff k |}.
Proof.
  intros Hk Hprev Hlast. unfold withRetry.
  replace n with (k + S (n - S k))%nat by lia.
  rewrite retry_loop_skip by exact Hprev.
  cbn [retry_loop]. rewrite world_after_S.
  unfold GitHub.nth_attempt in Hlast |- *.
  destruct (fn (world_after w k)) as [[a|e] w1]; simpl in *.
  - f_equal.
  - apply negb_false_iff in Hlast. rewrite Hlast. f_equal.
Qed.

(** The wrapper when all its [n] calls end in retryable rejections. *)
Lemma withRetry_exhausted (n : nat) (w : W) :
  (∀ j, (j < n)%nat → retryable (nth_attempt w j) = true) →
  withRetry fn n w
  = {| result := Throw (last_error w n None);
       world := world_after w n;
       attempts := n;
       delays := backoff n |}.
Proof.
  intros Hall. unfold withRetry.
  replace n with (n + 0)%nat at 1 by lia.
  by rewrite retry_loop_skip.
Qed.

End Retry.

Lemma fail_fast_spec (e : Error) :
  fail_fast e = true
  ↔ status e = Some 401 ∨ status e = Some 403 ∨ status e = Some 404.
Proof.
  unfold fail_fast. rewrite !orb_true_iff, !bool_decide_eq_true. tauto.
Qed.

End RetryFacts.

(** C5.  For every function run through the retry wrapper with its default
    of 3 attempts, in every world: as long as the attempts so far were
    rejected with a status other than 401, 403 and 404, an attempt rejected
    with one of these three is rethrown at once, with no further call and no
    further wait; an attempt that resolves is returned; each other rejection
    is followed by a wait of 1000 ms times 2 to the number of the attempt
    (1000, 2000, 4000: the delay doubles) and then by the next attempt; and
    when the third attempt is rejected too, its error, the last one, is
    thrown.  No run makes more than 3 attempts. *)
Theorem withRetry_fail_fast_and_backoff {W A : Type}
    (fn : W → GitHub.attempt A * W) (w : W) (k : nat)
    (Hk : (k < GitHub.DEFAULT_MAX_RETRIES)%nat)
    (Hprev : ∀ j, (j < k)%nat →
               GitHub.retryable (GitHub.nth_attempt fn w j) = true) :
  let r := GitHub.withRetry fn GitHub.DEFAULT_MAX_RETRIES w in
  (∀ e, GitHub.nth_attempt fn w k = GitHub.Rejected e →
        (GitHub.status e = Some 401 ∨ GitHub.status e = Some 403
         ∨ GitHub.status e = Some 404) →
        r = {| GitHub.result := GitHub.Throw (Some e);
               GitHub.world := GitHub.world_after fn w (S k);
               GitHub.attempts := S k;
               GitHub.delays := GitHub.backoff k |})
  ∧ (∀ a, GitHub.nth_attempt fn w k = GitHub.Resolved a →
          r = {| GitHub.result := GitHub.Return a;
                 GitHub.world := GitHub.world_after fn w (S k);
                 GitHub.attempts := S k;
                 GitHub.delays := GitHub.backoff k |})
  ∧ (∀ e, GitHub.nth_attempt fn w k = GitHub.Rejected e →
          ¬ (GitHub.status e = Some 401 ∨ GitHub.status e = Some 403
             ∨ GitHub.status e = Some 404) →
          S k = GitHub.DEFAULT_MAX_RETRIES →
          r = {| GitHub.result := GitHub.Throw (Some e);
                 GitHub.world := GitHub.world_after fn w 3;
                 GitHub.attempts := 3;
                 GitHub.delays := [1000; 2000; 4000] |})
  ∧ (GitHub.attempts r ≤ 3)%nat
  ∧ GitHub.backoff 0 = []
  ∧ GitHub.backoff 1 = [1000]
  ∧ GitHub.backoff 2 = [1000; 2000].
Proof.
  cbn zeta. repeat apply conj; try reflexivity.
  - intros e He Hst. apply RetryFacts.fail_fast_spec in Hst.
    rewrite (RetryFacts.withRetry_settles fn _ k w Hk Hprev).
    + by rewrite He.
    + rewrite He. simpl. by rewrite Hst.
  - intros a Ha.
    rewrite (RetryFacts.withRetry_settles fn _ k w Hk Hprev).
    + by rewrite Ha.
    + by rewrite Ha.
  - intros e He Hst Hlast.
    assert (GitHub.fail_fast e = false) as Hff.
    { destruct (GitHub.fail_fast e) eqn:Hf; [|done].
      apply RetryFacts.fail_fast_spec in Hf. tauto. }
    unfold GitHub.DEFAULT_MAX_RETRIES in *.
    assert (k = 2%nat) as -> by lia.
    rewrite RetryFacts.withRetry_exhausted.
    + unfold GitHub.last_error. by rewrite He.
    + intros j Hj. destruct (decide (j = 2%nat)) as [->|Hne].
      * rewrite He. simpl. by rewrite Hff.
      * apply Hprev. lia.
  - unfold GitHub.withRetry.
    pose proof (RetryFacts.retry_loop_attempts fn GitHub.DEFAULT_MAX_RETRIES
                  0 None w 0%nat []) as Hle.
    exact Hle.
Qed.

(** C5, an instance: two failures with status 500, then a success. *)
Lemma withRetry_fail_fast_and_backoff_witness :
  GitHub.withRetry Examples.flaky GitHub.DEFAULT_MAX_RETRIES 0%nat
  = {| GitHub.result := GitHub.Return "sha-3"; GitHub.world := 3%nat;
       GitHub.attempts := 3; GitHub.delays := [1000; 2000] |}.
Proof.
  assert (∀ j, (j < 2)%nat →
            GitHub.retryable (GitHub.nth_attempt Examples.flaky 0%nat j) = true)
    as Hprev.
  { intros [|[|j]] Hj; [reflexivity|reflexivity|lia]. }
  destruct (withRetry_fail_fast_and_backoff Examples.flaky 0%nat 2
              ltac:(unfold GitHub.DEFAULT_MAX_RETRIES; lia) Hprev)
    as (_ & Hres & _).
  exact (Hres "sha-3" eq_refl).
Defined.



Module ConflictFacts.
Import GitHub.

Section Save.
Context {W : Type}.
Variable put : Request → W → attempt Response * W.
Variables (date markdown : string) (sha : option string).

Local Abbreviation req := (save_request date markdown sha).
Local Abbreviation fn :=
  (putFile put (path req) markdown (body_message req) sha).

Lemma saveEntry_unfold (w : W) :
  saveEntry put date markdown sha w = withRetry fn DEFAULT_MAX_RETRIES w.
Proof. reflexivity. Qed.

(** [putFile] moves the world exactly as its request does. *)
Lemma putFile_world (w : W) : (fn w).2 = (put req w).2.
Proof.
  unfold putFile. change {| path := _; body_message := _; body_content := _;
                            body_sha := _ |} with req.
  destruct (put req w) as [[response|e] w']; [|done].
  by destruct (negb (ok response)).
Qed.

Lemma putFile_world_after (k : nat) : ∀ w,
  world_after fn w k = world_after (put req) w k.
Proof.
  induction k as [|k IH]; intros w; [done|].
  cbn [world_after]. by rewrite putFile_world, IH.
Qed.

(** An answer 409 is thrown by [putFile] as the Conflict error. *)
Lemma putFile_conflict (w : W) (k : nat) :
  answers_conflict put req w k → nth_attempt fn w k = Rejected conflict.
Proof.
  intros (response & Hresp & Hstatus).
  unfold nth_attempt in *. rewrite putFile_world_after.
  unfold putFile. change {| path := _; body_message := _; body_content := _;
                            body_sha := _ |} with req.
  destruct (put req (world_after (put req) w k)) as [[r|e] w'];
    cbn [fst] in Hresp; [|done].
  injection Hresp as ->.
  unfold ok. rewrite Hstatus. reflexivity.
Qed.

End Save.

(** The sample store answers a write whose token is stale with 409 at every
    call, keeps its files as they were and logs each request. *)
Lemma remote_put_stale (token : string → string) (request : Request)
    (k : nat) : ∀ r : Examples.Remote,
  body_sha request ≠ snd <$> (Examples.files r !! path request) →
  answers_conflict (Examples.remote_put token) request r k
  ∧ Examples.files (world_after (Examples.remote_put token request) r (S k))
    = Examples.files r
  ∧ length (Examples.received
              (world_after (Examples.remote_put token request) r (S k)))
    = (length (Examples.received r) + S k)%nat.
Proof.
  assert (∀ r : Examples.Remote,
            body_sha request ≠ snd <$> (Examples.files r !! path request) →
            Examples.remote_put token request r
            = (Resolved {| resp_status := 409; resp_sha := "" |},
               {| Examples.files := Examples.files r;
                  Examples.received := (Examples.received r ++ [request])%list |}))
    as Hone.
  { intros r Hstale. unfold Examples.remote_put.
    by rewrite bool_decide_eq_false_2. }
  induction k as [|k IH]; intros r Hstale.
  - unfold answers_conflict, nth_attempt. cbn [world_after].
    rewrite (Hone r Hstale). cbn.
    split; [by eexists|]. split; [done|]. rewrite length_app. simpl. lia.
  - assert (body_sha request
            ≠ snd <$> (Examples.files (Examples.remote_put token request r).2
                         !! path request)) as Hnext
      by (by rewrite (Hone r Hstale)).
    destruct (IH _ Hnext) as ((response & Hresp & Hstatus) & Hfiles & Hlog).
    unfold answers_conflict, nth_attempt in *.
    change (world_after (Examples.remote_put token request) r (S (S k)))
      with (world_after (Examples.remote_put token request)
              (Examples.remote_put token request r).2 (S k)).
    change (world_after (Examples.remote_put token request) r (S k))
      with (world_after (Examples.remote_put token request)
              (Examples.remote_put token request r).2 k).
    rewrite (Hone r Hstale) in *. cbn [snd] in *.
    split; [by exists response|]. split; [exact Hfiles|].
    rewrite Hlog. cbn [Examples.received]. rewrite length_app. simpl. lia.
Qed.

End ConflictFacts.

(** C2, counterexample.  The remote store holds the entry at token "v2"; a
    write that supplies the stale token "v1" is sent three times by the
    retry wrapper, with waits of 1000, 2000 and 4000 ms, before the
    Conflict is thrown: the store received three requests, not one. *)
Lemma stale_conflict_is_retried :
  let run :=
    GitHub.saveEntry (Examples.remote_put Examples.token)
      "2025-01-01" "local text" (Some "v1") Examples.remote0 in
  GitHub.result run = GitHub.Throw (Some GitHub.conflict)
  ∧ GitHub.attempts run = 3%nat
  ∧ GitHub.attempts run ≠ 1%nat
  ∧ GitHub.delays run = [1000; 2000; 4000]
  ∧ length (Examples.received (GitHub.world run)) = 3%nat
  ∧ Examples.files (GitHub.world run) = Examples.files Examples.remote0.
Proof. vm_compute. repeat split; (reflexivity || discriminate). Qed.

(** C2, as amended.  For every remote store, every world and every write of
    an entry through [saveEntry]: when the store answers the write with 409,
    the answer to a version token that is stale, at each attempt, the write
    never succeeds: it ends by throwing the Conflict error, whose status 409
    and message set it apart from the other failures of [putFile].  The
    retry wrapper fails fast on 401, 403 and 404 only, so it retries the
    Conflict like any other failure: three attempts, each one a request to
    the store, after waits of 1000, 2000 and 4000 ms. *)
Theorem stale_write_surfaces_conflict {W : Type}
    (put : GitHub.Request → W → GitHub.attempt GitHub.Response * W)
    (date markdown : string) (sha : option string) (w : W)
    (Hstale : ∀ k, (k < GitHub.DEFAULT_MAX_RETRIES)%nat →
                GitHub.answers_conflict put
                  (GitHub.save_request date markdown sha) w k) :
  let run := GitHub.saveEntry put date markdown sha w in
  GitHub.result run = GitHub.Throw (Some GitHub.conflict)
  ∧ GitHub.status GitHub.conflict = Some 409
  ∧ GitHub.message GitHub.conflict ≠ "Failed to save file"
  ∧ GitHub.fail_fast GitHub.conflict = false
  ∧ GitHub.attempts run = 3%nat
  ∧ GitHub.delays run = [1000; 2000; 4000]
  ∧ GitHub.world run
    = GitHub.world_after (put (GitHub.save_request date markdown sha)) w 3.
Proof.
  cbn zeta. rewrite ConflictFacts.saveEntry_unfold.
  rewrite RetryFacts.withRetry_exhausted.
  2:{ intros j Hj.
      rewrite (ConflictFacts.putFile_conflict put date markdown sha w j)
        by (by apply Hstale).
      reflexivity. }
  cbn [GitHub.result GitHub.attempts GitHub.delays GitHub.world].
  unfold GitHub.DEFAULT_MAX_RETRIES in *.
  repeat apply conj; try reflexivity.
  - unfold GitHub.last_error.
    rewrite (ConflictFacts.putFile_conflict put date markdown sha w 2)
      by (apply Hstale; lia).
    reflexivity.
  - discriminate.
  - apply ConflictFacts.putFile_world_after.
Qed.

(** C2, an instance: the stale write of the counterexample. *)
Lemma stale_write_surfaces_conflict_witness :
  GitHub.result
    (GitHub.saveEntry (Examples.remote_put Examples.token)
       "2025-01-01" "local text" (Some "v1") Examples.remote0)
  = GitHub.Throw (Some GitHub.conflict)
  ∧ GitHub.attempts
      (GitHub.saveEntry (Examples.remote_put Examples.token)
         "2025-01-01" "local text" (Some "v1") Examples.remote0)
    = 3%nat.
Proof.
  assert (∀ k, (k < GitHub.DEFAULT_MAX_RETRIES)%nat →
            GitHub.answers_conflict (Examples.remote_put Examples.token)
              (GitHub.save_request "2025-01-01" "local text" (Some "v1"))
              Examples.remote0 k) as Hstale.
  { unfold GitHub.DEFAULT_MAX_RETRIES. intros [|[|[|k]]] Hk; [| | |lia];
      (exists {| GitHub.resp_status := 409; GitHub.resp_sha := "" |};
       split; [by vm_compute|reflexivity]). }
  destruct (stale_write_surfaces_conflict (Examples.remote_put Examples.token)
              "2025-01-01" "local text" (Some "v1") Examples.remote0 Hstale)
    as (Hres & _ & _ & _ & Hatt & _).
  split; [exact Hres|exact Hatt].
Defined.


(* ===================================================================== *)
(** * Queue and sync state (storage.js, app.js) *)
(* ===================================================================== *)

(** C3, counterexample.  [saveEntry] of storage.js is a mutation path that
    writes the sync state and leaves the queue alone: after this one save
    on the empty store, the record of the date is pending and the date is
    not in the pending queue.  This is the state [saveCurrentEntry] leaves
    the cache in while its remote write is in flight, and the state in which
    the import leaves each entry it takes. *)
Lemma saveEntry_alone_breaks_queue :
  let s := Storage.saveEntry Storage.empty "2025-01-01" Examples.unsynced_text 0 in
  (∃ r, Storage.getEntry s "2025-01-01" = Some r ∧ Storage.synced r = false)
  ∧ ("2025-01-01" ∉ Storage.getPending s)
  ∧ ¬ Storage.queue_ok s "2025-01-01".
Proof.
  cbn zeta.
  assert (Storage.pending_record
            (Storage.saveEntry Storage.empty "2025-01-01" Examples.unsynced_text 0)
            "2025-01-01") as Hrec.
  { eexists. split; [vm_compute; reflexivity|reflexivity]. }
  assert ("2025-01-01"
          ∉ Storage.getPending
              (Storage.saveEntry Storage.empty "2025-01-01"
                 Examples.unsynced_text 0)) as Hq.
  { rewrite (saveEntry_pending Storage.empty). apply not_elem_of_nil. }
  split; [exact Hrec|]. split; [exact Hq|].
  intros Hok. apply Hq, Hok, Hrec.
Qed.

Module QueueFacts.
Import Storage.

Lemma markPending_entries s date :
  entries (markPending s date)
  = match entries s !! date with
    | Some r => <[date := unsync r]> (entries s)
    | None => entries s
    end.
Proof.
  unfold markPending, addPending, getEntries, getPending.
  destruct (entries s !! date); simpl; by destruct (negb _).
Qed.

Lemma markPending_pending s date d :
  d ∈ pending (markPending s date) ↔ d ∈ pending s ∨ d = date.
Proof.
  unfold markPending, addPending, getEntries, getPending.
  assert (∀ s', pending s' = pending s →
            d ∈ pending (if negb (includes_date date (pending s'))
                         then set_pending s' (pending s' ++ [date])
                         else s')
            ↔ d ∈ pending s ∨ d = date) as Hadd.
  { intros s' Hs'. destruct (includes_date date (pending s')) eqn:Hin; simpl.
    - apply includes_date_true in Hin. rewrite Hs' in *. split; [tauto|].
      intros [?| ->]; done.
    - rewrite Hs', elem_of_app, list_elem_of_singleton. tauto. }
  destruct (entries s !! date); apply Hadd; done.
Qed.

Lemma markSynced_entries s date sha' t :
  entries (markSynced s date sha' t)
  = match entries s !! date with
    | Some r =>
        <[date := {| markdown := markdown r; sha := Some sha';
                     synced := true; updatedAt := updatedAt r;
                     syncedAt := Some t |}]> (entries s)
    | None => entries s
    end.
Proof.
  unfold markSynced, removePending, getEntries, getPending.
  by destruct (entries s !! date).
Qed.

Lemma markSynced_pending s date sha' t d :
  d ∈ pending (markSynced s date sha' t) ↔ d ∈ pending s ∧ d ≠ date.
Proof.
  unfold markSynced, removePending, getEntries, getPending.
  destruct (entries s !! date); simpl; apply elem_of_without.
Qed.

Lemma markSynced_ok s date sha' t d :
  (d ≠ date → queue_ok s d) → queue_ok (markSynced s date sha' t) d.
Proof.
  intros Hd. unfold queue_ok, pending_record, getPending, getEntry,
    getEntries in *.
  rewrite markSynced_pending, markSynced_entries.
  destruct (decide (d = date)) as [->|Hne].
  - split; [tauto|]. intros (r' & Hr' & Hs).
    destruct (entries s !! date) as [r|] eqn:Hr.
    + rewrite lookup_insert_eq in Hr'. by injection Hr' as <-.
    + congruence.
  - destruct (entries s !! date) as [r|] eqn:Hr.
    + rewrite lookup_insert_ne by done. rewrite <- (Hd Hne). tauto.
    + rewrite <- (Hd Hne). tauto.
Qed.

Lemma markPending_ok s date d :
  (d ≠ date → queue_ok s d) →
  (d = date → is_Some (getEntry s date)) →
  queue_ok (markPending s date) d.
Proof.
  intros Hd Hex. unfold queue_ok, pending_record, getPending, getEntry,
    getEntries in *.
  rewrite markPending_pending, markPending_entries.
  destruct (decide (d = date)) as [->|Hne].
  - destruct (Hex eq_refl) as [r Hr]. rewrite Hr, lookup_insert_eq.
    split; [|tauto]. intros _. by exists (unsync r).
  - destruct (entries s !! date) as [r|] eqn:Hr.
    + rewrite lookup_insert_ne by done. rewrite <- (Hd Hne). tauto.
    + rewrite <- (Hd Hne). tauto.
Qed.

Lemma markSynced_usable s date sha' t :
  unsynced_usable s → unsynced_usable (markSynced s date sha' t).
Proof.
  intros Hu d r. unfold getEntry, getEntries.
  rewrite markSynced_entries.
  destruct (entries s !! date) as [r0|] eqn:Hr; [|apply Hu].
  destruct (decide (d = date)) as [->|Hne].
  - rewrite lookup_insert_eq. by intros [= <-].
  - rewrite lookup_insert_ne by done. apply Hu.
Qed.

Lemma markPending_usable s date :
  (∀ r, getEntry s date = Some r → usable r) →
  unsynced_usable s → unsynced_usable (markPending s date).
Proof.
  intros Hdate Hu d r. unfold getEntry, getEntries in *.
  rewrite markPending_entries.
  destruct (entries s !! date) as [r0|] eqn:Hr; [|apply Hu].
  destruct (decide (d = date)) as [->|Hne].
  - rewrite lookup_insert_eq. intros [= <-] _. exact (Hdate r0 eq_refl).
  - rewrite lookup_insert_ne by done. apply Hu.
Qed.

Lemma queue_ok_ext s s' d :
  entries s' = entries s → pending s' = pending s →
  queue_ok s' d ↔ queue_ok s d.
Proof.
  unfold queue_ok, pending_record, getPending, getEntry, getEntries.
  by intros -> ->.
Qed.

Lemma unsynced_usable_ext s s' :
  entries s' = entries s → unsynced_usable s' ↔ unsynced_usable s.
Proof. unfold unsynced_usable, getEntry, getEntries. by intros ->. Qed.

Lemma consistent_weaken s date : consistent s → consistent_but s date.
Proof. intros [Hq Hu]. split; [intros d _; apply Hq|exact Hu]. Qed.

Lemma consistent_empty : consistent Storage.empty.
Proof.
  split.
  - intros d. unfold queue_ok, pending_record, getPending, getEntry,
      getEntries. simpl. split.
    + intros H. by apply not_elem_of_nil in H.
    + intros (r & Hr & _). by rewrite lookup_empty in Hr.
  - intros d r Hr. unfold getEntry, getEntries in Hr. simpl in Hr.
    by rewrite lookup_empty in Hr.
Qed.

(** Writing a record: the other dates keep their agreement. *)
Lemma saveEntry_but s date data t :
  consistent_but s date →
  (data_synced data = false →
   ∃ md, data_markdown data = Some md ∧ md ≠ "") →
  consistent_but (saveEntry s date data t) date.
Proof.
  intros [Hq Hu] Hdata. split.
  - intros d Hne. specialize (Hq d Hne).
    unfold queue_ok, pending_record, getPending, getEntry, getEntries in *.
    rewrite saveEntry_pending, saveEntry_entries.
    by rewrite lookup_insert_ne.
  - intros d r. unfold getEntry, getEntries.
    rewrite saveEntry_entries.
    destruct (decide (d = date)) as [->|Hne].
    + rewrite lookup_insert_eq. intros [= <-] Hs. exact (Hdata Hs).
    + rewrite lookup_insert_ne by done. apply Hu.
Qed.

Section AppFacts.
Context {W : Type}.
Variable put : GitHub.Request → W → GitHub.attempt GitHub.Response * W.
Variable get : string → W → GitHub.attempt GitHub.FileResponse * W.
Variable isOnline : W → bool.
Variable now : W → Z.

Lemma request_Some s date md sha' :
  App.syncEntry_request s date = Some (md, sha') →
  ∃ r, getEntry s date = Some r ∧ markdown r = Some md ∧ md ≠ "".
Proof.
  unfold App.syncEntry_request.
  destruct (getEntry s date) as [r|]; [|done].
  destruct (markdown r) as [md'|] eqn:Hmd; [|done].
  destruct (String.eqb md' "") eqn:He; [done|].
  intros [= <- <-]. exists r. repeat split; [done|].
  by apply String.eqb_neq.
Qed.

(** The settling of [syncEntry] brings the date in line. *)
Lemma settle_consistent s date res t :
  consistent_but s date →
  (∃ r, getEntry s date = Some r ∧ usable r) →
  consistent (App.syncEntry_settle s date res t).
Proof.
  intros [Hq Hu] (r & Hr & Hus).
  destruct res as [sha'|e]; simpl.
  - split.
    + intros d. apply markSynced_ok. intros Hne. by apply Hq.
    + by apply markSynced_usable.
  - split.
    + intros d. apply markPending_ok.
      * intros Hne. by apply Hq.
      * intros _. by exists r.
    + apply markPending_usable; [|done].
      intros r'. rewrite Hr. by intros [= <-].
Qed.

Lemma syncEntry_restores (st : App.State) date :
  consistent_but (App.store st) date →
  App.syncEntry_request (App.store st) date ≠ None →
  consistent (App.store (App.syncEntry put now st date)).
Proof.
  intros Hc Hreq. unfold App.syncEntry.
  destruct (App.syncEntry_request (App.store st) date) as [[md sha']|]
    eqn:Hr; [|done].
  simpl. apply settle_consistent; [done|].
  destruct (request_Some _ _ _ _ Hr) as (r & Hget & Hmd & Hne).
  exists r. split; [done|]. by exists md.
Qed.

Lemma syncEntry_consistent (st : App.State) date :
  consistent (App.store st) →
  consistent (App.store (App.syncEntry put now st date)).
Proof.
  intros Hc.
  destruct (App.syncEntry_request (App.store st) date) eqn:Hr.
  - apply syncEntry_restores; [by apply consistent_weaken|].
    by rewrite Hr.
  - unfold App.syncEntry. by rewrite Hr.
Qed.

Lemma toMarkdown_nonempty e : Journal.toMarkdown e ≠ "".
Proof. unfold Journal.toMarkdown. simpl. discriminate. Qed.

Lemma saveCurrentEntry_consistent (st : App.State) form :
  consistent (App.store st) →
  consistent (App.store (App.saveCurrentEntry put isOnline now st form)).
Proof.
  intros Hc. unfold App.saveCurrentEntry.
  destruct (negb (Journal.validateEntry (Some (App.getFormData st form))).1);
    [done|].
  set (md := Journal.toMarkdown (App.getFormData st form)).
  set (data := {| data_markdown := Some md; data_sha := _;
                  data_synced := false |}).
  set (s1 := saveEntry (App.store st) (App.currentDate st) data
               (now (App.env st))).
  assert (consistent_but s1 (App.currentDate st)) as H1.
  { apply saveEntry_but; [by apply consistent_weaken|].
    intros _. exists md. split; [done|apply toMarkdown_nonempty]. }
  assert (∃ r, getEntry s1 (App.currentDate st) = Some r
               ∧ markdown r = Some md) as (r1 & Hr1 & Hmd1).
  { eexists. unfold getEntry, getEntries. subst s1.
    rewrite saveEntry_entries, lookup_insert_eq. done. }
  pose proof (addDate_entries (App.idx st) s1 (App.currentDate st)) as He.
  pose proof (addDate_pending (App.idx st) s1 (App.currentDate st)) as Hp.
  destruct (Index.addDate (App.idx st) s1 (App.currentDate st))
    as [i s2]. simpl in He, Hp.
  assert (consistent_but s2 (App.currentDate st)) as H2.
  { destruct H1 as [Hq Hu]. split.
    - intros d Hne. apply (queue_ok_ext s1 s2 d He Hp). by apply Hq.
    - by apply (unsynced_usable_ext s1 s2 He). }
  assert (getEntry s2 (App.currentDate st) = Some r1) as Hr2.
  { unfold getEntry, getEntries in *. by rewrite He. }
  simpl.
  destruct (isOnline (App.env st)).
  - apply syncEntry_restores; [done|]. simpl.
    unfold App.syncEntry_request. rewrite Hr2, Hmd1.
    destruct (String.eqb md "") eqn:Hemp; [|done].
    apply String.eqb_eq in Hemp. by apply toMarkdown_nonempty in Hemp.
  - simpl. destruct H2 as [Hq Hu]. split.
    + intros d. apply markPending_ok.
      * intros Hne. by apply Hq.
      * intros _. by exists r1.
    + apply markPending_usable; [|done].
      intros r'. rewrite Hr2. intros [= <-]. exists md.
      split; [done|apply toMarkdown_nonempty].
Qed.

Lemma fold_syncEntry_consistent dates : ∀ st : App.State,
  consistent (App.store st) →
  consistent (App.store (fold_left (App.syncEntry put now) dates st)).
Proof.
  induction dates as [|d dates IH]; intros st Hc; [done|].
  simpl. apply IH. by apply syncEntry_consistent.
Qed.

Lemma syncPendingEntries_consistent (st : App.State) :
  consistent (App.store st) →
  consistent (App.store (App.syncPendingEntries put isOnline now st)).
Proof.
  intros Hc. unfold App.syncPendingEntries.
  destruct (App.syncInProgress st || negb (isOnline (App.env st)));
    [done|].
  destruct (length (getPending (App.store st)) =? 0)%nat; [done|].
  simpl. by apply fold_syncEntry_consistent.
Qed.

Lemma loadEntry_consistent (st : App.State) date :
  consistent (App.store st) →
  consistent (App.store (App.loadEntry get isOnline now st date)).
Proof.
  intros Hc. unfold App.loadEntry.
  destruct (match getEntry (App.store st) date ≫= markdown with
            | Some md => negb (String.eqb md "")
            | None => false
            end) eqn:Huse; [done|].
  destruct (isOnline (App.env st)); [|done].
  destruct (GitHub.result (GitHub.getEntry get date (App.env st)))
    as [[[content sha']|]|e]; [|done|done].
  simpl.
  assert (date ∉ getPending (App.store st)) as Hnotq.
  { intros Hin. destruct Hc as [Hq Hu].
    apply Hq in Hin as (r & Hr & Hs).
    destruct (Hu date r Hr Hs) as (md & Hmd & Hne).
    rewrite Hr in Huse. simpl in Huse. rewrite Hmd in Huse.
    apply negb_false_iff, String.eqb_eq in Huse. done. }
  pose proof (saveEntry_but (App.store st) date
                {| data_markdown := Some content; data_sha := Some sha';
                   data_synced := true |}
                (now (GitHub.world (GitHub.getEntry get date (App.env st))))
                (consistent_weaken _ date Hc)
                ltac:(simpl; discriminate)) as [Hq Hu].
  split; [|exact Hu].
  intros d. destruct (decide (d = date)) as [->|Hne]; [|by apply Hq].
  unfold queue_ok, pending_record, getPending, getEntry, getEntries.
  rewrite saveEntry_pending, saveEntry_entries, lookup_insert_eq.
  split; [done|]. by intros (r & [= <-] & Hs).
Qed.

Lemma apply_consistent (st : App.State) op :
  consistent (App.store st) →
  consistent (App.store (App.apply put get isOnline now st op)).
Proof.
  intros Hc. destruct op as [date|form| | |w]; simpl.
  - by apply (loadEntry_consistent (App.with_date st date)).
  - by apply saveCurrentEntry_consistent.
  - by apply syncPendingEntries_consistent.
  - unfold App.checkPendingSync.
    destruct (isOnline (App.env st)); [|done].
    by apply syncPendingEntries_consistent.
  - done.
Qed.

Lemma run_ops_consistent ops : ∀ st : App.State,
  consistent (App.store st) →
  consistent (App.store (App.run_ops put get isOnline now st ops)).
Proof.
  induction ops as [|op ops IH]; intros st Hc; [done|].
  simpl. apply IH. by apply apply_consistent.
Qed.

End AppFacts.

End QueueFacts.

(** C3, as amended.  For every sequence of completed operations of the
    coordinator (loading a date, saving the form, draining the pending
    queue, the periodic check) and moves of the world around them,
    whatever the remote store answers and whether the client is online or
    not, starting from the empty cache: after the sequence a date is in the
    pending queue if and only if the cache holds a record for it whose
    [synced] flag is false.  The agreement is one of completed operations:
    [saveEntry] of storage.js writes the flag and leaves the queue alone,
    and the [markPending] or [markSynced] that follows it in
    [saveCurrentEntry] brings the queue in line. *)
Theorem queue_matches_sync_state {W : Type}
    (put : GitHub.Request → W → GitHub.attempt GitHub.Response * W)
    (get : string → W → GitHub.attempt GitHub.FileResponse * W)
    (isOnline : W → bool) (now : W → Z)
    (st : App.State) (ops : list App.Op) (date : string)
    (Hempty : App.store st = Storage.empty) :
  date ∈ Storage.getPending (App.store (App.run_ops put get isOnline now st ops))
  ↔ ∃ r, Storage.getEntry
           (App.store (App.run_ops put get isOnline now st ops)) date = Some r
         ∧ Storage.synced r = false.
Proof.
  assert (Storage.consistent (App.store st)) as Hc
    by (rewrite Hempty; apply QueueFacts.consistent_empty).
  destruct (QueueFacts.run_ops_consistent put get isOnline now ops st Hc)
    as [Hq _].
  exact (Hq date).
Qed.

(** C3, an instance: a save made offline, from the empty cache. *)
Lemma queue_matches_sync_state_witness :
  "2025-01-01"
  ∈ Storage.getPending
      (App.store
         (App.run_ops (Examples.remote_put Examples.token) Examples.no_file
            Examples.offline Examples.midnight Examples.fresh_app
            [App.Save (Journal.createEntry "2025-01-01")]))
  ↔ ∃ r, Storage.getEntry
           (App.store
              (App.run_ops (Examples.remote_put Examples.token) Examples.no_file
                 Examples.offline Examples.midnight Examples.fresh_app
                 [App.Save (Journal.createEntry "2025-01-01")]))
           "2025-01-01" = Some r
         ∧ Storage.synced r = false.
Proof.
  apply (queue_matches_sync_state (Examples.remote_put Examples.token)
           Examples.no_file Examples.offline Examples.midnight
           Examples.fresh_app [App.Save (Journal.createEntry "2025-01-01")]
           "2025-01-01").
  reflexivity.
Defined.

(* ===================================================================== *)
(** * The drain of the pending queue (app.js) *)
(* ===================================================================== *)

Module DrainFacts.

Section Drain.
Context {W : Type}.
Variable put : GitHub.Request → W → GitHub.attempt GitHub.Response * W.
Variable isOnline : W → bool.
Variable now : W → Z.

Local Abbreviation single_flight := (@App.single_flight W).

Lemma drain_next_flag (st : @App.State W) dates :
  match App.drain_next st dates with
  | (st', Some _) => App.syncInProgress st' = App.syncInProgress st
  | (st', None) => App.syncInProgress st' = false
  end.
Proof. by destruct dates. Qed.

Lemma call_when_busy (st : @App.State W) :
  App.syncInProgress st = true →
  App.syncPendingEntries_call isOnline st = (st, None).
Proof. intros Hb. unfold App.syncPendingEntries_call. by rewrite Hb. Qed.

Lemma call_when_idle (st : @App.State W) :
  App.syncInProgress st = false →
  match App.syncPendingEntries_call isOnline st with
  | (st', Some _) => App.syncInProgress st' = true
  | (st', None) => st' = st
  end.
Proof.
  intros Hi. unfold App.syncPendingEntries_call. rewrite Hi. simpl.
  destruct (negb (isOnline (App.env st))); [done|].
  destruct (Storage.getPending (App.store st)) as [|d ds]; [done|].
  done.
Qed.

Lemma resume_flag (st : @App.State W) d :
  match App.drain_resume put now st d with
  | (st', Some _) => App.syncInProgress st' = App.syncInProgress st
  | (st', None) => App.syncInProgress st' = false
  end.
Proof.
  unfold App.drain_resume.
  set (st1 := match App.request d with
              | Some (md, sha') => _
              | None => st
              end).
  assert (App.syncInProgress st1 = App.syncInProgress st) as <-.
  { subst st1. by destruct (App.request d) as [[md sha']|]. }
  apply drain_next_flag.
Qed.

Lemma step_single_flight (m : @App.Machine W) ev :
  single_flight m → single_flight (App.step put isOnline now m ev).
Proof.
  intros [[Hd Hf]|(d & Hd & Hf)]; destruct ev as [|k|s i date dirty w];
    simpl.
  - pose proof (call_when_idle (App.app m) Hf) as Hcall.
    destruct (App.syncPendingEntries_call isOnline (App.app m))
      as [st' [d'|]].
    + right. exists d'. simpl. by rewrite Hd.
    + left. simpl. by subst st'.
  - rewrite Hd. simpl. by left.
  - left. done.
  - rewrite (call_when_busy _ Hf). right. by exists d.
  - rewrite Hd. destruct k as [|k]; simpl; [|right; by exists d].
    pose proof (resume_flag (App.app m) d) as Hres.
    destruct (App.drain_resume put now (App.app m) d) as [st' [d'|]].
    + right. exists d'. simpl. split; [done|congruence].
    + left. done.
  - right. by exists d.
Qed.

Lemma run_single_flight evs : ∀ m : @App.Machine W,
  single_flight m → single_flight (App.run put isOnline now m evs).
Proof.
  induction evs as [|ev evs IH]; intros m Hm; [done|].
  simpl. apply IH. by apply step_single_flight.
Qed.

End Drain.

End DrainFacts.

(** C8.  In every interleaving of triggers (the periodic timer, the online
    event, a direct call), resumptions of a suspended drain and other
    handlers, starting with no drain in flight: at most one drain of the
    pending queue is suspended at any time, the flag [syncInProgress] is up
    exactly while one is, and a call of [syncPendingEntries] made while a
    drain is in flight returns at once: it changes nothing in the cache,
    sends nothing and starts no second drain. *)
Theorem one_drain_at_a_time {W : Type}
    (put : GitHub.Request → W → GitHub.attempt GitHub.Response * W)
    (isOnline : W → bool) (now : W → Z)
    (st : @App.State W) (evs : list App.Event)
    (Hidle : App.syncInProgress st = false) :
  let m := App.run put isOnline now {| App.app := st; App.drains := [] |} evs in
  (length (App.drains m) ≤ 1)%nat
  ∧ App.syncInProgress (App.app m) = bool_decide (App.drains m ≠ [])
  ∧ (App.drains m ≠ [] →
     App.syncPendingEntries_call isOnline (App.app m) = (App.app m, None)
     ∧ App.step put isOnline now m App.Trigger = m).
Proof.
  cbn zeta.
  assert (App.single_flight (W:=W) {| App.app := st; App.drains := [] |})
    as H0 by (by left).
  pose proof (DrainFacts.run_single_flight put isOnline now evs _ H0) as Hm.
  destruct Hm as [[Hd Hf]|(d & Hd & Hf)]; rewrite Hd, Hf.
  - split; [simpl; lia|]. split; [done|]. by intros [].
  - split; [simpl; lia|]. split; [done|]. intros _.
    pose proof (DrainFacts.call_when_busy isOnline _ Hf) as Hcall.
    split; [exact Hcall|].
    unfold App.step. rewrite Hcall.
    by destruct (App.run put isOnline now _ evs).
Qed.

(** C8, an instance: two triggers in a row, online, with one date queued. *)
Lemma one_drain_at_a_time_witness :
  let st :=
    {| App.store :=
         Storage.markPending
           (Storage.saveEntry Storage.empty "2025-01-01"
              Examples.unsynced_text 0) "2025-01-01";
       App.idx := Index.init Storage.empty;
       App.currentDate := "2025-01-01";
       App.isDirty := false;
       App.syncInProgress := false;
       App.env := Examples.remote0 |} in
  let m :=
    App.run (Examples.remote_put Examples.token) Examples.online
      Examples.midnight {| App.app := st; App.drains := [] |}
      [App.Trigger; App.Trigger] in
  (length (App.drains m) ≤ 1)%nat
  ∧ App.syncInProgress (App.app m) = bool_decide (App.drains m ≠ [])
  ∧ (App.drains m ≠ [] →
     App.syncPendingEntries_call Examples.online (App.app m) = (App.app m, None)
     ∧ App.step (Examples.remote_put Examples.token) Examples.online
         Examples.midnight m App.Trigger = m).
Proof.
  intros st m.
  exact (one_drain_at_a_time (Examples.remote_put Examples.token) Examples.online
           Examples.midnight st [App.Trigger; App.Trigger] eq_refl).
Defined.

(* ===================================================================== *)
(** * Validation (journal.js) *)
(* ===================================================================== *)

Module ValidateFacts.
Import Journal.

Lemma check_score_spec e errors f :
  check_score e errors f
  = if bad_score (get e f) then (errors ++ [score_error f])%list else errors.
Proof.
  unfold check_score, bad_score.
  destruct (negb (is_undefined (get e f))); [|done].
  by destruct (isNaN (ToNumber (get e f)) || lt (ToNumber (get e f)) (Fin 0)
               || lt (Fin 10) (ToNumber (get e f))).
Qed.

Lemma fold_check_score e fields : ∀ errors,
  fold_left (check_score e) fields errors
  = (errors
     ++ (score_error <$> List.filter (λ f, bad_score (get e f)) fields))%list.
Proof.
  induction fields as [|f fields IH]; intros errors; simpl.
  { by rewrite app_nil_r. }
  rewrite IH, check_score_spec.
  destruct (bad_score (get e f)); simpl; [|done].
  by rewrite <- app_assoc.
Qed.

Lemma validateEntry_violations e :
  validateEntry (Some e)
  = ((length (violations e) =? 0)%nat, violations e).
Proof.
  unfold validateEntry, violations. rewrite fold_check_score.
  fold (bad_date e). fold (bad_net_worth (net_worth_delta e)).
  destruct (bad_date e), (bad_net_worth (net_worth_delta e)); simpl;
    rewrite ?app_nil_r, <- ?app_assoc; reflexivity.
Qed.







End ValidateFacts.



(* ===================================================================== *)
(** * Strings: lines, joining, trimming, numerals *)
(* ===================================================================== *)

Module StringFacts.

Lemma append_nil_r (s : string) : s +:+ "" = s.
Proof. induction s as [|c s IH]; simpl; [done|by rewrite IH]. Qed.

Lemma append_assoc (a b c : string) : (a +:+ b) +:+ c = a +:+ (b +:+ c).
Proof. induction a as [|x a IH]; simpl; [done|by rewrite IH]. Qed.



(** ** Lines *)

Lemma split_lines_nonnil s : split_lines s ≠ [].
Proof.
  induction s as [|c s IH]; simpl; [done|].
  destruct (Ascii.eqb c LF); [done|].
  destruct (split_lines s) as [|l ls]; [done|].
  destruct (Ascii.eqb c CR); [|done].
  destruct s as [|c' s']; [done|].
  by destruct (Ascii.eqb c' LF).
Qed.

(** A character that is neither LF nor CR joins the first line of what
    follows. *)
Lemma split_lines_cons c s :
  Ascii.eqb c LF = false → Ascii.eqb c CR = false →
  ∃ l ls, split_lines s = l :: ls ∧ split_lines (String c s) = String c l :: ls.
Proof.
  intros Hlf Hcr. simpl. rewrite Hlf, Hcr.
  pose proof (split_lines_nonnil s) as Hn.
  destruct (split_lines s) as [|l ls]; [done|]. by exists l, ls.
Qed.

Lemma split_lines_one_line l r :
  one_line l = true →
  split_lines (l +:+ String LF r) = l :: split_lines r.
Proof.
  unfold one_line. induction l as [|c l IH]; simpl; [done|].
  intros [[Hlf Hcr]%andb_true_iff Hl]%andb_true_iff.
  apply negb_true_iff in Hlf, Hcr. rewrite Hlf, Hcr.
  by rewrite (IH Hl).
Qed.

Lemma split_lines_single l : one_line l = true → split_lines l = [l].
Proof.
  unfold one_line. induction l as [|c l IH]; simpl; [done|].
  intros [[Hlf Hcr]%andb_true_iff Hl]%andb_true_iff.
  apply negb_true_iff in Hlf, Hcr. rewrite Hlf, Hcr.
  by rewrite (IH Hl).
Qed.





(** ** Trimming *)





(** ** Numerals *)












(** ** Dates *)

Lemma eat_digits_S k s r :
  eat_digits (S k) s = Some r →
  ∃ c s', s = String c s' ∧ is_digit c = true ∧ eat_digits k s' = Some r.
Proof.
  simpl. destruct s as [|c s']; [done|].
  destruct (is_digit c) eqn:Hc; [|done]. intros H. by exists c, s'.
Qed.

Lemma eat_char_Some c s r : eat_char c s = Some r → s = String c r.
Proof.
  unfold eat_char. destruct s as [|a s']; [done|].
  destruct (Ascii.eqb a c) eqn:Ha; [|done].
  apply Ascii.eqb_eq in Ha as ->. by intros [= ->].
Qed.

(** A string of the shape of a date: ten characters, digits but for the
    two dashes. *)
Lemma date_pattern_shape d :
  date_pattern d = true →
  ∃ y1 y2 y3 y4 m1 m2 d1 d2,
    d = String y1 (String y2 (String y3 (String y4 (String "-"
           (String m1 (String m2 (String "-"
              (String d1 (String d2 "")))))))))
    ∧ is_digit y1 = true ∧ is_digit y2 = true ∧ is_digit y3 = true
    ∧ is_digit y4 = true ∧ is_digit m1 = true ∧ is_digit m2 = true
    ∧ is_digit d1 = true ∧ is_digit d2 = true.
Proof.
  unfold date_pattern, and_then.
  destruct (eat_digits 4 d) as [r1|] eqn:E1; [|done].
  destruct (eat_char "-" r1) as [r2|] eqn:E2; [|done].
  destruct (eat_digits 2 r2) as [r3|] eqn:E3; [|done].
  destruct (eat_char "-" r3) as [r4|] eqn:E4; [|done].
  destruct (eat_digits 2 r4) as [r5|] eqn:E5; [|done].
  destruct r5; [|done]. intros _.
  apply eat_digits_S in E1 as (y1 & s1 & -> & Hy1 & E1).
  apply eat_digits_S in E1 as (y2 & s2 & -> & Hy2 & E1).
  apply eat_digits_S in E1 as (y3 & s3 & -> & Hy3 & E1).
  apply eat_digits_S in E1 as (y4 & s4 & -> & Hy4 & E1).
  simpl in E1. injection E1 as ->.
  apply eat_char_Some in E2 as ->.
  apply eat_digits_S in E3 as (m1 & s5 & -> & Hm1 & E3).
  apply eat_digits_S in E3 as (m2 & s6 & -> & Hm2 & E3).
  simpl in E3. injection E3 as ->.
  apply eat_char_Some in E4 as ->.
  apply eat_digits_S in E5 as (d1 & s7 & -> & Hd1 & E5).
  apply eat_digits_S in E5 as (d2 & s8 & -> & Hd2 & E5).
  simpl in E5. injection E5 as ->.
  by exists y1, y2, y3, y4, m1, m2, d1, d2.
Qed.




End StringFacts.

(* ===================================================================== *)
(** * The codec (journal.js) *)
(* ===================================================================== *)

Module CodecFacts.
Import Journal StringFacts.

Local Abbreviation NL := (String LF "").

(** ** The fences of the metadata block *)

Lemma closing_not_eol c s :
  Ascii.eqb c LF = false → Ascii.eqb c CR = false →
  closing (String c s) = None.
Proof. intros Hlf Hcr. unfold closing, eol. by rewrite Hlf, Hcr. Qed.

(** The lazy group runs over a line without stopping. *)
Lemma lazy_block_line l X :
  one_line l = true →
  lazy_block (l +:+ X)
  = match lazy_block X with
    | Some (b, r) => Some (l +:+ b, r)
    | None => None
    end.
Proof.
  unfold one_line. induction l as [|c l IH]; intros Hl.
  - simpl. by destruct (lazy_block X) as [[b r]|].
  - simpl in Hl. apply andb_true_iff in Hl as [Hc Hl].
    apply andb_true_iff in Hc as [Hlf Hcr].
    apply negb_true_iff in Hlf, Hcr.
    change (String c l +:+ X) with (String c (l +:+ X)).
    cbn [lazy_block]. rewrite (closing_not_eol c _ Hlf Hcr), (IH Hl).
    by destruct (lazy_block X) as [[b r]|].
Qed.

(** It runs over a line feed that is not followed by three dashes. *)
Lemma lazy_block_LF Z :
  dashes Z = None →
  lazy_block (String LF Z)
  = match lazy_block Z with
    | Some (b, r) => Some (String LF b, r)
    | None => None
    end.
Proof.
  intros HZ. cbn [lazy_block].
  assert (closing (String LF Z) = None) as ->; [|done].
  unfold closing. cbn. by rewrite HZ.
Qed.

Lemma lazy_block_fence rest :
  lazy_block (String LF ("---" +:+ String LF rest)) = Some ("", rest).
Proof. reflexivity. Qed.

Lemma dashes_join ys Y :
  ys ≠ [] →
  Forall (λ l, not_headed "-" l = true) ys →
  dashes (join NL ys +:+ String LF Y) = None.
Proof.
  intros Hne Hys. destruct ys as [|l ys]; [done|].
  apply Forall_cons in Hys as [Hl _].
  destruct l as [|c l].
  - by destruct ys.
  - simpl in Hl. apply negb_true_iff in Hl.
    destruct ys as [|l' ys]; unfold dashes; cbn; by rewrite Hl.
Qed.

Lemma lazy_block_lines ys rest :
  ys ≠ [] →
  Forall (λ l, one_line l = true) ys →
  Forall (λ l, not_headed "-" l = true) ys →
  lazy_block (join NL ys +:+ String LF ("---" +:+ String LF rest))
  = Some (join NL ys, rest).
Proof.
  intros Hne H1 H2. induction ys as [|l ys IH]; [done|].
  apply Forall_cons in H1 as [Hl1 H1]. apply Forall_cons in H2 as [Hl2 H2].
  destruct ys as [|l' ys].
  - cbn [join]. rewrite (lazy_block_line l _ Hl1), lazy_block_fence.
    by rewrite append_nil_r.
  - change (join NL (l :: l' :: ys)) with (l +:+ NL +:+ join NL (l' :: ys)).
    rewrite !append_assoc.
    change (NL +:+ ?Z) with (String LF Z).
    rewrite (lazy_block_line l _ Hl1).
    rewrite lazy_block_LF by (by apply dashes_join).
    by rewrite IH.
Qed.




(** ** The metadata block *)

Lemma split_lines_join_lines ys :
  ys ≠ [] →
  Forall (λ l, one_line l = true) ys →
  split_lines (join NL ys) = ys.
Proof.
  intros Hne Hys. induction ys as [|l ys IH]; [done|].
  apply Forall_cons in Hys as [Hl Hys].
  destruct ys as [|l' ys].
  - by apply split_lines_single.
  - change (join NL (l :: l' :: ys)) with (l +:+ NL +:+ join NL (l' :: ys)).
    change (NL +:+ ?Z) with (String LF Z).
    rewrite (split_lines_one_line l _ Hl). by rewrite IH.
Qed.





(** ** The body *)

Local Abbreviation St := Build_parser.





















(** ** Migration *)

Lemma migrate_loop_current fuel e :
  migrate_loop fuel e (VNum (Fin CURRENT_SCHEMA)) = Some e.
Proof. by destruct fuel. Qed.

(** Counting up from minus infinity never reaches the current schema. *)
Lemma migrate_loop_neg_inf fuel : ∀ e,
  migrate_loop fuel e (VNum NegInf) = None.
Proof.
  induction fuel as [|fuel IH]; intros e; [done|].
  cbn [migrate_loop]. change (lt (ToNumber (VNum NegInf)) (Fin CURRENT_SCHEMA)) with true.
  cbn iota. unfold migrations. rewrite lookup_empty. apply IH.
Qed.


(** From an integer the loop ends within [1 - z] turns. *)
Lemma migrate_loop_integer fuel : ∀ e z,
  (Z.to_nat (CURRENT_SCHEMA - z) ≤ fuel)%nat →
  migrate_loop fuel e (VNum (Fin z)) = Some e.
Proof.
  induction fuel as [|fuel IH]; intros e z Hfuel; cbn [migrate_loop];
    cbn [ToNumber lt]; destruct (Z.ltb_spec z CURRENT_SCHEMA) as [Hlt|Hge];
    unfold CURRENT_SCHEMA in *; try done; try lia.
  unfold migrations. rewrite lookup_empty. apply IH. cbn [ToNumber succ]. lia.
Qed.

End CodecFacts.




(** C10, the failing input.  On the document whose metadata declares the
    schema minus infinity, [fromMarkdown] returns no entry, whatever the
    number of turns allowed to the loop of [migrateEntry]: the version is
    below the current schema, adding one leaves it at minus infinity, and
    the stamp of the schema is never reached. *)
Theorem fromMarkdown_loops_on_minus_infinity (fuel : nat) :
  Journal.fromMarkdown fuel Examples.endless_document = None.
Proof.
  assert (or_else
            (Journal.prop
               (Journal.parseFrontmatter Examples.endless_document).1 "schema")
            (VNum (Fin 1)) = VNum NegInf) as Hschema by (by vm_compute).
  unfold Journal.fromMarkdown.
  destruct (Journal.parseFrontmatter Examples.endless_document)
    as [fm content].
  cbn [fst] in Hschema. unfold Journal.migrateEntry. cbn [Journal.schema].
  rewrite Hschema.
  change (or_else (VNum NegInf) (VNum (Fin 1))) with (VNum NegInf).
  by rewrite CodecFacts.migrate_loop_neg_inf.
Qed.

(** Whenever [fromMarkdown] returns, the schema of the entry is the current
    one, whatever the document declares. *)
Lemma fromMarkdown_stamps_schema (fuel : nat) (markdown : string)
    (e : Journal.Entry) :
  Journal.fromMarkdown fuel markdown = Some e →
  Journal.schema e = VNum (Fin Journal.CURRENT_SCHEMA).
Proof.
  unfold Journal.fromMarkdown.
  destruct (Journal.parseFrontmatter markdown) as [fm content].
  unfold Journal.migrateEntry.
  destruct (Journal.migrate_loop _ _ _) as [e'|]; [|done].
  by intros [= <-].
Qed.

(** And it returns, given enough fuel, on every document that declares no
    schema or declares a safe integer, the numbers on which counting up by
    one is exact. *)
Lemma fromMarkdown_returns (markdown : string) :
  Journal.prop (Journal.parseFrontmatter markdown).1 "schema" = VUndef
  ∨ Journal.integer
      (Journal.prop (Journal.parseFrontmatter markdown).1 "schema") = true →
  ∃ fuel e, Journal.fromMarkdown fuel markdown = Some e
            ∧ Journal.schema e = VNum (Fin Journal.CURRENT_SCHEMA).
Proof.
  intros Hdeclared.
  assert (ToNumber
            (or_else
               (Journal.prop (Journal.parseFrontmatter markdown).1 "schema")
               (VNum (Fin 1))) ≠ NegInf) as Hv.
  { destruct Hdeclared as [-> | Hint]; [done|].
    destruct (Journal.prop _ "schema") as [|[| | |z]|s];
      try discriminate Hint.
    unfold or_else. by destruct (truthy (VNum (Fin z))). }
  clear Hdeclared.
  assert (∀ e v, ToNumber v ≠ NegInf →
            ∃ fuel, Journal.migrate_loop fuel e v = Some e) as Hloop.
  { intros e v Hne. destruct (ToNumber v) as [| | |z] eqn:Hn; [| done | |].
    - exists 0%nat. simpl. by rewrite Hn.
    - exists 0%nat. simpl. by rewrite Hn.
    - destruct (Z.ltb_spec z Journal.CURRENT_SCHEMA) as [Hlt|Hge].
      + exists (S (Z.to_nat (Journal.CURRENT_SCHEMA - (z + 1)))).
        cbn [Journal.migrate_loop]. rewrite Hn. cbn [lt].
        apply Z.ltb_lt in Hlt. rewrite Hlt.
        unfold Journal.migrations. rewrite lookup_empty.
        by apply CodecFacts.migrate_loop_integer.
      + exists 0%nat. simpl. rewrite Hn. cbn [lt].
        apply Z.ltb_ge in Hge. by rewrite Hge. }
  unfold Journal.fromMarkdown.
  destruct (Journal.parseFrontmatter markdown) as [fm content].
  cbn [fst] in Hv. unfold Journal.migrateEntry. cbn [Journal.schema].
  set (v := or_else (Journal.prop fm "schema") (VNum (Fin 1))) in *.
  assert (or_else v (VNum (Fin 1)) = v) as ->.
  { subst v. unfold or_else.
    destruct (truthy (Journal.prop fm "schema")) eqn:Ht; [by rewrite Ht|done]. }
  match goal with
  | |- context [Journal.migrate_loop _ ?e v] =>
      destruct (Hloop e v Hv) as [fuel Hfuel]; exists fuel
  end.
  rewrite Hfuel. eexists. split; reflexivity.
Qed.

(* ===================================================================== *)
(** * Further properties of the cache (storage.js) *)
(* ===================================================================== *)

Module CacheFacts.
Import Storage.

Lemma newest_first_sort (l : list string) : newest_first (sort_descending l).
Proof.
  unfold newest_first, sort_descending.
  apply (Sorted_reverse String.le), Sorted_merge_sort. apply _.
Qed.

Lemma sort_descending_Permutation (l : list string) : sort_descending l ≡ₚ l.
Proof.
  unfold sort_descending. rewrite reverse_Permutation.
  apply merge_sort_Permutation.
Qed.

Local Instance ge_trans : Transitive (λ a b : string, String.le b a).
Proof. intros a b c Hab Hbc. by transitivity b. Qed.

Local Instance ge_antisymm : AntiSymm (=) (λ a b : string, String.le b a).
Proof. intros a b Hab Hba. by apply (anti_symm String.le). Qed.

(** A list that is newest first is the same after sorting again. *)
Lemma sort_descending_fixed (l : list string) :
  newest_first l → sort_descending l = l.
Proof.
  intros Hl.
  apply (Sorted_unique (λ a b : string, String.le b a)).
  - apply newest_first_sort.
  - exact Hl.
  - apply sort_descending_Permutation.
Qed.

Lemma newest_first_filter (P : string → Prop) `{∀ x, Decision (P x)}
    (l : list string) :
  newest_first l → newest_first (filter P l).
Proof.
  unfold newest_first. intros Hl.
  apply Sorted_StronglySorted in Hl; [|apply _].
  apply StronglySorted_Sorted.
  induction Hl as [|x l Hl IH Hx]; [constructor|].
  rewrite filter_cons. destruct (decide (P x)); [|exact IH].
  constructor; [exact IH|].
  rewrite Forall_forall in Hx |- *.
  intros y Hy. apply Hx. by apply list_elem_of_filter in Hy as [_ Hy].
Qed.

Lemma newest_first_without x l : newest_first l → newest_first (without x l).
Proof. apply newest_first_filter. Qed.

Lemma NoDup_without x (l : list string) : NoDup l → NoDup (without x l).
Proof. apply NoDup_filter. Qed.

Lemma pruneCache_frame s keep s' :
  pruneCache s keep = Some s' → pending s' = pending s ∧ index s' = index s.
Proof.
  unfold pruneCache.
  destruct (_ <=? keep); [by intros [= <-]|].
  destruct (fold_left _ _ _); [|done]. by intros [= <-].
Qed.

Lemma call_index (s : Store) (c : Call) :
  newest_first (index s) → newest_first (index (call s c)).
Proof.
  intros Hs. destruct c; cbn [call]; try exact Hs.
  - unfold saveEntry, updateIndex, getIndex, getEntries. cbn.
    destruct (includes_date _ _); cbn; [exact Hs|apply newest_first_sort].
  - unfold deleteEntry, getIndex. cbn. by apply newest_first_without.
  - unfold markSynced, removePending, getEntries. by destruct (entries s !! date).
  - unfold markPending, addPending, getPending, getEntries.
    destruct (entries s !! date); cbn; by destruct (includes_date _ _).
  - unfold addPending, getPending. by destruct (includes_date _ _).
  - unfold updateIndex, getIndex.
    destruct (includes_date _ _); cbn; [exact Hs|apply newest_first_sort].
  - apply newest_first_sort.
  - destruct (pruneCache s keep) as [s'|] eqn:Hp; cbn; [|exact Hs].
    apply pruneCache_frame in Hp as [_ ->]. exact Hs.
Qed.

Lemma addPending_NoDup s date :
  NoDup (pending s) → NoDup (pending (addPending s date)).
Proof.
  intros Hs. unfold addPending, getPending.
  destruct (includes_date date (pending s)) eqn:Hin; cbn; [exact Hs|].
  apply NoDup_app. split; [exact Hs|]. split; [|apply NoDup_singleton].
  intros x Hx ->%list_elem_of_singleton.
  unfold includes_date in Hin. by apply bool_decide_eq_false in Hin.
Qed.

Lemma call_pending (s : Store) (c : Call) :
  NoDup (pending s) → NoDup (pending (call s c)).
Proof.
  intros Hs. destruct c; cbn [call]; try exact Hs.
  - unfold saveEntry, updateIndex, getIndex, getEntries. cbn.
    by destruct (includes_date _ _).
  - unfold markSynced, removePending, getPending, getEntries.
    destruct (entries s !! date); cbn; by apply NoDup_without.
  - unfold markPending, getEntries.
    destruct (entries s !! date); by apply addPending_NoDup.
  - by apply addPending_NoDup.
  - by apply NoDup_without.
  - apply NoDup_nil_2.
  - unfold updateIndex, getIndex. by destruct (includes_date _ _).
  - destruct (pruneCache s keep) as [s'|] eqn:Hp; cbn; [|exact Hs].
    apply pruneCache_frame in Hp as [-> _]. exact Hs.
Qed.

Lemma saveEntry_index s date data t d :
  d ∈ getIndex (saveEntry s date data t) ↔ d ∈ getIndex s ∨ d = date.
Proof.
  unfold saveEntry, updateIndex, getIndex.
  cbn [index set_entries].
  destruct (includes_date date (index s)) eqn:Hin;
    cbn [negb index set_entries set_index].
  - apply includes_date_true in Hin. split; [by left|]. by intros [?| ->].
  - rewrite sort_descending_elem, elem_of_app, list_elem_of_singleton. tauto.
Qed.

End CacheFacts.

(** X1.  What [saveEntry] writes is what [getEntry] reads back: the record
    of the date holds the document, the token and the flag handed in, the
    time of the call, and no time of sync, whatever the record held before;
    the records of the other dates are as they were; the date is in the
    index, which has gained nothing else; and the pending queue is as it
    was. *)
Theorem saveEntry_then_getEntry (s : Storage.Store) (date : string)
    (entryData : Storage.EntryData) (now : Z) :
  let s' := Storage.saveEntry s date entryData now in
  Storage.getEntry s' date
  = Some {| Storage.markdown := Storage.data_markdown entryData;
            Storage.sha := Storage.data_sha entryData;
            Storage.synced := Storage.data_synced entryData;
            Storage.updatedAt := now;
            Storage.syncedAt := None |}
  ∧ (∀ d, d ≠ date → Storage.getEntry s' d = Storage.getEntry s d)
  ∧ (∀ d, d ∈ Storage.getIndex s' ↔ d ∈ Storage.getIndex s ∨ d = date)
  ∧ Storage.getPending s' = Storage.getPending s.
Proof.
  cbn zeta. unfold Storage.getEntry, Storage.getEntries, Storage.getPending.
  rewrite saveEntry_entries, saveEntry_pending.
  split; [by rewrite lookup_insert_eq|].
  split; [by intros d Hd; rewrite lookup_insert_ne|].
  split; [|done].
  intros d. apply CacheFacts.saveEntry_index.
Qed.

(** X2.  After every sequence of calls of the storage module, from the
    empty cache, the date index is sorted newest first: each date is at
    least the date that follows it, in the order of their code units. *)
Theorem index_is_newest_first (cs : list Storage.Call) :
  Storage.newest_first (Storage.getIndex (Storage.calls Storage.empty cs)).
Proof.
  unfold Storage.calls, Storage.getIndex.
  assert (Storage.newest_first (Storage.index Storage.empty)) as H0
    by constructor.
  revert H0. generalize Storage.empty.
  induction cs as [|c cs IH]; intros s Hs; [exact Hs|].
  cbn [fold_left]. apply IH. by apply CacheFacts.call_index.
Qed.

(** X3.  After every sequence of calls of the storage module, from the
    empty cache, no date is in the pending queue twice. *)
Theorem pending_has_no_duplicates (cs : list Storage.Call) :
  NoDup (Storage.getPending (Storage.calls Storage.empty cs)).
Proof.
  unfold Storage.calls, Storage.getPending.
  assert (NoDup (Storage.pending Storage.empty)) as H0 by apply NoDup_nil_2.
  revert H0. generalize Storage.empty.
  induction cs as [|c cs IH]; intros s Hs; [exact Hs|].
  cbn [fold_left]. apply IH. by apply CacheFacts.call_pending.
Qed.
Module PruneFacts.
Import Storage.

Lemma array_slice_sublist {A} (start stop : Z) (l : list A) :
  array_slice start stop l `sublist_of` l.
Proof.
  unfold array_slice. etrans; [apply sublist_take|apply sublist_drop].
Qed.

Lemma array_slice_from_nonneg {A} (keep : Z) (l : list A) :
  0 ≤ keep → array_slice_from keep l = drop (Z.to_nat keep) l.
Proof.
  intros Hk. unfold array_slice_from, array_slice, relative_index.
  destruct (Z.ltb_spec keep 0) as [|_]; [lia|].
  destruct (Z.ltb_spec (Z.of_nat (length l)) 0) as [|_]; [lia|].
  rewrite Z.min_id.
  destruct (Z.le_gt_cases keep (Z.of_nat (length l))) as [Hle|Hgt].
  - rewrite Z.min_l by lia. apply take_ge. rewrite length_drop. lia.
  - rewrite Z.min_r by lia. rewrite Z.sub_diag. cbn [Z.to_nat take].
    rewrite Nat2Z.id, drop_all. symmetry. apply drop_ge. lia.
Qed.

Lemma sorted_keys_elem (m : gmap string CacheRecord) (d : string) :
  d ∈ sorted_keys m ↔ is_Some (m !! d).
Proof.
  unfold sorted_keys. rewrite sort_descending_elem, list_elem_of_fmap.
  split.
  - intros ([k r] & -> & Hin). apply elem_of_map_to_list in Hin. by exists r.
  - intros [r Hr]. exists (d, r). split; [done|]. by apply elem_of_map_to_list.
Qed.

Lemma sorted_keys_NoDup (m : gmap string CacheRecord) : NoDup (sorted_keys m).
Proof.
  unfold sorted_keys. rewrite CacheFacts.sort_descending_Permutation.
  apply NoDup_fst_map_to_list.
Qed.

Lemma sorted_keys_length (m : gmap string CacheRecord) :
  length (sorted_keys m) = size m.
Proof.
  unfold sorted_keys.
  rewrite (Permutation_length (CacheFacts.sort_descending_Permutation _)).
  by rewrite length_fmap, length_map_to_list.
Qed.

(** The loop over the dates to remove never reads a record that is not
    there, and takes out exactly the synced records among them. *)
Lemma fold_prune (l : list string) : ∀ m : gmap string CacheRecord,
  NoDup l → (∀ d, d ∈ l → is_Some (m !! d)) →
  ∃ m', fold_left prune_one l (Some m) = Some m'
        ∧ ∀ d, m' !! d
               = match m !! d with
                 | Some r => if bool_decide (d ∈ l) && synced r
                             then None else Some r
                 | None => None
                 end.
Proof.
  induction l as [|x l IH]; intros m Hnd Hin.
  { exists m. split; [done|]. intros d. destruct (m !! d); [|done].
    by rewrite bool_decide_eq_false_2 by apply not_elem_of_nil. }
  apply NoDup_cons in Hnd as [Hx Hnd].
  destruct (Hin x ltac:(apply list_elem_of_here)) as [r Hr].
  cbn [fold_left prune_one]. rewrite Hr.
  set (m1 := if synced r then delete x m else m).
  assert (∀ d, d ≠ x → m1 !! d = m !! d) as Hother.
  { intros d Hd. subst m1. destruct (synced r); [|done].
    by rewrite lookup_delete_ne. }
  destruct (IH m1 Hnd) as (m' & Hfold & Hm').
  { intros d Hd. rewrite Hother; [|by intros ->].
    apply Hin. by apply list_elem_of_further. }
  exists m'. split; [exact Hfold|].
  intros d. rewrite Hm'. destruct (decide (d = x)) as [->|Hne].
  - rewrite Hr. rewrite (bool_decide_eq_false_2 (x ∈ l)) by exact Hx.
    rewrite (bool_decide_eq_true_2 (x ∈ x :: l)) by apply list_elem_of_here.
    subst m1. cbn [andb]. destruct (synced r) eqn:Hs.
    + by rewrite lookup_delete_eq.
    + by rewrite Hr.
  - rewrite Hother by done. destruct (m !! d) as [r'|]; [|done].
    assert (bool_decide (d ∈ x :: l) = bool_decide (d ∈ l)) as ->; [|done].
    apply bool_decide_ext. rewrite elem_of_cons. tauto.
Qed.

End PruneFacts.

(** X4.  [pruneCache] never throws, and it leaves the pending queue and the
    date index alone.  It removes records only: every record that is left
    is a record that was there; a record that is not synced is never
    removed; for a [keep] of zero or more, the records of the [keep]
    newest dates are never removed, and every synced record of an older
    date is; and when the cache holds no more than [keep] records, nothing
    changes at all. *)
Theorem pruneCache_spares_unsynced_and_newest (s : Storage.Store) (keep : Z) :
  ∃ s', Storage.pruneCache s keep = Some s'
    ∧ Storage.getPending s' = Storage.getPending s
    ∧ Storage.getIndex s' = Storage.getIndex s
    ∧ (∀ d r, Storage.getEntry s' d = Some r → Storage.getEntry s d = Some r)
    ∧ (∀ d r, Storage.getEntry s d = Some r → Storage.synced r = false →
              Storage.getEntry s' d = Some r)
    ∧ (0 ≤ keep →
       ∀ d, d ∈ take (Z.to_nat keep)
                  (Storage.sorted_keys (Storage.getEntries s)) →
            Storage.getEntry s' d = Storage.getEntry s d)
    ∧ (0 ≤ keep →
       ∀ d r, Storage.getEntry s d = Some r → Storage.synced r = true →
              d ∉ take (Z.to_nat keep)
                    (Storage.sorted_keys (Storage.getEntries s)) →
              Storage.getEntry s' d = None)
    ∧ (Z.of_nat (size (Storage.getEntries s)) ≤ keep → s' = s).
Proof.
  unfold Storage.pruneCache, Storage.getEntry, Storage.getEntries.
  set (dates := Storage.sorted_keys (Storage.entries s)).
  assert (length dates = size (Storage.entries s)) as Hlen
    by apply PruneFacts.sorted_keys_length.
  destruct (Z.leb_spec (Z.of_nat (length dates)) keep) as [Hle|Hgt].
  { exists s. repeat split; try done.
    intros _ d r Hr _ Hd. exfalso. apply Hd.
    rewrite take_ge by lia. apply PruneFacts.sorted_keys_elem. by exists r. }
  set (toRemove := array_slice_from keep dates).
  assert (toRemove `sublist_of` dates) as Hsub
    by apply PruneFacts.array_slice_sublist.
  destruct (PruneFacts.fold_prune toRemove (Storage.entries s))
    as (m' & -> & Hm').
  { eapply sublist_NoDup; [apply PruneFacts.sorted_keys_NoDup|exact Hsub]. }
  { intros d Hd. apply PruneFacts.sorted_keys_elem.
    eapply elem_of_sublist; [exact Hd|exact Hsub]. }
  exists (Storage.set_entries s m'). cbn [Storage.entries Storage.set_entries].
  split; [done|]. split; [done|]. split; [done|].
  split; [|split; [|split; [|split]]].
  - intros d r. rewrite Hm'. destruct (Storage.entries s !! d) as [r'|]; [|done].
    by destruct (bool_decide (d ∈ toRemove) && Storage.synced r').
  - intros d r Hr Hs. rewrite Hm', Hr, Hs. by rewrite andb_false_r.
  - intros Hk d Hd. rewrite Hm'.
    destruct (Storage.entries s !! d) as [r|]; [|done].
    rewrite bool_decide_eq_false_2; [done|].
    subst toRemove. rewrite PruneFacts.array_slice_from_nonneg by done.
    intros Hdrop.
    pose proof (PruneFacts.sorted_keys_NoDup (Storage.entries s)) as Hnd.
    fold dates in Hnd. rewrite <- (take_drop (Z.to_nat keep) dates) in Hnd.
    apply NoDup_app in Hnd as (_ & Hdisj & _). by apply (Hdisj d).
  - intros Hk d r Hr Hs Hd. rewrite Hm', Hr, Hs.
    rewrite bool_decide_eq_true_2; [done|].
    subst toRemove. rewrite PruneFacts.array_slice_from_nonneg by done.
    assert (d ∈ dates) as Hin
      by (apply PruneFacts.sorted_keys_elem; by exists r).
    rewrite <- (take_drop (Z.to_nat keep) dates) in Hin.
    apply elem_of_app in Hin as [Hin|Hin]; [done|exact Hin].
  - lia.
Qed.
(* ===================================================================== *)
(** * Further properties of the index (index.js) *)
(* ===================================================================== *)

Module PageFacts.
Import Index.

(** The filtered dates depend on the index and the query, not on the
    page. *)
Lemma getFilteredDates_set_page i p s :
  getFilteredDates (set_page i p) s = getFilteredDates i s.
Proof. reflexivity. Qed.

Lemma total_pages_covers (n : nat) :
  let total := Z.max 1 (ceil_div (Z.of_nat n) PAGE_SIZE) in
  1 ≤ total ∧ Z.of_nat n ≤ total * PAGE_SIZE.
Proof.
  cbn zeta. pose proof (ceil_div_spec (Z.of_nat n) ltac:(lia)) as [Hlo _].
  unfold PAGE_SIZE in *. lia.
Qed.

(** The page of [getPage] when the current page is within range. *)
Lemma getPage_at (i : State) (s : Storage.Store) (k : Z) :
  1 ≤ k ≤ totalPages (getPage i s).1 →
  dates (getPage (set_page i k) s).1
  = take (Z.to_nat PAGE_SIZE)
      (drop (Z.to_nat ((k - 1) * PAGE_SIZE)) (getFilteredDates i s))
  ∧ page (getPage (set_page i k) s).1 = k.
Proof.
  unfold getPage. cbn [fst totalPages dates page _currentPage set_page].
  rewrite !getFilteredDates_set_page.
  set (total := Z.max 1 _). intros Hk.
  rewrite (Z.min_l k total) by lia. rewrite (Z.max_r 1 k) by lia.
  split; [|done]. unfold slice. f_equal. f_equal. lia.
Qed.

(** Cutting a list into consecutive pieces of the same length and gluing
    them again gives the list. *)
Lemma chunks_concat {A} (size : nat) (n : nat) : ∀ (l : list A) (from : nat),
  (length l ≤ n * size)%nat →
  concat ((λ k, take size (drop ((k - from) * size) l)) <$> seq from n) = l.
Proof.
  induction n as [|n IH]; intros l from Hlen.
  { destruct l; [done|simpl in Hlen; lia]. }
  cbn [seq fmap list_fmap concat]. rewrite Nat.sub_diag. cbn [Nat.mul drop].
  etrans; [|apply (take_drop size l)]. f_equal.
  etrans; [|apply (IH (drop size l) (S from)); rewrite length_drop; lia].
  f_equal. apply list_fmap_ext. intros j k Hk.
  apply lookup_seq in Hk as [-> _].
  rewrite drop_drop. do 2 f_equal. lia.
Qed.

End PageFacts.

(** X5.  The pages cut the filtered dates into consecutive pieces and lose
    nothing: going to each page from 1 to the total in turn and gluing the
    dates that [getPage] returns gives back the filtered dates, in their
    order.  Every page but the last holds [PAGE_SIZE] dates. *)
Theorem pages_partition_filtered (i : Index.State) (s : Storage.Store) :
  let total := Index.totalPages (Index.getPage i s).1 in
  concat ((λ k : nat,
             Index.dates (Index.getPage (Index.goToPage i (Z.of_nat k)) s).1)
          <$> seq 1 (Z.to_nat total))
  = Index.getFilteredDates i s
  ∧ ∀ k, 1 ≤ k < total →
         length (Index.dates (Index.getPage (Index.goToPage i k) s).1)
         = Z.to_nat Index.PAGE_SIZE.
Proof.
  cbn zeta.
  pose proof (PageFacts.total_pages_covers
                (length (Index.getFilteredDates i s))) as [H1 Hcover].
  cbn zeta in H1, Hcover.
  assert (Index.totalPages (Index.getPage i s).1
          = Z.max 1 (Index.ceil_div
                       (Z.of_nat (length (Index.getFilteredDates i s)))
                       Index.PAGE_SIZE)) as Htotal by reflexivity.
  set (total := Index.totalPages (Index.getPage i s).1) in *.
  rewrite <- Htotal in H1, Hcover.
  split.
  - etrans; [|apply (PageFacts.chunks_concat (Z.to_nat Index.PAGE_SIZE)
                      (Z.to_nat total) (Index.getFilteredDates i s) 1);
               unfold Index.PAGE_SIZE in *; lia].
    f_equal. apply list_fmap_ext. intros j k Hk.
    apply lookup_seq in Hk as [-> Hj].
    unfold Index.goToPage. rewrite Z.max_r by lia.
    destruct (PageFacts.getPage_at i s (Z.of_nat (1 + j))) as [-> _].
    { fold total. lia. }
    do 2 f_equal. unfold Index.PAGE_SIZE. lia.
  - intros k Hk. unfold Index.goToPage. rewrite Z.max_r by lia.
    destruct (PageFacts.getPage_at i s k) as [-> _]; [fold total; lia|].
    rewrite length_take, length_drop. unfold Index.PAGE_SIZE in *.
    assert (total = Index.ceil_div
                      (Z.of_nat (length (Index.getFilteredDates i s))) 50)
      as Hc by (unfold Index.PAGE_SIZE in Htotal; lia).
    pose proof (ceil_div_spec (Z.of_nat (length (Index.getFilteredDates i s)))
                  ltac:(lia)) as [_ Hhi].
    unfold Index.PAGE_SIZE in Hhi. rewrite <- Hc in Hhi. lia.
Qed.

(** X6.  [nextPage] moves exactly when the page that [getPage] shows is
    not the last one, and then the page shown next is the following one,
    still within the total, and [prevPage] leads back to the page shown
    before; when [nextPage] does not move, the page shown is the last one
    and stays. *)
Theorem nextPage_then_prevPage (i : Index.State) (s : Storage.Store) :
  let p := (Index.getPage i s).1 in
  let moved := (Index.nextPage i s).1 in
  let i' := (Index.nextPage i s).2 in
  moved = (Index.page p <? Index.totalPages p)
  ∧ (moved = true →
     Index.page (Index.getPage i' s).1 = Index.page p + 1
     ∧ Index.page (Index.getPage i' s).1 ≤ Index.totalPages (Index.getPage i' s).1
     ∧ (Index.prevPage i').1 = true
     ∧ Index.page (Index.getPage (Index.prevPage i').2 s).1 = Index.page p)
  ∧ (moved = false →
     Index.page p = Index.totalPages p
     ∧ Index.page (Index.getPage i' s).1 = Index.page p).
Proof.
  cbn zeta.
  pose proof (PageFacts.total_pages_covers
                (length (Index.getFilteredDates i s))) as [H1 _].
  cbn zeta in H1.
  unfold Index.nextPage, Index.prevPage, Index.getPage.
  cbn [fst snd Index.hasNext Index.page Index.totalPages Index._currentPage
       Index.set_page].
  set (total := Z.max 1 _) in *.
  set (cur := Z.max 1 (Z.min (Index._currentPage i) total)).
  assert (1 ≤ cur ≤ total) as Hcur by (subst cur; lia).
  destruct (Z.ltb_spec cur total) as [Hlt|Hge];
    cbn [fst snd Index._currentPage Index.set_page].
  - split; [done|]. split; [|done]. intros _.
    rewrite ?PageFacts.getFilteredDates_set_page. fold total.
    rewrite (Z.min_l (cur + 1) total) by lia.
    rewrite (Z.max_r 1 (cur + 1)) by lia.
    split; [done|]. split; [lia|].
    destruct (Z.ltb_spec 1 (cur + 1)) as [_|]; [|lia].
    cbn [fst snd Index._currentPage Index.set_page].
    rewrite ?PageFacts.getFilteredDates_set_page. fold total.
    split; [done|]. lia.
  - split; [done|]. split; [done|]. intros _.
    rewrite ?PageFacts.getFilteredDates_set_page. fold total.
    split; [lia|]. fold cur. lia.
Qed.
Module SearchFacts.
Import Index.

Lemma includes_in_empty q : q ≠ "" → includes q "" = false.
Proof. by destruct q. Qed.

End SearchFacts.

(** X7.  A search never invents a date and never reorders: the dates found
    are a sublist of the index.  The query is trimmed and lower-cased; when
    nothing is left of it (an empty query, or white space only) every date
    is found; otherwise a date is found exactly when the date itself
    contains the query or its cached document, lower-cased, does.  Setting
    the query goes back to the first page. *)
Theorem search_finds_matching_dates (i : Index.State) (s : Storage.Store)
    (query : string) :
  let q := trim (toLowerCase query) in
  let i' := Index.setSearchQuery i query in
  let found := Index.getFilteredDates i' s in
  Index._currentPage i' = 1
  ∧ found `sublist_of` Index._index i
  ∧ (q = "" → found = Index._index i)
  ∧ (q ≠ "" →
     ∀ d, d ∈ found
          ↔ d ∈ Index._index i
            ∧ (includes q d = true
               ∨ ∃ r md, Storage.getEntry s d = Some r
                         ∧ Storage.markdown r = Some md
                         ∧ includes q (toLowerCase md) = true)).
Proof.
  cbn zeta. unfold Index.getFilteredDates, Index.setSearchQuery.
  cbn [Index._index Index._searchQuery Index._currentPage].
  set (q := trim (toLowerCase query)).
  split; [done|].
  destruct (String.eqb_spec q "") as [Hq|Hq].
  { split; [done|]. split; [done|]. by intros []. }
  split; [apply sublist_filter|]. split; [done|]. intros _ d.
  rewrite list_elem_of_filter, Is_true_true, orb_true_iff.
  rewrite (and_comm _ (d ∈ Index._index i)).
  apply and_iff_compat_l, or_iff_compat_l.
  split.
  - destruct (Storage.getEntry s d) as [r|]; [|done].
    destruct (Storage.markdown r) as [md|] eqn:Hmd; [|done].
    intros [_ Hin]%andb_true_iff. by exists r, md.
  - intros (r & md & -> & -> & Hin). apply andb_true_iff. split; [|done].
    apply negb_true_iff. apply String.eqb_neq. intros ->.
    change (includes q "" = true) in Hin.
    by rewrite SearchFacts.includes_in_empty in Hin.
Qed.

Module StepFacts.
Import Index.

Lemma setIndex_sorted s l :
  Storage.newest_first l → Storage.getIndex (Storage.setIndex s l) = l.
Proof.
  intros Hl. unfold Storage.setIndex, Storage.getIndex. cbn.
  by apply CacheFacts.sort_descending_fixed.
Qed.

End StepFacts.

(** X8.  The in-memory index and the stored index move in step.  When the
    two hold the same dates, newest first, they still do after [setDates],
    after [addDate], after [removeDate], and after the pair the save path
    makes, [saveEntry] of the cache followed by [addDate]; after [addDate]
    the date is in the index, after [removeDate] it is not, and after
    [setDates] the index holds the dates given. *)
Theorem indexes_move_in_step (i : Index.State) (s : Storage.Store)
    (Hstep : Index.in_step i s) :
  (∀ dates, Index.in_step (Index.setDates i s dates).1
                          (Index.setDates i s dates).2
            ∧ ∀ d, d ∈ Index._index (Index.setDates i s dates).1 ↔ d ∈ dates)
  ∧ (∀ date, Index.in_step (Index.addDate i s date).1 (Index.addDate i s date).2
             ∧ Index.hasDate (Index.addDate i s date).1 date = true)
  ∧ (∀ date, Index.in_step (Index.removeDate i s date).1
                           (Index.removeDate i s date).2
             ∧ Index.hasDate (Index.removeDate i s date).1 date = false)
  ∧ (∀ date entryData now,
       let s1 := Storage.saveEntry s date entryData now in
       Index.in_step (Index.addDate i s1 date).1 (Index.addDate i s1 date).2
       ∧ Index.hasDate (Index.addDate i s1 date).1 date = true).
Proof.
  destruct Hstep as [Heq Hsorted].
  assert (∀ l s0, Index.in_step
            (Index.set_index i (Storage.sort_descending l))
            (Storage.setIndex s0 (Storage.sort_descending l))) as Hset.
  { intros l s0. split; cbn [Index._index Index.set_index].
    - symmetry. apply StepFacts.setIndex_sorted, CacheFacts.newest_first_sort.
    - apply CacheFacts.newest_first_sort. }
  assert (∀ date s0, Storage.getIndex s0 = Index._index i
                     ∨ date ∉ Index._index i →
            Index.in_step (Index.addDate i s0 date).1 (Index.addDate i s0 date).2
            ∧ Index.hasDate (Index.addDate i s0 date).1 date = true) as Hadd.
  { intros date s0 Hs0. unfold Index.addDate, Index.hasDate.
    destruct (Storage.includes_date date (Index._index i)) eqn:Hin;
      cbn [negb fst snd].
    - destruct Hs0 as [Hs0|Hs0].
      + split; [by split|done].
      + apply includes_date_true in Hin. done.
    - split; [apply Hset|]. cbn [Index._index Index.set_index].
      apply includes_date_true, sort_descending_elem, elem_of_app.
      right. by apply list_elem_of_singleton. }
  split; [|split; [|split]].
  - intros dates. unfold Index.setDates. cbn [fst snd]. split; [apply Hset|].
    intros d. cbn [Index._index Index.set_index]. apply sort_descending_elem.
  - intros date. apply Hadd. by left.
  - intros date. unfold Index.removeDate, Index.hasDate. cbn [fst snd].
    cbn [Index._index Index.set_index].
    assert (Storage.newest_first (Storage.without date (Index._index i)))
      as Hw by (by apply CacheFacts.newest_first_without).
    split; [split|].
    + symmetry. by apply StepFacts.setIndex_sorted.
    + exact Hw.
    + apply bool_decide_eq_false_2. rewrite elem_of_without. tauto.
  - intros date entryData now. cbn zeta.
    destruct (decide (date ∈ Index._index i)) as [Hin|Hout].
    + apply Hadd. left.
      unfold Storage.saveEntry, Storage.updateIndex, Storage.getIndex in *.
      cbn [Storage.index Storage.set_entries].
      rewrite Heq in Hin |- *.
      apply includes_date_true in Hin. by rewrite Hin.
    + apply Hadd. by right.
Qed.

(** X8, an instance: the index read from the empty cache. *)
Lemma indexes_move_in_step_witness :
  Index.hasDate
    (Index.addDate (Index.init Storage.empty) Storage.empty "2025-01-01").1
    "2025-01-01" = true.
Proof.
  assert (Index.in_step (Index.init Storage.empty) Storage.empty) as Hstep.
  { split; [reflexivity|constructor]. }
  destruct (indexes_move_in_step (Index.init Storage.empty) Storage.empty Hstep)
    as (_ & Hadd & _).
  exact (proj2 (Hadd "2025-01-01")).
Defined.
Module DateFacts.

Lemma digit_code c :
  is_digit c = true → (48 ≤ N_of_ascii c ≤ 57)%N.
Proof.
  unfold is_digit. cbn zeta. rewrite andb_true_iff, !N.leb_le. tauto.
Qed.

(** Two dates of the right shape compare as strings the way the numbers
    they spell compare. *)
Lemma date_order (a b : string) :
  date_pattern a = true → date_pattern b = true →
  (string_le a b = true ↔ date_number a ≤ date_number b).
Proof.
  intros Ha Hb.
  apply StringFacts.date_pattern_shape in Ha
    as (a1 & a2 & a3 & a4 & a5 & a6 & a7 & a8 & -> &
        A1 & A2 & A3 & A4 & A5 & A6 & A7 & A8).
  apply StringFacts.date_pattern_shape in Hb
    as (b1 & b2 & b3 & b4 & b5 & b6 & b7 & b8 & -> &
        B1 & B2 & B3 & B4 & B5 & B6 & B7 & B8).
  unfold date_number. cbn [digits_value].
  rewrite A1, A2, A3, A4, A5, A6, A7, A8, B1, B2, B3, B4, B5, B6, B7, B8.
  change (is_digit "-") with false. cbn iota.
  apply digit_code in A1, A2, A3, A4, A5, A6, A7, A8,
                      B1, B2, B3, B4, B5, B6, B7, B8.
  unfold string_le, String.leb. cbn [String.compare].
  change (Ascii.compare "-" "-") with Eq. cbn iota.
  unfold Ascii.compare.
  repeat match goal with
         | |- context [N.compare ?x ?y] =>
             destruct (N.compare_spec x y)
         end;
    (split; intros Hc; [first [discriminate Hc|lia]
                       |first [reflexivity|exfalso; lia]]).
Qed.

End DateFacts.
Module RangeFacts.

Lemma List_filter_sublist {A} (f : A → bool) (l : list A) :
  List.filter f l `sublist_of` l.
Proof.
  induction l as [|x l IH]; [constructor|].
  cbn [List.filter]. destruct (f x); by constructor.
Qed.

Lemma elem_of_List_filter {A} (f : A → bool) (l : list A) (x : A) :
  x ∈ List.filter f l ↔ x ∈ l ∧ f x = true.
Proof. rewrite !list_elem_of_In. apply filter_In. Qed.

Lemma string_le_trans (a b c : string) :
  string_le a b = true → string_le b c = true → string_le a c = true.
Proof.
  unfold string_le. intros Hab Hbc. apply Is_true_true.
  change (String.le a c). transitivity b; apply Is_true_true; done.
Qed.

End RangeFacts.

(** X9.  For dates of the shape YYYY-MM-DD the order of the code units is
    the order of the calendar, so [getDateRange] selects by the calendar:
    between two well-formed bounds, a well-formed date of the index is
    selected exactly when the number its digits spell (year, month, day)
    lies between those of the bounds, ends included.  The selection is a
    sublist of the index, and it is empty when the end is before the
    start. *)
Theorem getDateRange_is_chronological (i : Index.State)
    (startDate endDate : string)
    (Hstart : date_pattern startDate = true)
    (Hend : date_pattern endDate = true) :
  Index.getDateRange i startDate endDate `sublist_of` Index._index i
  ∧ (∀ d, date_pattern d = true →
          (d ∈ Index.getDateRange i startDate endDate
           ↔ d ∈ Index._index i
             ∧ date_number startDate ≤ date_number d ≤ date_number endDate))
  ∧ (date_number endDate < date_number startDate →
     Index.getDateRange i startDate endDate = []).
Proof.
  unfold Index.getDateRange.
  split; [apply RangeFacts.List_filter_sublist|]. split.
  - intros d Hd. rewrite RangeFacts.elem_of_List_filter, andb_true_iff.
    rewrite (DateFacts.date_order startDate d Hstart Hd).
    rewrite (DateFacts.date_order d endDate Hd Hend). tauto.
  - intros Hlt. induction (Index._index i) as [|d l IH]; [done|].
    cbn [List.filter].
    destruct (string_le startDate d) eqn:H1; [|exact IH].
    destruct (string_le d endDate) eqn:H2; [|exact IH].
    pose proof (RangeFacts.string_le_trans _ _ _ H1 H2) as H3.
    apply (DateFacts.date_order _ _ Hstart Hend) in H3. lia.
Qed.

(** X9, an instance: the first half of 2025 out of three dates. *)
Lemma getDateRange_is_chronological_witness :
  Index.getDateRange
    {| Index._index := ["2025-07-01"; "2025-03-15"; "2024-12-31"];
       Index._currentPage := 1; Index._searchQuery := "" |}
    "2025-01-01" "2025-06-30" `sublist_of`
    ["2025-07-01"; "2025-03-15"; "2024-12-31"].
Proof.
  exact (proj1 (getDateRange_is_chronological
                  {| Index._index := ["2025-07-01"; "2025-03-15"; "2024-12-31"];
                     Index._currentPage := 1; Index._searchQuery := "" |}
                  "2025-01-01" "2025-06-30" eq_refl eq_refl)).
Defined.
(* ===================================================================== *)
(** * Further properties of the codec (journal.js) *)
(* ===================================================================== *)

Module DecoderFacts.
Import Journal.

Local Abbreviation St := Build_parser.
Local Abbreviation NL := (String LF "").

Lemma dashes_startsWith s : startsWith "---" s = false → dashes s = None.
Proof.
  unfold dashes, eat_char, and_then.
  destruct s as [|a [|b [|c s]]]; cbn [startsWith];
    rewrite ?(Ascii.eqb_sym "-");
    repeat (match goal with
            | |- context [Ascii.eqb ?x "-"] => destruct (Ascii.eqb x "-")
            end; cbn [andb]);
    done.
Qed.

(** A document that does not open with three dashes has no metadata
    block. *)
Lemma no_fence_no_frontmatter s :
  startsWith "---" s = false → frontmatter_regex s = None.
Proof.
  intros H. unfold frontmatter_regex. by rewrite (dashes_startsWith s H).
Qed.




(** ** The keys of the parsed sections *)






(** ** One line of the metadata block *)




Lemma slice_from_length a b : slice_from (String.length a) (a +:+ b) = b.
Proof. induction a as [|c a IH]; [by destruct b|]. cbn. by rewrite IH. Qed.


End DecoderFacts.
(** X10.  A document in which the literal of the metadata block finds no
    match (it does not open with a fence, or the fence is never closed) is
    all body: [parseFrontmatter] returns no metadata and the document
    itself, and [fromMarkdown] returns, whatever the fuel, the defaults
    (schema 1, an empty date, scores of 5, a net worth delta of 0) with the
    sections parsed from the whole document. *)
Theorem fromMarkdown_without_frontmatter (fuel : nat) (markdown : string)
    (Hnone : Journal.frontmatter_regex markdown = None) :
  Journal.parseFrontmatter markdown = (∅, markdown)
  ∧ Journal.fromMarkdown fuel markdown
    = Some (Journal.blank (Journal.parseSections markdown)).
Proof.
  assert (Journal.parseFrontmatter markdown = (∅, markdown)) as Hparse.
  { unfold Journal.parseFrontmatter. by rewrite Hnone. }
  split; [exact Hparse|].
  unfold Journal.fromMarkdown. rewrite Hparse.
  unfold Journal.prop. rewrite !lookup_empty. cbn [default].
  unfold Journal.migrateEntry. cbn [Journal.schema].
  change (or_else (or_else VUndef (VNum (Fin 1))) (VNum (Fin 1)))
    with (VNum (Fin Journal.CURRENT_SCHEMA)).
  rewrite CodecFacts.migrate_loop_current. reflexivity.
Qed.

(** X10, an instance: a document that starts with a heading. *)
Lemma fromMarkdown_without_frontmatter_witness :
  Journal.fromMarkdown 0 ("# 1. Identity" +:+ String LF "hello")
  = Some (Journal.blank {["section_1" := "hello"]}).
Proof.
  destruct (fromMarkdown_without_frontmatter 0
              ("# 1. Identity" +:+ String LF "hello")
              (DecoderFacts.no_fence_no_frontmatter
                 ("# 1. Identity" +:+ String LF "hello") eq_refl))
    as [_ ->].
  reflexivity.
Defined.






(** X15.  The metadata block ends at the first closing fence: in a
    document made of an opening fence, lines of metadata (each one line,
    none starting with a dash), a closing fence and a body, the lines are
    read as the metadata, one after the other, and the body is returned
    untouched, fences of its own included. *)
Theorem parseFrontmatter_reads_block (ys : list string) (rest : string)
    (Hys : ys ≠ [])
    (Hlines : Forall (λ l, one_line l = true) ys)
    (Hdash : Forall (λ l, not_headed "-" l = true) ys) :
  Journal.parseFrontmatter
    ("---" +:+ String LF
       (join (String LF "") ys
        +:+ String LF ("---" +:+ String LF rest)))
  = (fold_left Journal.frontmatter_line ys ∅, rest).
Proof.
  unfold Journal.parseFrontmatter, Journal.frontmatter_regex.
  change (Journal.dashes
            ("---" +:+ String LF
               (join (String LF "") ys
                +:+ String LF ("---" +:+ String LF rest))))
    with (Some (String LF
                  (join (String LF "") ys
                   +:+ String LF ("---" +:+ String LF rest)))).
  cbn [and_then Journal.eol Ascii.eqb Bool.eqb LF].
  rewrite CodecFacts.lazy_block_lines by done.
  by rewrite CodecFacts.split_lines_join_lines.
Qed.

(** X15, an instance: two lines of metadata and a body that holds a rule
    of three dashes. *)
Lemma parseFrontmatter_reads_block_witness :
  Journal.parseFrontmatter
    ("---" +:+ String LF
       (join (String LF "") ["score: 8"; "date: 2025-12-25"]
        +:+ String LF ("---" +:+ String LF
                         ("above" +:+ String LF ("---" +:+ String LF "below")))))
  = (<["date" := VStr "2025-12-25"]> (<["score" := VNum (Fin 8)]> ∅),
     "above" +:+ String LF ("---" +:+ String LF "below")).
Proof.
  rewrite (parseFrontmatter_reads_block ["score: 8"; "date: 2025-12-25"]
             ("above" +:+ String LF ("---" +:+ String LF "below"))).
  - reflexivity.
  - discriminate.
  - repeat constructor.
  - repeat constructor.
Defined.

(** X16.  A fresh entry passes validation exactly when its date has the
    shape YYYY-MM-DD, and the only error it can get is the one of the
    date. *)
Theorem createEntry_valid_iff_date (d : string) :
  (Journal.validateEntry (Some (Journal.createEntry d))).1 = date_pattern d
  ∧ (Journal.validateEntry (Some (Journal.createEntry d))).2
    = (if date_pattern d then [] else [Journal.date_error]).
Proof.
  rewrite ValidateFacts.validateEntry_violations. cbn [fst snd].
  assert (Journal.violations (Journal.createEntry d)
          = if date_pattern d then [] else [Journal.date_error]) as ->.
  { unfold Journal.violations, Journal.bad_date. cbn.
    destruct (date_pattern d) eqn:Hd.
    - apply StringFacts.date_pattern_shape in Hd
        as (y1 & y2 & y3 & y4 & m1 & m2 & d1 & d2 & -> & _). reflexivity.
    - by rewrite orb_true_r. }
  by destruct (date_pattern d).
Qed.
(* ===================================================================== *)
(** * Further properties of the remote client (github.js) *)
(* ===================================================================== *)

Module ClientFacts.
Import GitHub.

(** A first call that is not a retryable rejection settles the run. *)
Lemma withRetry_first {W A : Type} (fn : W → attempt A * W) (w : W) :
  retryable (fn w).1 = false →
  withRetry fn DEFAULT_MAX_RETRIES w
  = {| result := match (fn w).1 with
                 | Resolved a => Return a
                 | Rejected e => Throw (Some e)
                 end;
       world := (fn w).2; attempts := 1; delays := [] |}.
Proof.
  intros Hfirst.
  rewrite (RetryFacts.withRetry_settles fn DEFAULT_MAX_RETRIES 0 w).
  - reflexivity.
  - unfold DEFAULT_MAX_RETRIES. lia.
  - intros j Hj. lia.
  - exact Hfirst.
Qed.

Lemma fail_fast_status (st : Z) (msg : string) :
  st = 401 ∨ st = 403 ∨ st = 404 →
  fail_fast {| status := Some st; message := msg |} = true.
Proof.
  intros H. apply RetryFacts.fail_fast_spec. cbn.
  destruct H as [->|[->| ->]]; auto.
Qed.

(** ** Names of entry files *)

Lemma endsWith_no_dot s : endsWith ".md" s = true → no_dot s = false.
Proof.
  unfold no_dot. induction s as [|c s IH]; [done|].
  cbn [endsWith all_chars]. intros [Heq|Htail]%orb_true_iff.
  - apply String.eqb_eq in Heq. by injection Heq as <- <-.
  - rewrite (IH Htail). apply andb_false_r.
Qed.

Lemma endsWith_app a : endsWith ".md" (a +:+ ".md") = true.
Proof.
  induction a as [|c a IH]; [done|].
  cbn [String.append endsWith]. rewrite IH. apply orb_true_r.
Qed.

Lemma remove_first_app a :
  no_dot a = true → remove_first ".md" (a +:+ ".md") = a.
Proof.
  unfold no_dot. induction a as [|c a IH]; intros Ha; [done|].
  cbn [all_chars] in Ha. apply andb_true_iff in Ha as [Hc Ha].
  apply negb_true_iff in Hc.
  cbn [String.append remove_first startsWith]. rewrite Hc. cbn [andb].
  by rewrite IH.
Qed.

(** A name that ends in ".md" and from which taking the first ".md" out
    leaves no full stop is that remainder followed by ".md". *)
Lemma remove_first_inv name :
  endsWith ".md" name = true →
  no_dot (remove_first ".md" name) = true →
  name = remove_first ".md" name +:+ ".md".
Proof.
  induction name as [|c r IH]; [done|].
  cbn [remove_first].
  destruct (startsWith ".md" (String c r)) eqn:Hstart.
  - cbn [startsWith] in Hstart.
    destruct (Ascii.eqb_spec "." c) as [<-|]; [|done].
    destruct r as [|m r]; [done|]. cbn [startsWith andb] in Hstart.
    destruct (Ascii.eqb_spec "m" m) as [<-|]; [|done].
    destruct r as [|d b]; [done|]. cbn [startsWith andb] in Hstart.
    destruct (Ascii.eqb_spec "d" d) as [<-|]; [|done].
    cbn [String.length slice_from].
    intros Hend Hb. destruct b as [|x b]; [done|].
    exfalso. cbn [endsWith] in Hend.
    change (String.eqb ".md" (String "." (String "m" (String "d" (String x b)))))
      with false in Hend.
    change (String.eqb ".md" (String "m" (String "d" (String x b))))
      with false in Hend.
    change (String.eqb ".md" (String "d" (String x b))) with false in Hend.
    cbn [orb] in Hend. change (endsWith ".md" (String x b) = true) in Hend.
    apply endsWith_no_dot in Hend. congruence.
  - intros Hend Hd. cbn [no_dot all_chars] in Hd.
    unfold no_dot in Hd. cbn [all_chars] in Hd.
    apply andb_true_iff in Hd as [Hc Hd]. apply negb_true_iff in Hc.
    cbn [endsWith] in Hend.
    assert (String.eqb ".md" (String c r) = false) as Heq.
    { cbn [String.eqb]. by rewrite Hc. }
    rewrite Heq in Hend. cbn [orb] in Hend.
    cbn [String.append]. f_equal. by apply IH.
Qed.

Lemma date_no_dot d : date_pattern d = true → no_dot d = true.
Proof.
  intros Hd. apply StringFacts.date_pattern_shape in Hd
    as (y1 & y2 & y3 & y4 & m1 & m2 & d1 & d2 & -> &
        H1 & H2 & H3 & H4 & H5 & H6 & H7 & H8).
  assert (∀ c, is_digit c = true → negb (Ascii.eqb "." c) = true) as Hdig.
  { intros c Hc. apply negb_true_iff.
    destruct (Ascii.eqb_spec "." c) as [<-|]; [done|done]. }
  unfold no_dot. cbn [all_chars].
  rewrite (Hdig y1), (Hdig y2), (Hdig y3), (Hdig y4), (Hdig m1), (Hdig m2),
    (Hdig d1), (Hdig d2) by done.
  reflexivity.
Qed.

End ClientFacts.

(** X17.  A read settles on the first answer unless that answer is a
    failure to retry.  When the store answers the request of [getEntry]
    with 404, the run returns null after that one request, with no wait: a
    missing file is no error for a read.  With a status from 200 to 299 it
    returns the content and the token of the file; with 401 or 403 it
    throws at once the error 'Failed to get file' that carries the
    status. *)
Theorem getEntry_settles_on_first_answer {W : Type}
    (get : string → W → GitHub.attempt GitHub.FileResponse * W)
    (date : string) (w w' : W) (response : GitHub.FileResponse)
    (Hfirst : get ("entries/" ++ date ++ ".md") w
              = (GitHub.Resolved response, w')) :
  let run := GitHub.getEntry get date w in
  (GitHub.file_status response = 404 →
   run = {| GitHub.result := GitHub.Return None; GitHub.world := w';
            GitHub.attempts := 1; GitHub.delays := [] |})
  ∧ (200 ≤ GitHub.file_status response ≤ 299 →
     run = {| GitHub.result :=
                GitHub.Return (Some (GitHub.file_content response,
                                     GitHub.file_sha response));
              GitHub.world := w';
              GitHub.attempts := 1; GitHub.delays := [] |})
  ∧ (GitHub.file_status response = 401 ∨ GitHub.file_status response = 403 →
     run = {| GitHub.result :=
                GitHub.Throw
                  (Some {| GitHub.status := Some (GitHub.file_status response);
                           GitHub.message := "Failed to get file" |});
              GitHub.world := w';
              GitHub.attempts := 1; GitHub.delays := [] |}).
Proof.
  cbn zeta. unfold GitHub.getEntry.
  set (fn := GitHub.getFile get ("entries/" ++ date ++ ".md")).
  assert (fn w = (match GitHub.getFile get ("entries/" ++ date ++ ".md") w
                  with (a, w1) => (a, w1) end)) as Hfn
    by (subst fn; by destruct (GitHub.getFile _ _ _)).
  unfold GitHub.getFile in Hfn. rewrite Hfirst in Hfn.
  split; [|split].
  - intros H404. rewrite H404 in Hfn. cbn in Hfn.
    rewrite ClientFacts.withRetry_first; by rewrite Hfn.
  - intros Hok.
    destruct (Z.eqb_spec (GitHub.file_status response) 404) as [|_]; [lia|].
    assert ((200 <=? GitHub.file_status response)
            && (GitHub.file_status response <=? 299) = true) as Hb.
    { apply andb_true_iff. split; apply Z.leb_le; lia. }
    rewrite Hb in Hfn. cbn in Hfn.
    rewrite ClientFacts.withRetry_first; by rewrite Hfn.
  - intros Hauth.
    destruct (Z.eqb_spec (GitHub.file_status response) 404) as [|_]; [lia|].
    assert ((200 <=? GitHub.file_status response)
            && (GitHub.file_status response <=? 299) = false) as Hb.
    { apply andb_false_iff. right. apply Z.leb_gt. lia. }
    rewrite Hb in Hfn. cbn in Hfn.
    rewrite ClientFacts.withRetry_first; rewrite Hfn; [done|].
    cbn. apply negb_false_iff, ClientFacts.fail_fast_status. lia.
Qed.

(** X17, an instance: a store that has no file. *)
Lemma getEntry_settles_on_first_answer_witness :
  GitHub.getEntry Examples.no_file "2025-01-01" Examples.remote0
  = {| GitHub.result := GitHub.Return None; GitHub.world := Examples.remote0;
       GitHub.attempts := 1; GitHub.delays := [] |}.
Proof.
  exact (proj1 (getEntry_settles_on_first_answer Examples.no_file "2025-01-01"
                  Examples.remote0 Examples.remote0 _ eq_refl) eq_refl).
Defined.

(** X18.  Deleting is not reading: when the store answers the request of
    [deleteEntry] with 404, 401 or 403, the run throws at once the error
    'Failed to delete file' that carries the status, after that one
    request and with no wait; a missing file is an error for a delete, and
    one that is not retried.  With a status from 200 to 299 the run
    returns after the one request. *)
Theorem deleteEntry_settles_on_first_answer {W : Type}
    (del : GitHub.DeleteRequest → W → GitHub.attempt GitHub.Response * W)
    (date : string) (sha : option string) (w w' : W)
    (response : GitHub.Response)
    (Hfirst : del {| GitHub.del_path := "entries/" ++ date ++ ".md";
                     GitHub.del_message := "Delete entry: " ++ date;
                     GitHub.del_sha := sha |} w
              = (GitHub.Resolved response, w')) :
  let run := GitHub.deleteEntry del date sha w in
  (200 ≤ GitHub.resp_status response ≤ 299 →
   run = {| GitHub.result := GitHub.Return tt; GitHub.world := w';
            GitHub.attempts := 1; GitHub.delays := [] |})
  ∧ (GitHub.resp_status response = 404 ∨ GitHub.resp_status response = 401
     ∨ GitHub.resp_status response = 403 →
     run = {| GitHub.result :=
                GitHub.Throw
                  (Some {| GitHub.status := Some (GitHub.resp_status response);
                           GitHub.message := "Failed to delete file" |});
              GitHub.world := w';
              GitHub.attempts := 1; GitHub.delays := [] |}).
Proof.
  cbn zeta. unfold GitHub.deleteEntry.
  set (fn := GitHub.deleteFile del _ _ _).
  assert (fn w = (match GitHub.deleteFile del ("entries/" ++ date ++ ".md")
                          sha ("Delete entry: " ++ date) w
                  with (a, w1) => (a, w1) end)) as Hfn
    by (subst fn; by destruct (GitHub.deleteFile _ _ _ _ _)).
  unfold GitHub.deleteFile in Hfn. rewrite Hfirst in Hfn. unfold GitHub.ok in Hfn.
  split.
  - intros Hok.
    assert ((200 <=? GitHub.resp_status response)
            && (GitHub.resp_status response <=? 299) = true) as Hb.
    { apply andb_true_iff. split; apply Z.leb_le; lia. }
    rewrite Hb in Hfn. cbn in Hfn.
    rewrite ClientFacts.withRetry_first; by rewrite Hfn.
  - intros Hbad.
    assert ((200 <=? GitHub.resp_status response)
            && (GitHub.resp_status response <=? 299) = false) as Hb.
    { apply andb_false_iff. right. apply Z.leb_gt. lia. }
    rewrite Hb in Hfn. cbn in Hfn.
    rewrite ClientFacts.withRetry_first; rewrite Hfn; [done|].
    cbn. apply negb_false_iff, ClientFacts.fail_fast_status. lia.
Qed.
(** X18, an instance: nothing to delete. *)
Lemma deleteEntry_settles_on_first_answer_witness :
  GitHub.deleteEntry Examples.gone "2025-01-01" (Some "v2") Examples.remote0
  = {| GitHub.result :=
         GitHub.Throw (Some {| GitHub.status := Some 404;
                               GitHub.message := "Failed to delete file" |});
       GitHub.world := Examples.remote0;
       GitHub.attempts := 1; GitHub.delays := [] |}.
Proof.
  exact (proj2 (deleteEntry_settles_on_first_answer Examples.gone "2025-01-01"
                  (Some "v2") Examples.remote0 Examples.remote0 _ eq_refl)
           (or_introl eq_refl)).
Defined.

(** X19.  [listEntries] lists the entry files of the directory and nothing
    else.  A date is listed exactly when it has the shape YYYY-MM-DD and
    the directory holds an item of type 'file' whose name is the date
    followed by '.md'; the list is sorted newest first.  When the store
    answers the listing with 404, or with a body that is no array, the list
    is empty; each time the run takes one request and no wait. *)
Theorem listEntries_lists_entry_files :
  (∀ files,
     Storage.newest_first (GitHub.entry_dates files)
     ∧ ∀ d, d ∈ GitHub.entry_dates files
            ↔ date_pattern d = true
              ∧ ∃ f, f ∈ files ∧ GitHub.item_type f = "file"
                     ∧ GitHub.item_name f = d +:+ ".md")
  ∧ (∀ (W : Type)
       (dir : string → W → GitHub.attempt GitHub.ListResponse * W)
       (w w' : W) (response : GitHub.ListResponse),
       dir "entries" w = (GitHub.Resolved response, w') →
       (GitHub.list_status response = 404 →
        GitHub.listEntries dir w
        = {| GitHub.result := GitHub.Return []; GitHub.world := w';
             GitHub.attempts := 1; GitHub.delays := [] |})
       ∧ (200 ≤ GitHub.list_status response ≤ 299 →
          GitHub.listEntries dir w
          = {| GitHub.result :=
                 GitHub.Return
                   (GitHub.entry_dates
                      (default [] (GitHub.list_data response)));
               GitHub.world := w';
               GitHub.attempts := 1; GitHub.delays := [] |})).
Proof.
  split.
  - intros files. unfold GitHub.entry_dates.
    split; [apply CacheFacts.newest_first_sort|].
    intros d. rewrite sort_descending_elem.
    rewrite RangeFacts.elem_of_List_filter.
    rewrite list_elem_of_In, in_map_iff.
    split.
    + intros [(f & <- & Hf) Hd]. split; [done|].
      apply list_elem_of_In, RangeFacts.elem_of_List_filter in Hf
        as [Hf Hkeep].
      apply andb_true_iff in Hkeep as [[Htype Hend]%andb_true_iff _].
      exists f. split; [done|]. split; [by apply String.eqb_eq|].
      apply ClientFacts.remove_first_inv; [done|].
      by apply ClientFacts.date_no_dot.
    + intros [Hd (f & Hf & Htype & Hname)]. split; [|done].
      exists f. split.
      * rewrite Hname. apply ClientFacts.remove_first_app.
        by apply ClientFacts.date_no_dot.
      * apply list_elem_of_In, RangeFacts.elem_of_List_filter.
        split; [done|]. rewrite Htype, Hname, ClientFacts.endsWith_app.
        cbn [String.eqb Ascii.eqb Bool.eqb andb].
        apply StringFacts.date_pattern_shape in Hd
          as (y1 & y2 & y3 & y4 & m1 & m2 & d1 & d2 & -> & H1 & _).
        cbn [String.append String.eqb].
        destruct (Ascii.eqb_spec y1 ".") as [->|_]; [done|done].
  - intros W dir w w' response Hfirst.
    unfold GitHub.listEntries.
    set (fn := GitHub.listFiles dir "entries").
    assert (fn w = (match GitHub.listFiles dir "entries" w
                    with (a, w1) => (a, w1) end)) as Hfn
      by (subst fn; by destruct (GitHub.listFiles _ _ _)).
    unfold GitHub.listFiles in Hfn. rewrite Hfirst in Hfn.
    split.
    + intros H404. rewrite H404 in Hfn. cbn in Hfn.
      rewrite ClientFacts.withRetry_first; by rewrite Hfn.
    + intros Hok.
      destruct (Z.eqb_spec (GitHub.list_status response) 404) as [|_]; [lia|].
      assert ((200 <=? GitHub.list_status response)
              && (GitHub.list_status response <=? 299) = true) as Hb.
      { apply andb_true_iff. split; apply Z.leb_le; lia. }
      rewrite Hb in Hfn. cbn [negb] in Hfn.
      destruct (GitHub.list_data response) as [data|];
        (rewrite ClientFacts.withRetry_first; by rewrite Hfn).
Qed.
(* ===================================================================== *)
(** * Further properties of the coordinator (app.js) *)
(* ===================================================================== *)

Module SyncFacts.
Import Storage.

Section Sync.
Context {W : Type}.
Variable put : GitHub.Request → W → GitHub.attempt GitHub.Response * W.
Variable now : W → Z.

Lemma syncEntry_None (st : @App.State W) date :
  App.syncEntry_request (App.store st) date = None →
  App.syncEntry put now st date = st.
Proof. intros H. unfold App.syncEntry. by rewrite H. Qed.

Lemma syncEntry_Some (st : @App.State W) date md sha0 :
  App.syncEntry_request (App.store st) date = Some (md, sha0) →
  App.syncEntry put now st date
  = {| App.store :=
         App.syncEntry_settle (App.store st) date
           (GitHub.result (GitHub.saveEntry put date md sha0 (App.env st)))
           (now (GitHub.world (GitHub.saveEntry put date md sha0 (App.env st))));
       App.idx := App.idx st; App.currentDate := App.currentDate st;
       App.isDirty := App.isDirty st;
       App.syncInProgress := App.syncInProgress st;
       App.env := GitHub.world (GitHub.saveEntry put date md sha0 (App.env st)) |}.
Proof. intros H. unfold App.syncEntry. by rewrite H. Qed.

(** Settling the sync of one date leaves the other dates alone. *)
Lemma settle_frame s date res t d :
  d ≠ date →
  getEntry (App.syncEntry_settle s date res t) d = getEntry s d
  ∧ (d ∈ getPending (App.syncEntry_settle s date res t) ↔ d ∈ getPending s).
Proof.
  intros Hd. unfold getEntry, getEntries, getPending.
  destruct res as [sha1|e]; cbn [App.syncEntry_settle].
  - rewrite QueueFacts.markSynced_entries, QueueFacts.markSynced_pending.
    split; [|tauto].
    destruct (entries s !! date); [by rewrite lookup_insert_ne|done].
  - rewrite QueueFacts.markPending_entries, QueueFacts.markPending_pending.
    split; [|tauto].
    destruct (entries s !! date); [by rewrite lookup_insert_ne|done].
Qed.

(** Settling the sync of a date that has a record. *)
Lemma settle_date s date res t r :
  getEntry s date = Some r →
  match res with
  | GitHub.Return sha1 =>
      getEntry (App.syncEntry_settle s date res t) date
      = Some {| markdown := markdown r; sha := Some sha1; synced := true;
                updatedAt := updatedAt r; syncedAt := Some t |}
      ∧ date ∉ getPending (App.syncEntry_settle s date res t)
  | GitHub.Throw _ =>
      getEntry (App.syncEntry_settle s date res t) date = Some (unsync r)
      ∧ date ∈ getPending (App.syncEntry_settle s date res t)
  end.
Proof.
  unfold getEntry, getEntries, getPending. intros Hr.
  destruct res as [sha1|e]; cbn [App.syncEntry_settle].
  - rewrite QueueFacts.markSynced_entries, QueueFacts.markSynced_pending, Hr.
    rewrite lookup_insert_eq. split; [done|]. tauto.
  - rewrite QueueFacts.markPending_entries, QueueFacts.markPending_pending, Hr.
    rewrite lookup_insert_eq. split; [done|]. by right.
Qed.

Lemma request_record s date md sha0 :
  App.syncEntry_request s date = Some (md, sha0) →
  ∃ r, getEntry s date = Some r ∧ markdown r = Some md ∧ sha r = sha0
       ∧ md ≠ "".
Proof.
  unfold App.syncEntry_request.
  destruct (getEntry s date) as [r|]; [|done].
  destruct (markdown r) as [md'|] eqn:Hmd; [|done].
  destruct (String.eqb md' "") eqn:He; [done|].
  intros [= <- <-]. exists r. repeat split; [done|].
  by apply String.eqb_neq.
Qed.

(** The request of a date depends on its record only. *)
Lemma request_ext s s' date :
  getEntry s' date = getEntry s date →
  App.syncEntry_request s' date = App.syncEntry_request s date.
Proof. intros H. unfold App.syncEntry_request. by rewrite H. Qed.

(** [syncEntry] leaves the other dates alone. *)
Lemma syncEntry_frame (st : @App.State W) date d :
  d ≠ date →
  getEntry (App.store (App.syncEntry put now st date)) d
  = getEntry (App.store st) d
  ∧ (d ∈ getPending (App.store (App.syncEntry put now st date))
     ↔ d ∈ getPending (App.store st)).
Proof.
  intros Hd.
  destruct (App.syncEntry_request (App.store st) date) as [[md sha0]|] eqn:Hreq.
  - rewrite (syncEntry_Some st date md sha0 Hreq). cbn [App.store].
    by apply settle_frame.
  - by rewrite syncEntry_None.
Qed.

Lemma syncEntry_flag (st : @App.State W) date :
  App.syncInProgress (App.syncEntry put now st date) = App.syncInProgress st.
Proof.
  destruct (App.syncEntry_request (App.store st) date) as [[md sha0]|] eqn:Hreq.
  - by rewrite (syncEntry_Some st date md sha0 Hreq).
  - by rewrite syncEntry_None.
Qed.

End Sync.
End SyncFacts.

(** X20.  [syncEntry] settles the date it is given and nothing else.  When
    the cache has no document for the date (no record, or one whose
    document is absent or empty) nothing is sent and nothing changes.
    Otherwise the document and the token of the record are sent; when the
    write returns, the record is marked synced with the token returned and
    the date is off the pending queue; when it throws, the record is
    marked unsynced, document and token kept, and the date is on the
    queue.  Either way the records and the queue membership of the other
    dates are as they were. *)
Theorem syncEntry_settles_the_date {W : Type}
    (put : GitHub.Request → W → GitHub.attempt GitHub.Response * W)
    (now : W → Z) (st : @App.State W) (date : string) :
  let st' := App.syncEntry put now st date in
  match App.syncEntry_request (App.store st) date with
  | None => st' = st
  | Some (md, sha0) =>
      let run := GitHub.saveEntry put date md sha0 (App.env st) in
      App.env st' = GitHub.world run
      ∧ (∀ d, d ≠ date →
              Storage.getEntry (App.store st') d
              = Storage.getEntry (App.store st) d
              ∧ (d ∈ Storage.getPending (App.store st')
                 ↔ d ∈ Storage.getPending (App.store st)))
      ∧ match GitHub.result run with
        | GitHub.Return sha1 =>
            (∃ r, Storage.getEntry (App.store st') date = Some r
                  ∧ Storage.synced r = true
                  ∧ Storage.sha r = Some sha1
                  ∧ Storage.markdown r = Some md)
            ∧ date ∉ Storage.getPending (App.store st')
        | GitHub.Throw _ =>
            (∃ r, Storage.getEntry (App.store st') date = Some r
                  ∧ Storage.synced r = false
                  ∧ Storage.sha r = sha0
                  ∧ Storage.markdown r = Some md)
            ∧ date ∈ Storage.getPending (App.store st')
        end
  end.
Proof.
  cbn zeta.
  destruct (App.syncEntry_request (App.store st) date) as [[md sha0]|] eqn:Hreq.
  2:{ exact (SyncFacts.syncEntry_None put now st date Hreq). }
  split; [by rewrite (SyncFacts.syncEntry_Some put now st date md sha0 Hreq)|].
  split; [intros d Hd; exact (SyncFacts.syncEntry_frame put now st date d Hd)|].
  rewrite (SyncFacts.syncEntry_Some put now st date md sha0 Hreq).
  cbn [App.store].
  apply SyncFacts.request_record in Hreq as (r & Hr & Hmd & Hsha & _).
  pose proof (SyncFacts.settle_date (App.store st) date
                (GitHub.result (GitHub.saveEntry put date md sha0 (App.env st)))
                (now (GitHub.world
                        (GitHub.saveEntry put date md sha0 (App.env st))))
                r Hr) as Hsettle.
  destruct (GitHub.result (GitHub.saveEntry put date md sha0 (App.env st)))
    as [sha1|e]; destruct Hsettle as [-> Hq]; (split; [|exact Hq]);
    eexists; (split; [reflexivity|]); by cbn.
Qed.
(** X21.  [saveCurrentEntry] writes nothing when the form does not
    validate: the state is left as it was.  When the form validates and the
    client is offline, nothing is sent; the cache holds, under the current
    date, the encoded form, the token the record had before (if any), the
    flag unsynced and the time of the save; the date is on the pending
    queue and in both indexes; the other dates are untouched; and the
    editor is no longer dirty. *)
Theorem saveCurrentEntry_offline_or_invalid {W : Type}
    (put : GitHub.Request → W → GitHub.attempt GitHub.Response * W)
    (isOnline : W → bool) (now : W → Z)
    (st : @App.State W) (form : Journal.Entry) :
  let entry := App.getFormData st form in
  let date := App.currentDate st in
  let st' := App.saveCurrentEntry put isOnline now st form in
  ((Journal.validateEntry (Some entry)).1 = false → st' = st)
  ∧ ((Journal.validateEntry (Some entry)).1 = true →
     isOnline (App.env st) = false →
     App.env st' = App.env st
     ∧ Storage.getEntry (App.store st') date
       = Some {| Storage.markdown := Some (Journal.toMarkdown entry);
                 Storage.sha :=
                   or_null (Storage.getEntry (App.store st) date
                              ≫= Storage.sha);
                 Storage.synced := false;
                 Storage.updatedAt := now (App.env st);
                 Storage.syncedAt := None |}
     ∧ date ∈ Storage.getPending (App.store st')
     ∧ (∀ d, d ≠ date →
             Storage.getEntry (App.store st') d
             = Storage.getEntry (App.store st) d
             ∧ (d ∈ Storage.getPending (App.store st')
                ↔ d ∈ Storage.getPending (App.store st)))
     ∧ date ∈ Storage.getIndex (App.store st')
     ∧ Index.hasDate (App.idx st') date = true
     ∧ App.isDirty st' = false).
Proof.
  cbn zeta. unfold App.saveCurrentEntry.
  split; [by intros ->|]. intros -> Hoff. cbn [negb].
  set (date := App.currentDate st).
  set (md := Journal.toMarkdown (App.getFormData st form)).
  set (data := {| Storage.data_markdown := Some md; Storage.data_sha := _;
                  Storage.data_synced := false |}).
  set (s1 := Storage.saveEntry (App.store st) date data (now (App.env st))).
  pose proof (addDate_entries (App.idx st) s1 date) as He.
  pose proof (addDate_pending (App.idx st) s1 date) as Hp.
  assert (date ∈ Storage.getIndex (Index.addDate (App.idx st) s1 date).2
          ∧ Index.hasDate (Index.addDate (App.idx st) s1 date).1 date = true)
    as [Hindex Hhas].
  { unfold Index.addDate, Index.hasDate.
    destruct (Storage.includes_date date (Index._index (App.idx st))) eqn:Hin;
      cbn [negb fst snd].
    - split; [|done]. subst s1.
      unfold Storage.saveEntry, Storage.updateIndex, Storage.getIndex.
      cbn [Storage.index Storage.set_entries].
      destruct (Storage.includes_date date (Storage.index (App.store st)))
        eqn:Hin'; cbn [negb Storage.index Storage.set_index].
      + by apply includes_date_true.
      + apply sort_descending_elem, elem_of_app. right.
        by apply list_elem_of_singleton.
    - cbn [Index._index Index.set_index].
      assert (date ∈ Storage.sort_descending
                       (Index._index (App.idx st) ++ [date])) as Hd.
      { apply sort_descending_elem, elem_of_app. right.
        by apply list_elem_of_singleton. }
      split; [|by apply includes_date_true].
      unfold Storage.setIndex, Storage.getIndex. cbn [Storage.index Storage.set_index].
      by apply sort_descending_elem. }
  destruct (Index.addDate (App.idx st) s1 date) as [i s2].
  cbn [fst snd] in He, Hp, Hindex, Hhas.
  cbn [App.env App.store App.currentDate App.idx App.isDirty].
  rewrite Hoff. cbn [App.with_store App.env App.store App.idx App.isDirty].
  unfold Storage.getEntry, Storage.getEntries, Storage.getPending,
    Storage.getIndex in *.
  assert (Storage.entries s2 !! date
          = Some {| Storage.markdown := Some md;
                    Storage.sha := Storage.data_sha data;
                    Storage.synced := false;
                    Storage.updatedAt := now (App.env st);
                    Storage.syncedAt := None |}) as Hr.
  { rewrite He. subst s1. by rewrite saveEntry_entries, lookup_insert_eq. }
  split; [done|].
  rewrite QueueFacts.markPending_entries, Hr.
  split; [by rewrite lookup_insert_eq|].
  split; [apply QueueFacts.markPending_pending; by right|].
  split.
  { intros d Hd. rewrite lookup_insert_ne by done. rewrite He. subst s1.
    rewrite saveEntry_entries, lookup_insert_ne by done. split; [done|].
    rewrite QueueFacts.markPending_pending, Hp, saveEntry_pending. tauto. }
  split; [|done].
  unfold Storage.markPending, Storage.addPending, Storage.getEntries,
    Storage.getPending.
  rewrite Hr. cbn [Storage.set_entries Storage.pending Storage.index].
  by destruct (Storage.includes_date date (Storage.pending s2)).
Qed.
Module DrainMore.
Import Storage.

Section Drain.
Context {W : Type}.
Variable put : GitHub.Request → W → GitHub.attempt GitHub.Response * W.
Variable now : W → Z.

Local Abbreviation syncEntry := (App.syncEntry put now).

(** A date without a document is passed over by every [syncEntry] of the
    loop. *)
Lemma fold_skips (date : string) (l : list string) : ∀ st : @App.State W,
  App.syncEntry_request (App.store st) date = None →
  getEntry (App.store (fold_left syncEntry l st)) date
  = getEntry (App.store st) date
  ∧ (date ∈ getPending (App.store (fold_left syncEntry l st))
     ↔ date ∈ getPending (App.store st)).
Proof.
  induction l as [|x l IH]; intros st Hnone; [done|].
  cbn [fold_left].
  destruct (decide (x = date)) as [->|Hne].
  - rewrite SyncFacts.syncEntry_None by done. by apply IH.
  - destruct (SyncFacts.syncEntry_frame put now st x date) as [He Hp];
      [done|].
    destruct (IH (syncEntry st x)) as [He' Hp'].
    { by rewrite (SyncFacts.request_ext _ _ _ He). }
    split; [by rewrite He'|]. by rewrite Hp'.
Qed.

(** ** When every write is accepted *)

Hypothesis accepts : ∀ req w, ∃ response w',
  put req w = (GitHub.Resolved response, w') ∧ GitHub.ok response = true.

Lemma saveEntry_returns date md sha0 w :
  ∃ sha1, GitHub.result (GitHub.saveEntry put date md sha0 w)
          = GitHub.Return sha1.
Proof.
  unfold GitHub.saveEntry.
  set (fn := GitHub.putFile put _ _ _ _).
  assert (∃ sha1, (fn w).1 = GitHub.Resolved sha1) as [sha1 Hfn].
  { subst fn. unfold GitHub.putFile.
    match goal with
    | |- context [put ?req w] => destruct (accepts req w) as (r & w' & -> & ->)
    end.
    by eexists. }
  exists sha1. rewrite ClientFacts.withRetry_first; by rewrite Hfn.
Qed.

Lemma syncEntry_accepted (st : @App.State W) (x : string) :
  (∀ d, App.syncEntry_request (App.store (syncEntry st x)) d = None
        ↔ App.syncEntry_request (App.store st) d = None)
  ∧ (∀ d, d ∈ getPending (App.store (syncEntry st x))
          ↔ d ∈ getPending (App.store st)
            ∧ (d ≠ x ∨ App.syncEntry_request (App.store st) x = None))
  ∧ (∀ d r, getEntry (App.store st) d = Some r → synced r = true →
            ∃ r', getEntry (App.store (syncEntry st x)) d = Some r'
                  ∧ synced r' = true)
  ∧ (App.syncEntry_request (App.store st) x ≠ None →
     ∃ r', getEntry (App.store (syncEntry st x)) x = Some r'
           ∧ synced r' = true).
Proof.
  destruct (App.syncEntry_request (App.store st) x) as [[md sha0]|] eqn:Hreq.
  2:{ rewrite SyncFacts.syncEntry_None by done.
      split; [done|]. split; [|split].
      - intros d. split; [intros ?; split; [done|by right]|tauto].
      - intros d r Hr Hs. by exists r.
      - done. }
  pose proof (SyncFacts.syncEntry_Some put now st x md sha0 Hreq) as Hst.
  destruct (saveEntry_returns x md sha0 (App.env st)) as [sha1 Hret].
  rewrite Hret in Hst.
  pose proof Hreq as Hrec.
  apply SyncFacts.request_record in Hrec as (r & Hr & Hmd & Hsha & Hne).
  pose proof (SyncFacts.settle_date (App.store st) x (GitHub.Return sha1)
                (now (GitHub.world (GitHub.saveEntry put x md sha0 (App.env st))))
                r Hr) as [Hx Hq].
  assert (App.store (syncEntry st x)
          = App.syncEntry_settle (App.store st) x (GitHub.Return sha1)
              (now (GitHub.world (GitHub.saveEntry put x md sha0 (App.env st)))))
    as Hstore by (by rewrite Hst).
  rewrite Hstore.
  assert (∀ d, d ≠ x →
            getEntry (App.syncEntry_settle (App.store st) x (GitHub.Return sha1)
                        (now (GitHub.world
                                (GitHub.saveEntry put x md sha0 (App.env st))))) d
            = getEntry (App.store st) d
            ∧ (d ∈ getPending
                     (App.syncEntry_settle (App.store st) x (GitHub.Return sha1)
                        (now (GitHub.world
                                (GitHub.saveEntry put x md sha0 (App.env st)))))
               ↔ d ∈ getPending (App.store st))) as Hframe.
  { intros d Hd. by apply SyncFacts.settle_frame. }
  split; [|split; [|split]].
  - intros d. destruct (decide (d = x)) as [->|Hd].
    + rewrite Hreq. unfold App.syncEntry_request at 1. rewrite Hx.
      cbn [markdown]. rewrite Hmd.
      apply String.eqb_neq in Hne. rewrite Hne. done.
    + destruct (Hframe d Hd) as [He _].
      by rewrite (SyncFacts.request_ext _ _ _ He).
  - intros d. destruct (decide (d = x)) as [->|Hd].
    + split; [done|]. intros [_ [?|?]]; done.
    + destruct (Hframe d Hd) as [_ Hp]. rewrite Hp. tauto.
  - intros d r0 Hr0 Hs. destruct (decide (d = x)) as [->|Hd].
    + rewrite Hx. by eexists.
    + destruct (Hframe d Hd) as [He _]. rewrite He. by exists r0.
  - intros _. rewrite Hx. by eexists.
Qed.

Lemma fold_accepted (l : list string) : ∀ st : @App.State W,
  (∀ d, App.syncEntry_request (App.store (fold_left syncEntry l st)) d = None
        ↔ App.syncEntry_request (App.store st) d = None)
  ∧ (∀ d, d ∈ getPending (App.store (fold_left syncEntry l st))
          ↔ d ∈ getPending (App.store st)
            ∧ (d ∉ l ∨ App.syncEntry_request (App.store st) d = None))
  ∧ (∀ d r, getEntry (App.store st) d = Some r → synced r = true →
            ∃ r', getEntry (App.store (fold_left syncEntry l st)) d = Some r'
                  ∧ synced r' = true)
  ∧ (∀ d, d ∈ l → App.syncEntry_request (App.store st) d ≠ None →
          ∃ r', getEntry (App.store (fold_left syncEntry l st)) d = Some r'
                ∧ synced r' = true).
Proof.
  induction l as [|x l IH]; intros st.
  { split; [done|]. split; [|split].
    - intros d. split; [intros ?; split; [done|left; apply not_elem_of_nil]
                       |tauto].
    - intros d r Hr Hs. by exists r.
    - intros d Hd. by apply elem_of_nil in Hd. }
  cbn [fold_left].
  destruct (syncEntry_accepted st x) as (A1 & B1 & C1 & D1).
  destruct (IH (syncEntry st x)) as (A2 & B2 & C2 & D2).
  split; [|split; [|split]].
  - intros d. rewrite A2. apply A1.
  - intros d. rewrite B2, B1, A1, not_elem_of_cons.
    destruct (decide (d = x)) as [->|Hd]; tauto.
  - intros d r Hr Hs. destruct (C1 d r Hr Hs) as (r1 & Hr1 & Hs1).
    by apply (C2 d r1).
  - intros d Hd Hreq. apply elem_of_cons in Hd as [->|Hd].
    + destruct (D1 Hreq) as (r1 & Hr1 & Hs1). by apply (C2 x r1).
    + apply D2; [done|]. by rewrite A1.
Qed.

End Drain.

Section Machine.
Context {W : Type}.
Variable put : GitHub.Request → W → GitHub.attempt GitHub.Response * W.
Variable isOnline : W → bool.
Variable now : W → Z.

(** Resuming a drain that suspended on the state it resumes in is running
    [syncEntry] on its date and going on with the loop. *)
Lemma resume_is_syncEntry (st : @App.State W) (x : string) (rest : list string) :
  App.drain_resume put now st
    {| App.current := x;
       App.request := App.syncEntry_request (App.store st) x;
       App.rest := rest |}
  = App.drain_next (App.syncEntry put now st x) rest.
Proof.
  unfold App.drain_resume, App.syncEntry. cbn [App.request App.current App.rest].
  by destruct (App.syncEntry_request (App.store st) x) as [[md sha0]|].
Qed.

Lemma run_drain (rest : list string) : ∀ (st : @App.State W) (x : string),
  App.run put isOnline now
    {| App.app := st;
       App.drains :=
         [{| App.current := x;
             App.request := App.syncEntry_request (App.store st) x;
             App.rest := rest |}] |}
    (replicate (S (length rest)) (App.Resume 0))
  = {| App.app :=
         App.with_flag
           (fold_left (App.syncEntry put now) (x :: rest) st) false;
       App.drains := [] |}.
Proof.
  induction rest as [|y rest IH]; intros st x.
  - cbn [length replicate App.run fold_left App.step App.app App.drains
         lookup list_lookup].
    rewrite resume_is_syncEntry. reflexivity.
  - change (replicate (S (length (y :: rest))) (App.Resume 0))
      with (App.Resume 0 :: replicate (S (length rest)) (@App.Resume W 0)).
    unfold App.run. cbn [fold_left]. fold (App.run put isOnline now).
    cbn [App.step App.app App.drains lookup list_lookup].
    rewrite resume_is_syncEntry. cbn [App.drain_next].
    cbn [insert list_insert]. apply IH.
Qed.

Lemma run_no_drain (st : @App.State W) (n : nat) :
  App.run put isOnline now {| App.app := st; App.drains := [] |}
    (replicate n (App.Resume 0))
  = {| App.app := st; App.drains := [] |}.
Proof. induction n as [|n IH]; [done|exact IH]. Qed.

End Machine.
End DrainMore.

(** X22.  A drain passes over a queued date that has no document in the
    cache (no record, as after [deleteEntry], or a record whose document is
    absent or empty): whatever the answers of the store to the other
    writes, the date is on the queue after the drain exactly when it was
    before, and its record is as it was.  Such a date is never taken off
    the queue by a drain. *)
Theorem drain_skips_dates_without_document {W : Type}
    (put : GitHub.Request → W → GitHub.attempt GitHub.Response * W)
    (isOnline : W → bool) (now : W → Z)
    (st : @App.State W) (date : string)
    (Hnone : App.syncEntry_request (App.store st) date = None) :
  let st' := App.syncPendingEntries put isOnline now st in
  Storage.getEntry (App.store st') date = Storage.getEntry (App.store st) date
  ∧ (date ∈ Storage.getPending (App.store st')
     ↔ date ∈ Storage.getPending (App.store st)).
Proof.
  cbn zeta. unfold App.syncPendingEntries.
  destruct (App.syncInProgress st || negb (isOnline (App.env st))); [done|].
  destruct (length (Storage.getPending (App.store st)) =? 0)%nat; [done|].
  cbn [App.with_flag App.store].
  exact (DrainMore.fold_skips put now date
           (Storage.getPending (App.store st)) (App.with_flag st true) Hnone).
Qed.

(** X22, an instance: a date that was queued and then deleted from the
    cache stays on the queue through a drain. *)
Lemma drain_skips_dates_without_document_witness :
  let st :=
    {| App.store :=
         Storage.deleteEntry
           (Storage.markPending
              (Storage.saveEntry Storage.empty "2025-01-01"
                 Examples.unsynced_text 0) "2025-01-01") "2025-01-01";
       App.idx := Index.init Storage.empty;
       App.currentDate := "2025-01-01";
       App.isDirty := false;
       App.syncInProgress := false;
       App.env := Examples.remote0 |} in
  "2025-01-01"
  ∈ Storage.getPending
      (App.store
         (App.syncPendingEntries (Examples.remote_put Examples.token)
            Examples.online Examples.midnight st)).
Proof.
  intros st.
  apply (drain_skips_dates_without_document
           (Examples.remote_put Examples.token) Examples.online
           Examples.midnight st "2025-01-01" eq_refl).
  apply list_elem_of_here.
Defined.

(** X23.  When the client is online, no drain is in flight and the store
    accepts every write, a drain syncs everything that can be synced: the
    dates left on the queue are exactly the queued dates that have no
    document in the cache, every queued date that has one ends up with a
    record marked synced, records that were synced stay synced, and the
    flag is down again at the end. *)
Theorem drain_syncs_all_when_accepted {W : Type}
    (put : GitHub.Request → W → GitHub.attempt GitHub.Response * W)
    (isOnline : W → bool) (now : W → Z) (st : @App.State W)
    (Hidle : App.syncInProgress st = false)
    (Honline : isOnline (App.env st) = true)
    (Haccepts : ∀ req w, ∃ response w',
        put req w = (GitHub.Resolved response, w')
        ∧ GitHub.ok response = true) :
  let st' := App.syncPendingEntries put isOnline now st in
  (∀ d, d ∈ Storage.getPending (App.store st')
        ↔ d ∈ Storage.getPending (App.store st)
          ∧ App.syncEntry_request (App.store st) d = None)
  ∧ (∀ d, d ∈ Storage.getPending (App.store st) →
          App.syncEntry_request (App.store st) d ≠ None →
          ∃ r, Storage.getEntry (App.store st') d = Some r
               ∧ Storage.synced r = true)
  ∧ (∀ d r, Storage.getEntry (App.store st) d = Some r →
            Storage.synced r = true →
            ∃ r', Storage.getEntry (App.store st') d = Some r'
                  ∧ Storage.synced r' = true)
  ∧ App.syncInProgress st' = false.
Proof.
  cbn zeta. unfold App.syncPendingEntries. rewrite Hidle, Honline. cbn [orb negb].
  destruct (length (Storage.getPending (App.store st)) =? 0)%nat eqn:Hlen.
  { apply Nat.eqb_eq, length_zero_iff_nil in Hlen. rewrite Hlen.
    split; [|split; [|split]]; try done.
    - intros d. split; [by intros ?%elem_of_nil|by intros [?%elem_of_nil _]].
    - intros d ?%elem_of_nil. done.
    - intros d r Hr Hs. by exists r. }
  cbn [App.with_flag App.store App.syncInProgress].
  destruct (DrainMore.fold_accepted put now Haccepts
              (Storage.getPending (App.store st)) (App.with_flag st true))
    as (_ & B & C & D).
  cbn [App.with_flag App.store] in B, C, D.
  split; [|split; [|split]]; [|exact D|exact C|done].
  intros d. rewrite B. tauto.
Qed.

(** X24.  The drain run in one piece and the drain run as a task of the
    event loop end in the same state: a trigger followed by as many
    resumptions as there are dates on the queue, with nothing in between,
    leaves the application as [syncPendingEntries] leaves it, and no drain
    suspended. *)
Theorem drain_runs_as_its_steps {W : Type}
    (put : GitHub.Request → W → GitHub.attempt GitHub.Response * W)
    (isOnline : W → bool) (now : W → Z) (st : @App.State W) :
  App.run put isOnline now {| App.app := st; App.drains := [] |}
    (App.Trigger
     :: replicate (length (Storage.getPending (App.store st))) (App.Resume 0))
  = {| App.app := App.syncPendingEntries put isOnline now st;
       App.drains := [] |}.
Proof.
  unfold App.run. cbn [fold_left]. fold (App.run put isOnline now).
  cbn [App.step App.app App.drains].
  unfold App.syncPendingEntries_call, App.syncPendingEntries.
  destruct (App.syncInProgress st || negb (isOnline (App.env st))).
  { cbn [app]. apply DrainMore.run_no_drain. }
  destruct (Storage.getPending (App.store st)) as [|x rest] eqn:Hp.
  { cbn [length Nat.eqb replicate]. reflexivity. }
  cbn [length Nat.eqb App.drain_next app].
  exact (DrainMore.run_drain put isOnline now rest (App.with_flag st true) x).
Qed.
(** X23, an instance: one queued date and a store that accepts the
    write. *)
Lemma drain_syncs_all_when_accepted_witness :
  "2025-01-01"
  ∉ Storage.getPending
      (App.store
         (App.syncPendingEntries Examples.accepting Examples.online
            Examples.midnight Examples.one_pending)).
Proof.
  assert (∀ req w, ∃ response w',
            Examples.accepting req w = (GitHub.Resolved response, w')
            ∧ GitHub.ok response = true) as Haccepts.
  { intros req w. by eexists _, w. }
  destruct (drain_syncs_all_when_accepted Examples.accepting Examples.online
              Examples.midnight Examples.one_pending eq_refl eq_refl Haccepts)
    as (Hqueue & _).
  intros Hin. apply Hqueue in Hin as [_ Hreq]. discriminate Hreq.
Defined.

(** X25.  [refreshIndex] replaces the index by the remote listing and
    touches nothing else: the cached records and the pending queue are as
    they were; when the listing throws, the error is swallowed and the
    index stays; when it returns, the in-memory index and the stored index
    are both the dates listed, so a date that is only in the cache is no
    longer in the index although its record and its place in the queue
    remain. *)
Theorem refreshIndex_replaces_the_index {W : Type}
    (dir : string → W → GitHub.attempt GitHub.ListResponse * W)
    (st : @App.State W) :
  let run := GitHub.listEntries dir (App.env st) in
  let st' := App.refreshIndex dir st in
  Storage.getEntries (App.store st') = Storage.getEntries (App.store st)
  ∧ Storage.getPending (App.store st') = Storage.getPending (App.store st)
  ∧ App.env st' = GitHub.world run
  ∧ match GitHub.result run with
    | GitHub.Return dates =>
        Index._index (App.idx st') = dates
        ∧ Storage.getIndex (App.store st') = dates
    | GitHub.Throw _ =>
        App.store st' = App.store st ∧ App.idx st' = App.idx st
    end.
Proof.
  cbn zeta. unfold App.refreshIndex, GitHub.listEntries.
  cbn [GitHub.result GitHub.world].
  destruct (GitHub.result
              (GitHub.withRetry (GitHub.listFiles dir "entries")
                 GitHub.DEFAULT_MAX_RETRIES (App.env st))) as [files|e].
  2:{ by cbn. }
  unfold Index.setDates.
  cbn [App.with_env App.store App.idx App.env Index._index Index.set_index].
  pose proof (CacheFacts.newest_first_sort
                (List.filter date_pattern
                   (List.map (λ f, remove_first ".md" (GitHub.item_name f))
                      (List.filter
                         (λ f, String.eqb (GitHub.item_type f) "file"
                               && endsWith ".md" (GitHub.item_name f)
                               && negb (String.eqb (GitHub.item_name f)
                                          ".gitkeep"))
                         files)))) as Hsorted.
  fold (GitHub.entry_dates files) in Hsorted.
  rewrite (CacheFacts.sort_descending_fixed _ Hsorted).
  split; [done|]. split; [done|]. split; [done|]. split; [done|].
  by apply StepFacts.setIndex_sorted.
Qed.

(* ===================================================================== *)
(** * The relative time label (ui.js) *)
(* ===================================================================== *)

(** X27.  The label of [formatRelativeTime] goes by the age of the
    timestamp in milliseconds.  Below one minute, and for a timestamp in
    the future, it is 'Just now'; from one minute to one hour it counts
    whole minutes, from 1 to 59; from one hour to one day whole hours, from
    1 to 23; from one day to one week whole days, '1 day ago' and then
    '2 days ago' to '6 days ago'; from one week on it is the date of the
    timestamp. *)
Theorem formatRelativeTime_by_age (now timestamp : Z) :
  let age := now - timestamp in
  let label := UI.formatRelativeTime now timestamp in
  (age < 60000 → label = UI.Label "Just now")
  ∧ (60000 ≤ age < 3600000 →
     label = UI.Label (NumberToString (Fin (age / 60000)) ++ " min ago")
     ∧ 1 ≤ age / 60000 ≤ 59)
  ∧ (3600000 ≤ age < 86400000 →
     label = UI.Label (NumberToString (Fin (age / 3600000)) ++ " hr ago")
     ∧ 1 ≤ age / 3600000 ≤ 23)
  ∧ (86400000 ≤ age < 172800000 → label = UI.Label "1 day ago")
  ∧ (172800000 ≤ age < 604800000 →
     label = UI.Label (NumberToString (Fin (age / 86400000)) ++ " days ago")
     ∧ 2 ≤ age / 86400000 ≤ 6)
  ∧ (604800000 ≤ age → label = UI.LocaleDate timestamp).
Proof.
  cbn zeta. unfold UI.formatRelativeTime. cbn zeta.
  set (age := now - timestamp).
  assert ((age / 1000) / 60 = age / 60000) as Hm
    by (Z.div_mod_to_equations; lia).
  assert (age / 60000 / 60 = age / 3600000) as Hh
    by (Z.div_mod_to_equations; lia).
  assert (age / 3600000 / 24 = age / 86400000) as Hd
    by (Z.div_mod_to_equations; lia).
  rewrite Hm, Hh, Hd.
  assert ((age / 1000 <? 60) = (age <? 60000)) as ->.
  { destruct (Z.ltb_spec (age / 1000) 60), (Z.ltb_spec age 60000);
      Z.div_mod_to_equations; lia. }
  assert ((age / 60000 <? 60) = (age <? 3600000)) as ->.
  { destruct (Z.ltb_spec (age / 60000) 60), (Z.ltb_spec age 3600000);
      Z.div_mod_to_equations; lia. }
  assert ((age / 3600000 <? 24) = (age <? 86400000)) as ->.
  { destruct (Z.ltb_spec (age / 3600000) 24), (Z.ltb_spec age 86400000);
      Z.div_mod_to_equations; lia. }
  assert ((age / 86400000 <? 7) = (age <? 604800000)) as ->.
  { destruct (Z.ltb_spec (age / 86400000) 7), (Z.ltb_spec age 604800000);
      Z.div_mod_to_equations; lia. }
  repeat apply conj.
  - intros H. destruct (Z.ltb_spec age 60000); [done|lia].
  - intros [H1 H2]. destruct (Z.ltb_spec age 60000); [lia|].
    destruct (Z.ltb_spec age 3600000); [|lia].
    split; [done|]. Z.div_mod_to_equations. lia.
  - intros [H1 H2]. destruct (Z.ltb_spec age 60000); [lia|].
    destruct (Z.ltb_spec age 3600000); [lia|].
    destruct (Z.ltb_spec age 86400000); [|lia].
    split; [done|]. Z.div_mod_to_equations. lia.
  - intros [H1 H2]. destruct (Z.ltb_spec age 60000); [lia|].
    destruct (Z.ltb_spec age 3600000); [lia|].
    destruct (Z.ltb_spec age 86400000); [lia|].
    destruct (Z.ltb_spec age 604800000); [|lia].
    assert (age / 86400000 = 1) as -> by (Z.div_mod_to_equations; lia).
    reflexivity.
  - intros [H1 H2]. destruct (Z.ltb_spec age 60000); [lia|].
    destruct (Z.ltb_spec age 3600000); [lia|].
    destruct (Z.ltb_spec age 86400000); [lia|].
    destruct (Z.ltb_spec age 604800000); [|lia].
    assert (2 ≤ age / 86400000 ≤ 6) as Hb by (Z.div_mod_to_equations; lia).
    split; [|exact Hb].
    destruct (Z.ltb_spec 1 (age / 86400000)); [reflexivity|lia].
  - intros H. destruct (Z.ltb_spec age 60000); [lia|].
    destruct (Z.ltb_spec age 3600000); [lia|].
    destruct (Z.ltb_spec age 86400000); [lia|].
    destruct (Z.ltb_spec age 604800000); [lia|done].
Qed.

(* ===================================================================== *)
(** * Export and restore (export.js) *)
(* ===================================================================== *)

Module ExportFacts.
Import ExportMod.

Lemma export_one_exported cache acc date :
  export_one cache acc date
  = match exported cache date with
    | Some e => <[date := e]> acc
    | None => acc
    end.
Proof.
  unfold export_one, exported. destruct (cache !! date) as [entry|]; [|done].
  destruct (Storage.markdown entry) as [md|]; [|done].
  by destruct (String.eqb md "").
Qed.

Lemma export_one_lookup cache acc date d :
  export_one cache acc date !! d
  = if bool_decide (d = date)
    then match exported cache d with Some e => Some e | None => acc !! d end
    else acc !! d.
Proof.
  rewrite export_one_exported. case_bool_decide as Hd.
  - subst d. destruct (exported cache date); [by rewrite lookup_insert_eq|done].
  - destruct (exported cache date); [by rewrite lookup_insert_ne|done].
Qed.

(** What the loop over the index leaves under a date. *)
Lemma export_fold cache (l : list string) : ∀ acc d,
  fold_left (export_one cache) l acc !! d
  = if bool_decide (d ∈ l)
    then match exported cache d with Some e => Some e | None => acc !! d end
    else acc !! d.
Proof.
  induction l as [|x l IH]; intros acc d.
  { by rewrite bool_decide_eq_false_2 by apply not_elem_of_nil. }
  cbn [fold_left]. rewrite IH, export_one_lookup.
  destruct (decide (d = x)) as [->|Hne].
  - rewrite (bool_decide_eq_true_2 (x = x)) by done.
    rewrite (bool_decide_eq_true_2 (x ∈ x :: l)) by apply list_elem_of_here.
    destruct (exported cache x); by case_bool_decide.
  - rewrite (bool_decide_eq_false_2 (d = x)) by done.
    assert (bool_decide (d ∈ x :: l) = bool_decide (d ∈ l)) as ->; [|done].
    apply bool_decide_ext. rewrite elem_of_cons. tauto.
Qed.

Lemma export_fold_size cache (l : list string) : ∀ acc,
  (size (fold_left (export_one cache) l acc) ≤ size acc + length l)%nat.
Proof.
  induction l as [|x l IH]; intros acc; cbn [fold_left length]; [lia|].
  etrans; [apply IH|]. rewrite export_one_exported.
  destruct (exported cache x) as [e|]; [|lia].
  pose proof (map_size_insert x e acc) as Hs.
  destruct (acc !! x); simpl in Hs; lia.
Qed.

Lemma exported_has_document s d :
  is_Some (exported (Storage.getEntries s) d) ↔ has_document s d.
Proof.
  unfold exported, has_document, Storage.getEntry.
  destruct (Storage.getEntries s !! d) as [r|].
  2:{ split; [by intros [? ?]|by intros (r & md & ? & _)]. }
  destruct (Storage.markdown r) as [md|] eqn:Hmd.
  2:{ split; [by intros [? ?]|]. intros (r' & md & [= <-] & Hmd' & _).
      congruence. }
  destruct (String.eqb_spec md "") as [->|Hne].
  - split; [by intros [? ?]|]. intros (r' & md & [= <-] & Hmd' & Hne).
    congruence.
  - split; [|by eexists]. intros _. by exists r, md.
Qed.

(** What [exportAsJSON] leaves under a date. *)
Lemma ex_entries_lookup i s stamp d :
  ex_entries (exportAsJSON i s stamp) !! d
  = if bool_decide (d ∈ Index._index i)
    then exported (Storage.getEntries s) d else None.
Proof.
  unfold exportAsJSON, Index.getAllDates. cbn [ex_entries].
  rewrite export_fold, lookup_empty.
  case_bool_decide; [|done].
  by destruct (exported (Storage.getEntries s) d).
Qed.

Lemma ex_entries_dom i s stamp d :
  is_Some (ex_entries (exportAsJSON i s stamp) !! d)
  ↔ d ∈ Index._index i ∧ has_document s d.
Proof.
  rewrite ex_entries_lookup. case_bool_decide as Hin.
  - rewrite exported_has_document. tauto.
  - split; [by intros [? ?]|tauto].
Qed.

End ExportFacts.

(** X28.  [exportAsJSON] exports the documents of the indexed dates and
    nothing else: a date is a key of the exported [entries] exactly when it
    is in the index and the cache holds a document for it (a record whose
    document is present and not empty), and its value is that document with
    the flag, the token and the time of the record.  [totalEntries] counts
    the index, so it is at least the number of entries exported and may
    exceed it. *)
Theorem exportAsJSON_exports_documents (i : Index.State) (s : Storage.Store)
    (stamp : string) :
  let data := ExportMod.exportAsJSON i s stamp in
  (∀ d, ExportMod.ex_entries data !! d
        = if bool_decide (d ∈ Index._index i)
          then ExportMod.exported (Storage.getEntries s) d else None)
  ∧ (∀ d, is_Some (ExportMod.ex_entries data !! d)
          ↔ d ∈ Index._index i ∧ ExportMod.has_document s d)
  ∧ ExportMod.totalEntries data = Z.of_nat (length (Index._index i))
  ∧ Z.of_nat (size (ExportMod.ex_entries data)) ≤ ExportMod.totalEntries data.
Proof.
  cbn zeta. split; [apply ExportFacts.ex_entries_lookup|].
  split; [apply ExportFacts.ex_entries_dom|].
  unfold ExportMod.exportAsJSON, Index.getAllDates.
  cbn [ExportMod.ex_entries ExportMod.totalEntries].
  split; [done|].
  pose proof (ExportFacts.export_fold_size (Storage.getEntries s)
                (Index._index i) ∅) as Hsize.
  rewrite map_size_empty in Hsize. lia.
Qed.

Module RestoreFacts.
Import Storage ExportMod.

Lemma import_one_pending acc item t :
  pending (store_of (import_one acc item t)) = pending (store_of acc).
Proof.
  destruct acc as [[c i] s], item as [date entry].
  unfold import_one, store_of. cbn [snd].
  destruct (negb (date_pattern date)); [done|].
  assert (∀ s1 : Store, pending s1 = pending s →
            pending
              (let '(i0, s0) := Index.addDate i s1 date in
               ({| imported := S (imported c); skipped := skipped c |}, i0, s0)).2
            = pending s) as Hadd.
  { intros s1 Hs1. pose proof (addDate_pending i s1 date) as Hp.
    destruct (Index.addDate i s1 date) as [i0 s0]. cbn in Hp |- *. congruence. }
  destruct (getEntry s date) as [existing|].
  - destruct (synced existing); [done|].
    apply Hadd, saveEntry_pending.
  - apply Hadd, saveEntry_pending.
Qed.

(** An import into a cache without synced records takes every entry
    whose key has the shape of a date. *)
Lemma import_loop_fresh items clock : ∀ k acc,
  NoDup items.*1 →
  (∀ x, x ∈ items → date_pattern x.1 = true) →
  (∀ d, synced_in (store_of acc) d = false) →
  (∀ d e, (d, e) ∈ items →
          ∃ t, getEntry (store_of (import_loop items clock k acc)) d
               = Some {| Storage.markdown := markdown e;
                         Storage.sha := or_null (sha e);
                         synced := false; updatedAt := t;
                         syncedAt := None |})
  ∧ (∀ d, d ∉ items.*1 →
          getEntry (store_of (import_loop items clock k acc)) d
          = getEntry (store_of acc) d)
  ∧ pending (store_of (import_loop items clock k acc))
    = pending (store_of acc).
Proof.
  induction items as [|[d0 e0] items IH]; intros k acc Hnd Hshape Hfresh.
  { split; [|done]. intros d e Hin. by apply elem_of_nil in Hin. }
  cbn [fmap list_fmap fst] in Hnd. apply NoDup_cons in Hnd as [Hd0 Hnd].
  cbn [import_loop].
  set (acc1 := import_one acc (d0, e0) (clock k)).
  assert (entries (store_of acc1)
          = <[d0 := {| Storage.markdown := markdown e0;
                       Storage.sha := or_null (sha e0);
                       synced := false; updatedAt := clock k;
                       syncedAt := None |}]> (entries (store_of acc)))
    as Hentries.
  { destruct (ImportFacts.import_one_cases acc (d0, e0) (clock k))
      as [(Hpass & _)|(_ & He & _)]; [|exact He].
    pose proof (Hshape (d0, e0) ltac:(apply list_elem_of_here)) as Hd.
    unfold passed_over in Hpass. cbn [fst] in Hpass, Hd.
    rewrite Hfresh, Hd in Hpass. done. }
  destruct (IH (S k) acc1 Hnd) as (Hin & Hout & Hpend).
  { intros x Hx. apply Hshape. by apply list_elem_of_further. }
  { intros d. subst acc1. by rewrite ImportFacts.import_one_synced_in. }
  split; [|split].
  - intros d e Hde. apply elem_of_cons in Hde as [[= -> ->]|Hde].
    + exists (clock k). rewrite (Hout d0 Hd0).
      unfold getEntry, getEntries. by rewrite Hentries, lookup_insert_eq.
    + by apply Hin.
  - intros d Hd. cbn [fmap list_fmap fst] in Hd.
    apply not_elem_of_cons in Hd as [Hne Hd].
    rewrite (Hout d Hd). unfold getEntry, getEntries.
    by rewrite Hentries, lookup_insert_ne.
  - rewrite Hpend. subst acc1. apply import_one_pending.
Qed.

End RestoreFacts.

(** X29.  A backup restores.  Take the entries object that [exportAsJSON]
    builds from an index of well-formed dates, read back through JSON in
    whatever order its keys come, and import it into an empty cache.  Then
    every exported entry is imported and none is skipped; the cache holds,
    for each indexed date that had a document, that document and that
    token, marked unsynced; it holds a record for no other date; and the
    pending queue is empty: what was restored is not queued for sync. *)
Theorem export_then_import_restores (i : Index.State) (s : Storage.Store)
    (stamp : string) (items : list (string * ExportMod.Imported))
    (clock : nat → Z)
    (Hshape : ∀ d, d ∈ Index._index i → date_pattern d = true)
    (Hitems : items ≡ₚ map_to_list
                         (ExportMod.reimported
                          <$> ExportMod.ex_entries
                                (ExportMod.exportAsJSON i s stamp))) :
  let res :=
    ExportMod.importFromJSON items clock (Index.init Storage.empty)
      Storage.empty in
  (∀ d r md,
     d ∈ Index._index i → Storage.getEntry s d = Some r →
     Storage.markdown r = Some md → md ≠ "" →
     ∃ t, Storage.getEntry res.2 d
          = Some {| Storage.markdown := Some md;
                    Storage.sha := or_null (Storage.sha r);
                    Storage.synced := false;
                    Storage.updatedAt := t;
                    Storage.syncedAt := None |})
  ∧ (∀ d, is_Some (Storage.getEntry res.2 d) →
          d ∈ Index._index i ∧ ExportMod.has_document s d)
  ∧ Storage.getPending res.2 = []
  ∧ ExportMod.imported res.1.1
    = size (ExportMod.ex_entries (ExportMod.exportAsJSON i s stamp))
  ∧ ExportMod.skipped res.1.1 = 0%nat.
Proof.
  cbn zeta.
  pose proof (ExportFacts.ex_entries_lookup i s stamp) as Hlookup.
  pose proof (ExportFacts.ex_entries_dom i s stamp) as Hdom.
  set (M := ExportMod.ex_entries (ExportMod.exportAsJSON i s stamp)) in *.
  assert (∀ d e, (d, e) ∈ items
                 ↔ (ExportMod.reimported <$> M) !! d = Some e) as Hmem.
  { intros d e. rewrite Hitems. apply elem_of_map_to_list. }
  assert (NoDup items.*1) as Hnd.
  { rewrite Hitems. apply NoDup_fst_map_to_list. }
  assert (∀ x, x ∈ items → date_pattern x.1 = true) as Hdates.
  { intros [d e] Hx. apply Hmem in Hx. cbn [fst]. apply Hshape.
    rewrite lookup_fmap in Hx.
    destruct (M !! d) as [e'|] eqn:He'; [|done].
    by apply (Hdom d). }
  unfold ExportMod.importFromJSON.
  destruct (RestoreFacts.import_loop_fresh items clock 0
              ({| ExportMod.imported := 0; ExportMod.skipped := 0 |},
               Index.init Storage.empty, Storage.empty) Hnd Hdates)
    as (Hin & Hout & Hpend).
  { intros d. reflexivity. }
  pose proof (ImportFacts.import_loop_counts items clock 0
                ({| ExportMod.imported := 0; ExportMod.skipped := 0 |},
                 Index.init Storage.empty, Storage.empty)) as [Hskip Himp].
  unfold ExportMod.store_of, ExportMod.counts_of in *.
  cbn [fst snd ExportMod.imported ExportMod.skipped] in *.
  assert (List.filter (ExportMod.passed_over Storage.empty) items = [])
    as Hnone.
  { clear -Hdates. induction items as [|x items IH]; [done|].
    cbn [List.filter]. unfold ExportMod.passed_over at 1.
    rewrite (Hdates x) by apply list_elem_of_here. cbn.
    apply IH. intros y Hy. apply Hdates. by apply list_elem_of_further. }
  assert (List.filter (λ x, negb (ExportMod.passed_over Storage.empty x)) items
          = items) as Hall.
  { clear -Hdates. induction items as [|x items IH]; [done|].
    cbn [List.filter]. unfold ExportMod.passed_over at 1.
    rewrite (Hdates x) by apply list_elem_of_here. cbn. f_equal.
    apply IH. intros y Hy. apply Hdates. by apply list_elem_of_further. }
  rewrite Hnone in Hskip. rewrite Hall in Himp.
  split; [|split; [|split; [|split]]].
  - intros d r md Hd Hr Hmd Hne.
    assert (M !! d = Some {| ExportMod.ex_markdown := md;
                             ExportMod.ex_synced := Storage.synced r;
                             ExportMod.ex_sha := Storage.sha r;
                             ExportMod.ex_updatedAt := Storage.updatedAt r |})
      as HM.
    { rewrite Hlookup, bool_decide_eq_true_2 by done.
      unfold ExportMod.exported. unfold Storage.getEntry in Hr.
      rewrite Hr, Hmd. apply String.eqb_neq in Hne. by rewrite Hne. }
    destruct (Hin d (ExportMod.reimported
                       {| ExportMod.ex_markdown := md;
                          ExportMod.ex_synced := Storage.synced r;
                          ExportMod.ex_sha := Storage.sha r;
                          ExportMod.ex_updatedAt := Storage.updatedAt r |}))
      as [t Ht].
    { apply Hmem. by rewrite lookup_fmap, HM. }
    exists t. exact Ht.
  - intros d Hsome. apply Hdom.
    destruct (decide (d ∈ items.*1)) as [Hd|Hd].
    + apply list_elem_of_fmap in Hd as ([d' e] & -> & Hde).
      apply Hmem in Hde. cbn [fst]. rewrite lookup_fmap in Hde.
      destruct (M !! d') as [e'|]; [by eexists|done].
    + rewrite (Hout d Hd) in Hsome. by destruct Hsome.
  - exact Hpend.
  - rewrite Himp. cbn. rewrite (Permutation_length Hitems).
    by rewrite length_map_to_list, map_size_fmap.
  - exact Hskip.
Qed.

(** X29, an instance: a cache with one synced record, exported and
    imported into an empty cache. *)
Lemma export_then_import_restores_witness :
  let s :=
    Storage.saveEntry Storage.empty "2025-01-02"
      {| Storage.data_markdown := Some "text";
         Storage.data_sha := Some "abc";
         Storage.data_synced := true |} 5 in
  let res :=
    ExportMod.importFromJSON
      [("2025-01-02",
        {| ExportMod.markdown := Some "text"; ExportMod.sha := Some "abc" |})]
      (λ _, 7) (Index.init Storage.empty) Storage.empty in
  (∀ d, d ∈ Index._index (Index.init s) → date_pattern d = true)
  ∧ Storage.getPending res.2 = []
  ∧ ExportMod.imported res.1.1 = 1%nat
  ∧ ExportMod.skipped res.1.1 = 0%nat.
Proof.
  cbn zeta.
  set (s := Storage.saveEntry Storage.empty "2025-01-02"
              {| Storage.data_markdown := Some "text";
                 Storage.data_sha := Some "abc";
                 Storage.data_synced := true |} 5).
  assert (∀ d, d ∈ Index._index (Index.init s) → date_pattern d = true)
    as Hshape.
  { intros d Hd. vm_compute in Hd.
    apply list_elem_of_singleton in Hd as ->. reflexivity. }
  split; [exact Hshape|].
  destruct (export_then_import_restores (Index.init s) s "2025-01-03T00:00:00.000Z"
              [("2025-01-02",
                {| ExportMod.markdown := Some "text";
                   ExportMod.sha := Some "abc" |})]
              (λ _, 7) Hshape)
    as (_ & _ & Hpending & Himported & Hskipped).
  { by vm_compute. }
  split; [exact Hpending|]. split; [|exact Hskipped].
  rewrite Himported. by vm_compute.
Defined.

(* ===================================================================== *)
(** * The archive (export.js) *)
(* ===================================================================== *)

Module ZipFacts.
Import ExportMod.

Lemma length_write_bytes bytes : ∀ buffer pos,
  length (write_bytes buffer pos bytes) = length buffer.
Proof.
  induction bytes as [|b rest IH]; intros buffer pos; cbn [write_bytes];
    [done|].
  by rewrite IH, length_insert.
Qed.

Lemma write_bytes_app_r bytes : ∀ (a b : list Z),
  length b = length bytes →
  write_bytes (a ++ b) (length a) bytes = (a ++ bytes)%list.
Proof.
  induction bytes as [|x rest IH]; intros a b Hlen; destruct b as [|y b];
    try discriminate Hlen; cbn [write_bytes].
  - done.
  - rewrite insert_app_r_alt by lia. rewrite Nat.sub_diag.
    cbn [list_insert insert].
    rewrite (cons_middle x a b), (cons_middle x a rest), !app_assoc.
    replace (S (length a)) with (length (a ++ [x])%list)
      by (rewrite length_app; cbn; lia).
    apply IH. cbn in Hlen. lia.
Qed.

Lemma write_bytes_cons bytes : ∀ (x : Z) l pos,
  write_bytes (x :: l) (S pos) bytes = x :: write_bytes l pos bytes.
Proof.
  induction bytes as [|b rest IH]; intros x l pos; cbn [write_bytes]; [done|].
  apply IH.
Qed.

Lemma write_bytes_fill bytes :
  write_bytes (replicate (length bytes) 0) 0 bytes = bytes.
Proof.
  apply (write_bytes_app_r bytes [] (replicate (length bytes) 0)).
  apply length_replicate.
Qed.

Ltac header :=
  unfold setUint32, setUint16, Uint8Array_set, Uint8Array, write_within;
  cbn; rewrite ?length_replicate, ?Nat.leb_refl; f_equal;
  rewrite ?write_bytes_cons; by rewrite ?write_bytes_fill.

Lemma localHeader_eq nb cb :
  localHeader nb cb
  = Some (u32le 0x04034b50 ++ u16le 20 ++ u16le 0 ++ u16le 0 ++ u16le 0
          ++ u16le 0 ++ u32le 0 ++ u32le (Z.of_nat (length cb))
          ++ u32le (Z.of_nat (length cb)) ++ u16le (Z.of_nat (length nb))
          ++ u16le 0 ++ nb)%list.
Proof. unfold localHeader. header. Qed.

Lemma cdHeader_eq nb cb offset :
  cdHeader nb cb offset
  = Some (u32le 0x02014b50 ++ u16le 20 ++ u16le 20 ++ u16le 0 ++ u16le 0
          ++ u16le 0 ++ u16le 0 ++ u32le 0 ++ u32le (Z.of_nat (length cb))
          ++ u32le (Z.of_nat (length cb)) ++ u16le (Z.of_nat (length nb))
          ++ u16le 0 ++ u16le 0 ++ u16le 0 ++ u16le 0 ++ u32le 0
          ++ u32le offset ++ nb)%list.
Proof. unfold cdHeader. header. Qed.

Lemma endRecord_eq count cdSize offset :
  endRecord count cdSize offset
  = Some (u32le 0x06054b50 ++ u16le 0 ++ u16le 0 ++ u16le (Z.of_nat count)
          ++ u16le (Z.of_nat count) ++ u32le cdSize ++ u32le offset
          ++ u16le 0)%list.
Proof. unfold endRecord. header. Qed.

(** The parts a file adds to the archive. *)
Local Abbreviation local_part f :=
  (u32le 0x04034b50 ++ u16le 20 ++ u16le 0 ++ u16le 0 ++ u16le 0
   ++ u16le 0 ++ u32le 0
   ++ u32le (Z.of_nat (length (TextEncoder_encode (content f))))
   ++ u32le (Z.of_nat (length (TextEncoder_encode (content f))))
   ++ u16le (Z.of_nat (length (TextEncoder_encode (name f))))
   ++ u16le 0 ++ TextEncoder_encode (name f))%list.

Local Abbreviation cd_part f start :=
  (u32le 0x02014b50 ++ u16le 20 ++ u16le 20 ++ u16le 0 ++ u16le 0
   ++ u16le 0 ++ u16le 0 ++ u32le 0
   ++ u32le (Z.of_nat (length (TextEncoder_encode (content f))))
   ++ u32le (Z.of_nat (length (TextEncoder_encode (content f))))
   ++ u16le (Z.of_nat (length (TextEncoder_encode (name f))))
   ++ u16le 0 ++ u16le 0 ++ u16le 0 ++ u16le 0 ++ u32le 0
   ++ u32le start ++ TextEncoder_encode (name f))%list.

Lemma length_local_part f :
  (length (local_part f ++ TextEncoder_encode (content f)) = local_size f)%nat.
Proof. unfold local_size. cbn. rewrite length_app. lia. Qed.

Lemma length_cd_part f start : length (cd_part f start) = cd_size f.
Proof. unfold cd_size. cbn. lia. Qed.

Lemma local_pos_cons f files k :
  local_pos (f :: files) (S k) = (local_size f + local_pos files k)%nat.
Proof. done. Qed.

Lemma zip_loop_eq files : ∀ st,
  zip_loop files st
  = Some {| zip := zip st
                   ++ flat_map (λ f, [local_part f;
                                      TextEncoder_encode (content f)]) files;
            centralDirectory :=
              centralDirectory st
              ++ imap (λ k f, cd_part f (offset st
                                         + Z.of_nat (local_pos files k)))
                   files;
            offset := offset st + Z.of_nat (local_pos files (length files)) |}.
Proof.
  induction files as [|f files IH]; intros st.
  { cbn. rewrite !app_nil_r, Z.add_0_r. by destruct st. }
  cbn [zip_loop]. unfold zip_one at 1.
  rewrite localHeader_eq, cdHeader_eq. cbn [mbind option_bind].
  rewrite IH. cbn [zip centralDirectory offset]. f_equal.
  pose proof (length_local_part f) as Hlen. rewrite length_app in Hlen.
  f_equal.
  - cbn [flat_map]. by rewrite <- app_assoc.
  - rewrite imap_cons, <- app_assoc. cbn [app]. do 2 f_equal.
    + unfold local_pos. cbn. by rewrite Z.add_0_r.
    + apply imap_ext. intros k x _. cbn [compose].
      rewrite local_pos_cons. do 18 f_equal. lia.
  - cbn [length]. rewrite local_pos_cons. lia.
Qed.

(** *** Reading the archive *)

Lemma bytes_at_middle (pre chunk post : list Z) (p n : nat) :
  (p + n ≤ length chunk)%nat →
  bytes_at (pre ++ chunk ++ post) (length pre + p) n = bytes_at chunk p n.
Proof.
  intros Hle. unfold bytes_at.
  rewrite drop_app_add', drop_app_le by lia.
  rewrite take_app_le by (rewrite length_drop; lia). done.
Qed.

Lemma read_u16le v : read_le (u16le v) = v mod 2 ^ 16.
Proof.
  unfold read_le, u16le. cbn [foldr].
  change 255 with (Z.ones 8). rewrite !Z.land_ones, !Z.shiftr_div_pow2 by lia.
  change (2 ^ 8) with 256. change (2 ^ 16) with 65536.
  Z.div_mod_to_equations. lia.
Qed.

Lemma read_u32le v : read_le (u32le v) = v mod 2 ^ 32.
Proof.
  unfold read_le, u32le. cbn [foldr].
  change 255 with (Z.ones 8). rewrite !Z.land_ones, !Z.shiftr_div_pow2 by lia.
  change (2 ^ 8) with 256. change (2 ^ 16) with 65536.
  change (2 ^ 24) with 16777216. change (2 ^ 32) with 4294967296.
  Z.div_mod_to_equations. lia.
Qed.

(** The chunk of rank [k] in a concatenation of chunks. *)
Lemma concat_imap_split {A} (g : nat → A → list Z) (size : A → nat)
    (l : list A) : ∀ k x,
  (∀ j y, length (g j y) = size y) →
  l !! k = Some x →
  ∃ pre post,
    concat (imap g l) = (pre ++ g k x ++ post)%list
    ∧ length pre = sum_list (size <$> take k l).
Proof.
  revert g. induction l as [|y l IH]; intros g k x Hsize Hk; [done|].
  rewrite imap_cons. cbn [concat]. destruct k as [|k].
  - injection Hk as ->. by exists [], (concat (imap (g ∘ S) l)).
  - cbn in Hk. destruct (IH (g ∘ S) k x) as (pre & post & Heq & Hlen);
      [intros j z; apply Hsize|done|].
    exists (g 0%nat y ++ pre)%list, post. split.
    + rewrite Heq. by rewrite <- app_assoc.
    + rewrite length_app, Hsize, Hlen. done.
Qed.

Lemma length_concat_imap {A} (g : nat → A → list Z) (size : A → nat)
    (l : list A) :
  (∀ j y, length (g j y) = size y) →
  length (concat (imap g l)) = sum_list (size <$> l).
Proof.
  revert g. induction l as [|y l IH]; intros g Hsize; [done|].
  rewrite imap_cons. cbn [concat fmap list_fmap sum_list].
  rewrite length_app, Hsize, (IH (g ∘ S)); [done|].
  intros j z. apply Hsize.
Qed.

Lemma locals_as_imap (files : list File) :
  concat (flat_map (λ f, [local_part f; TextEncoder_encode (content f)]) files)
  = concat (imap (λ _ f, local_part f ++ TextEncoder_encode (content f))%list
              files).
Proof.
  induction files as [|f files IH]; [done|].
  rewrite imap_cons. cbn [flat_map concat app].
  change ((λ (_ : nat) (f : File),
             local_part f ++ TextEncoder_encode (content f))%list ∘ S)
    with (λ (_ : nat) (f : File),
             local_part f ++ TextEncoder_encode (content f))%list.
  rewrite <- IH. cbn [concat]. by rewrite <- !app_assoc.
Qed.

Lemma cd_size_total (chunks : list (list Z)) : ∀ acc,
  fold_left (λ acc cd, acc + Z.of_nat (length cd)) chunks acc
  = acc + Z.of_nat (length (concat chunks)).
Proof.
  induction chunks as [|c chunks IH]; intros acc; cbn [fold_left concat].
  - cbn. lia.
  - rewrite IH, length_app. lia.
Qed.

(** The archive as three runs of bytes: the files, the central directory
    and the end record. *)
Lemma createZipBlob_eq i s :
  let files := zip_files i s in
  let locals :=
    concat (imap (λ _ f, local_part f ++ TextEncoder_encode (content f))%list
              files) in
  let directory :=
    concat (imap (λ k f, cd_part f (Z.of_nat (local_pos files k))) files) in
  createZipBlob i s
  = Some (locals ++ directory
          ++ (u32le 0x06054b50 ++ u16le 0 ++ u16le 0
              ++ u16le (Z.of_nat (length files))
              ++ u16le (Z.of_nat (length files))
              ++ u32le (Z.of_nat (length directory))
              ++ u32le (Z.of_nat (local_pos files (length files)))
              ++ u16le 0))%list.
Proof.
  cbn zeta. unfold createZipBlob. rewrite zip_loop_eq.
  cbn [mbind option_bind zip centralDirectory offset app].
  rewrite endRecord_eq. cbn [mbind option_bind]. f_equal.
  rewrite cd_size_total, !Z.add_0_l.
  rewrite !concat_app, locals_as_imap. cbn [concat].
  by rewrite app_nil_r, <- app_assoc.
Qed.

Lemma read_chunk (blob pre chunk post : list Z) (pos p n : nat) :
  blob = (pre ++ chunk ++ post)%list → length pre = pos →
  (p + n ≤ length chunk)%nat →
  bytes_at blob (pos + p) n = bytes_at chunk p n.
Proof. intros -> <- Hle. by apply bytes_at_middle. Qed.

Lemma bytes_at_0 (blob : list Z) (pos n : nat) :
  bytes_at blob (pos + 0) n = bytes_at blob pos n.
Proof. by rewrite Nat.add_0_r. Qed.

Lemma local_pos_all files :
  local_pos files (length files) = sum_list (local_size <$> files).
Proof. unfold local_pos. by rewrite firstn_all. Qed.

Lemma zip_files_fold cache (l : list string) : ∀ acc,
  fold_left (zip_file cache) l acc
  = (acc ++ omap (λ d, e ← exported cache d;
                       Some {| name := "entries/" ++ d ++ ".md";
                               content := ex_markdown e |}) l)%list.
Proof.
  induction l as [|d l IH]; intros acc; cbn [fold_left omap list_omap].
  { by rewrite app_nil_r. }
  rewrite IH. unfold zip_file, exported.
  destruct (cache !! d) as [entry|]; [|done].
  destruct (Storage.markdown entry) as [md|]; [|done].
  destruct (String.eqb md ""); [done|].
  cbn. by rewrite <- app_assoc.
Qed.

(** Reading the archive at a position is reading the part that lies
    there. *)
Lemma archive_read i s :
  let files := zip_files i s in
  let last := cd_pos files (length files) in
  ∃ blob,
    createZipBlob i s = Some blob
    ∧ length blob = (last + 22)%nat
    ∧ (∀ k f p n,
         files !! k = Some f → (p + n ≤ local_size f)%nat →
         bytes_at blob (local_pos files k + p) n
         = bytes_at (local_part f ++ TextEncoder_encode (content f)) p n)
    ∧ (∀ k f p n,
         files !! k = Some f → (p + n ≤ cd_size f)%nat →
         bytes_at blob (cd_pos files k + p) n
         = bytes_at (cd_part f (Z.of_nat (local_pos files k))) p n)
    ∧ (∀ p n,
         (p + n ≤ 22)%nat →
         bytes_at blob (last + p) n
         = bytes_at
             (u32le 0x06054b50 ++ u16le 0 ++ u16le 0
              ++ u16le (Z.of_nat (length files))
              ++ u16le (Z.of_nat (length files))
              ++ u32le (Z.of_nat (last - local_pos files (length files)))
              ++ u32le (Z.of_nat (local_pos files (length files)))
              ++ u16le 0) p n).
Proof.
  cbn zeta.
  pose proof (createZipBlob_eq i s) as Hblob. cbn zeta in Hblob.
  set (files := zip_files i s) in *.
  set (locals := concat (imap _ files)) in Hblob.
  set (directory := concat (imap _ files)) in Hblob.
  assert (length locals = local_pos files (length files)) as Hlocals.
  { rewrite local_pos_all.
    apply length_concat_imap. intros j f. apply length_local_part. }
  assert (length directory = sum_list (cd_size <$> files)) as Hdirectory.
  { apply length_concat_imap. intros k f. apply length_cd_part. }
  assert (cd_pos files (length files)
          = (length locals + length directory)%nat) as Hlast.
  { unfold cd_pos. by rewrite firstn_all, Hlocals, Hdirectory. }
  assert ((cd_pos files (length files) - local_pos files (length files))%nat
          = length directory) as ->.
  { rewrite Hlast, Hlocals. lia. }
  set (record := (u32le 0x06054b50 ++ _)%list) in *.
  assert (length record = 22%nat) as Hrecord by done.
  eexists. split; [exact Hblob|]. split; [|split; [|split]].
  - rewrite !length_app, Hlast, Hrecord. lia.
  - intros k f p n Hk Hle.
    destruct (concat_imap_split
                (λ _ f, local_part f ++ TextEncoder_encode (content f))%list
                local_size files k f
                ltac:(intros j g; apply length_local_part) Hk)
      as (pre & post & Hsplit & Hpre).
    fold locals in Hsplit.
    apply (read_chunk _ pre _ (post ++ directory ++ record));
      [|exact Hpre|by rewrite length_local_part].
    rewrite Hsplit. by rewrite <- !app_assoc.
  - intros k f p n Hk Hle.
    destruct (concat_imap_split
                (λ k f, cd_part f (Z.of_nat (local_pos files k)))
                cd_size files k f
                ltac:(intros j g; apply length_cd_part) Hk)
      as (pre & post & Hsplit & Hpre).
    fold directory in Hsplit.
    apply (read_chunk _ (locals ++ pre) _ (post ++ record)).
    + rewrite Hsplit. by rewrite <- !app_assoc.
    + unfold cd_pos. by rewrite length_app, Hlocals, Hpre.
    + by rewrite length_cd_part.
  - intros p n Hle.
    apply (read_chunk _ (locals ++ directory) _ []).
    + by rewrite app_nil_r, <- app_assoc.
    + by rewrite length_app, Hlast.
    + by rewrite Hrecord.
Qed.

End ZipFacts.

(** X30.  The layout of the archive that [createZipBlob] builds.  No write
    falls outside its array, so a Blob is returned.  Its files are the
    documents of the indexed dates, in the order of the index, under the
    names entries/<date>.md.  Each file is laid out as a local header (the
    signature PK 3 4), the bytes of its name and the bytes of its document;
    its central directory entry (PK 1 2) carries the name again and, in its
    last field, the position of the local header in the Blob, modulo 2^32.
    The end record (PK 5 6) carries the number of files modulo 2^16, the
    size of the central directory and the position where it starts.  The
    checksum field of every local header is zero whatever the document:
    the code computes no CRC-32. *)
Theorem createZipBlob_layout (i : Index.State) (s : Storage.Store) :
  let files := ExportMod.zip_files i s in
  let directory := ExportMod.local_pos files (length files) in
  let last := ExportMod.cd_pos files (length files) in
  files
  = omap (λ d, e ← ExportMod.exported (Storage.getEntries s) d;
               Some {| ExportMod.name := "entries/" ++ d ++ ".md";
                       ExportMod.content := ExportMod.ex_markdown e |})
      (Index._index i)
  ∧ ∃ blob,
      ExportMod.createZipBlob i s = Some blob
      ∧ length blob = (last + 22)%nat
      ∧ (∀ k f, files !! k = Some f →
           let start := ExportMod.local_pos files k in
           let entry := ExportMod.cd_pos files k in
           let n := length (TextEncoder_encode (ExportMod.name f)) in
           let c := length (TextEncoder_encode (ExportMod.content f)) in
           ExportMod.bytes_at blob start 4 = [80; 75; 3; 4]
           ∧ ExportMod.bytes_at blob (start + 14) 4 = [0; 0; 0; 0]
           ∧ ExportMod.read_le (ExportMod.bytes_at blob (start + 18) 4)
             = Z.of_nat c mod 2 ^ 32
           ∧ ExportMod.bytes_at blob (start + 30) n
             = TextEncoder_encode (ExportMod.name f)
           ∧ ExportMod.bytes_at blob (start + 30 + n) c
             = TextEncoder_encode (ExportMod.content f)
           ∧ ExportMod.bytes_at blob entry 4 = [80; 75; 1; 2]
           ∧ ExportMod.read_le (ExportMod.bytes_at blob (entry + 42) 4)
             = Z.of_nat start mod 2 ^ 32
           ∧ ExportMod.bytes_at blob (entry + 46) n
             = TextEncoder_encode (ExportMod.name f))
      ∧ ExportMod.bytes_at blob last 4 = [80; 75; 5; 6]
      ∧ ExportMod.read_le (ExportMod.bytes_at blob (last + 10) 2)
        = Z.of_nat (length files) mod 2 ^ 16
      ∧ ExportMod.read_le (ExportMod.bytes_at blob (last + 12) 4)
        = Z.of_nat (last - directory) mod 2 ^ 32
      ∧ ExportMod.read_le (ExportMod.bytes_at blob (last + 16) 4)
        = Z.of_nat directory mod 2 ^ 32.
Proof.
  cbn zeta. split.
  { unfold ExportMod.zip_files, Index.getAllDates.
    by rewrite ZipFacts.zip_files_fold. }
  destruct (ZipFacts.archive_read i s)
    as (blob & Hblob & Hlength & Hfile & Hentry & Hrecord).
  cbn zeta in Hfile, Hentry, Hrecord.
  set (files := ExportMod.zip_files i s) in *.
  exists blob. split; [exact Hblob|]. split; [exact Hlength|].
  split; [|split; [|split; [|split]]].
  - intros k f Hk. cbn zeta.
    specialize (Hfile k f). specialize (Hentry k f).
    unfold ExportMod.local_size in Hfile. unfold ExportMod.cd_size in Hentry.
    split; [|split; [|split; [|split; [|split; [|split; [|split]]]]]].
    + rewrite <- ZipFacts.bytes_at_0, Hfile by (done || lia). reflexivity.
    + rewrite Hfile by (done || lia). reflexivity.
    + rewrite Hfile by (done || lia). exact (ZipFacts.read_u32le _).
    + rewrite Hfile by (done || lia). unfold ExportMod.bytes_at.
      cbn [app skipn u32le u16le]. apply take_app_length.
    + rewrite <- Nat.add_assoc, Hfile by (done || lia).
      unfold ExportMod.bytes_at. cbn [app skipn u32le u16le Nat.add].
      rewrite drop_app_length. apply firstn_all.
    + rewrite <- ZipFacts.bytes_at_0, Hentry by (done || lia). reflexivity.
    + rewrite Hentry by (done || lia). exact (ZipFacts.read_u32le _).
    + rewrite Hentry by (done || lia). unfold ExportMod.bytes_at.
      cbn [app skipn u32le u16le]. apply firstn_all.
  - rewrite <- ZipFacts.bytes_at_0, Hrecord by lia. reflexivity.
  - rewrite Hrecord by lia. exact (ZipFacts.read_u16le _).
  - rewrite Hrecord by lia. exact (ZipFacts.read_u32le _).
  - rewrite Hrecord by lia. exact (ZipFacts.read_u32le _).
Qed.
